(** * render-tabular-json-schema: the schema engine of [app.js]

    A shallow embedding of the classes [SchemaProcessor] and [TableRenderer]
    of [src/app.js], and the properties of them that the specification states.

    Conventions of the embedding.
    - A document is the value [JSON.parse] returned for a file: reading the
      file and parsing its text are the host's, and are not modelled.
    - A string is a sequence of code units, each below 128 (ASCII).
    - A number is an integer that the host holds exactly (every integer up
      to 2^53 in magnitude is one) and prints in decimal (below 10^21): the
      engine never computes with the numbers of a document, it tests them
      for being zero and prints them.  Fractions are no values of the model.
    - An object is the list of its own members in insertion order, with
      pairwise distinct keys.  [JS.get] looks a key up among them: the
      keywords of a schema, which the engine reads by name, are defined by
      no prototype object of the host.  Where the key comes from the input,
      the members that a value inherits from the host count.  The walk of
      an internal reference follows them ([JS.access]) as far as the model
      describes the host, and the column definitions know the members of
      [Object.prototype]; a column is looked up in a fragment among the own
      members of the fragment.
    - An exception is an [Exn] outcome.  The depth of the call stack is a
      natural number; a call that needs a deeper stack ends in [RangeError],
      as unbounded recursion does in the host.  [Exn Host] is no exception:
      it ends a computation that goes on in an object of the host that the
      model does not describe. *)

From Stdlib Require Import List String Ascii ZArith Lia Bool Arith DecimalString.
From Stdlib Require Import Sorted Permutation.
Import ListNotations.
Open Scope string_scope.
Open Scope list_scope.

(** ** The host language: values, exceptions, built-in operations *)
Module JS.

#[warnings="-register-all"]
Inductive value : Type :=
| JNull
| JBool (b : bool)
| JNum (z : Z)
| JStr (s : string)
| JArr (elements : list value)
| JObj (members : list (string * value)).

(** A possibly [undefined] value: [None] is [undefined]. *)
Definition slot : Type := option value.

(** The ways in which a computation ends without a value of the model: the
    two exceptions that the engine raises, and [Host].  [Host] is no
    exception of the code: the code has read a built-in function or a
    prototype object of the host, or a member of one, and goes on with it;
    the model does not say what it returns there. *)
Inductive error : Type := TypeError | RangeError | Host.

Inductive outcome (A : Type) : Type :=
| Ok (a : A)
| Exn (e : error).
Arguments Ok {A} a.
Arguments Exn {A} e.

Definition bind {A B : Type} (c : outcome A) (k : A -> outcome B) : outcome B :=
  match c with
  | Ok a => k a
  | Exn e => Exn e
  end.

Notation "x <- c ;; k" := (bind c (fun x => k))
  (at level 61, c at next level, right associativity).

(** [for (const x of xs) body]: the loop variable state [s] is threaded through
    the iterations; the body either goes on with a new state or returns from
    the enclosing function. *)
Inductive step (S R : Type) : Type :=
| Next (s : S)
| Return (r : R).
Arguments Next {S R} s.
Arguments Return {S R} r.

Fixpoint for_of {X S R : Type} (xs : list X)
    (body : S -> X -> outcome (step S R)) (s : S) : outcome (step S R) :=
  match xs with
  | [] => Ok (Next s)
  | x :: rest =>
      match body s x with
      | Ok (Next s') => for_of rest body s'
      | Ok (Return r) => Ok (Return r)
      | Exn e => Exn e
      end
  end.

(** A loop whose body never returns from the function. *)
Fixpoint for_each {X S : Type} (xs : list X)
    (body : S -> X -> outcome S) (s : S) : outcome S :=
  match xs with
  | [] => Ok s
  | x :: rest => s' <- body s x ;; for_each rest body s'
  end.

(** *** Truthiness and identity *)

Definition truthy (v : value) : bool :=
  match v with
  | JNull => false
  | JBool b => b
  | JNum z => negb (z =? 0)%Z
  | JStr s => negb (s =? "")
  | JArr _ | JObj _ => true
  end.

Definition truthy_slot (o : slot) : bool :=
  match o with
  | Some v => truthy v
  | None => false
  end.

(** [a || b] where [a] may be undefined.  A truthy slot [a] holds the value
    [or_else a JNull]. *)
Definition or_else (a : slot) (b : value) : value :=
  match a with
  | Some v => if truthy v then v else b
  | None => b
  end.

(** [===] on values.  Two objects or arrays are compared by their contents:
    the engine compares only values taken from the documents, where an object
    is identical to itself alone, and the comparisons below never tell an object
    from an equal copy of it. *)
Fixpoint strict_eq (a b : value) {struct a} : bool :=
  match a, b with
  | JNull, JNull => true
  | JBool x, JBool y => Bool.eqb x y
  | JNum x, JNum y => (x =? y)%Z
  | JStr x, JStr y => (x =? y)
  | JArr xs, JArr ys =>
      (fix all2 (xs ys : list value) {struct xs} : bool :=
         match xs, ys with
         | [], [] => true
         | x :: xs', y :: ys' => strict_eq x y && all2 xs' ys'
         | _, _ => false
         end) xs ys
  | JObj xs, JObj ys =>
      (fix all2 (xs ys : list (string * value)) {struct xs} : bool :=
         match xs, ys with
         | [], [] => true
         | (k, x) :: xs', (l, y) :: ys' => (k =? l) && strict_eq x y && all2 xs' ys'
         | _, _ => false
         end) xs ys
  | _, _ => false
  end.

(** SameValueZero as [Map] uses it on keys.  An object or array key comes from
    one [JSON.parse] call and is identical to no key of another call. *)
Definition same_value_zero (a b : value) : bool :=
  match a, b with
  | JNull, JNull => true
  | JBool x, JBool y => Bool.eqb x y
  | JNum x, JNum y => (x =? y)%Z
  | JStr x, JStr y => (x =? y)
  | _, _ => false
  end.

(** *** Strings *)

(** [s.startsWith(p)] *)
Fixpoint startsWith (s p : string) : bool :=
  match p, s with
  | EmptyString, _ => true
  | String _ _, EmptyString => false
  | String c p', String d s' => Ascii.eqb d c && startsWith s' p'
  end.

(** [s.endsWith(t)] *)
Fixpoint endsWith (s t : string) : bool :=
  (s =? t) ||
  match s with
  | EmptyString => false
  | String _ s' => endsWith s' t
  end.

(** [s.includes(t)] *)
Fixpoint includes (s t : string) : bool :=
  startsWith s t ||
  match s with
  | EmptyString => false
  | String _ s' => includes s' t
  end.

(** [s.substring(n)] *)
Fixpoint substring (n : nat) (s : string) : string :=
  match n, s with
  | O, _ => s
  | S _, EmptyString => EmptyString
  | S n', String _ s' => substring n' s'
  end.

(** [s.split(sep)] for a separator of one code unit: never empty. *)
Fixpoint split (sep : ascii) (s : string) : list string :=
  match s with
  | EmptyString => [EmptyString]
  | String c s' =>
      if Ascii.eqb c sep then EmptyString :: split sep s'
      else match split sep s' with
           | seg :: rest => String c seg :: rest
           | [] => [String c EmptyString]
           end
  end.

(** The code units of a string, each as a string of length one. *)
Fixpoint units (s : string) : list value :=
  match s with
  | EmptyString => []
  | String c s' => JStr (String c EmptyString) :: units s'
  end.

(** *** Property keys of arrays and strings *)

Definition key_of_index (i : N) : string :=
  NilEmpty.string_of_uint (N.to_uint i).

(** The integer a key denotes, when the key is the canonical decimal numeral
    of one: 7 is, 07 and the empty key are not. *)
Definition index_of_key (k : string) : option N :=
  match NilEmpty.uint_of_string k with
  | Some d =>
      let i := N.of_uint d in
      if key_of_index i =? k then Some i else None
  | None => None
  end.

(** An array index is an integer key below 2^32 - 1. *)
Definition array_index (k : string) : option N :=
  match index_of_key k with
  | Some i => if (i <? 4294967295)%N then Some i else None
  | None => None
  end.

Definition indexed (l : list value) : list (string * value) :=
  combine (map (fun i => key_of_index (N.of_nat i)) (seq 0 (List.length l))) l.

Definition element (l : list value) (k : string) : slot :=
  if k =? "length" then Some (JNum (Z.of_nat (List.length l)))
  else match array_index k with
       | Some i =>
           if (i <? N.of_nat (List.length l))%N then nth_error l (N.to_nat i)
           else None
       | None => None
       end.

(** *** Objects

    [JObj members] lists the members in insertion order, which for a parsed
    document is the order of the text. *)

Fixpoint member (k : string) (members : list (string * value)) : slot :=
  match members with
  | [] => None
  | (k', v) :: rest => if k' =? k then Some v else member k rest
  end.

(** The order in which the host enumerates the own properties of an object:
    array indices first, ascending, then the other keys as inserted. *)
Section OwnPropertyKeys.
Context {V : Type}.

Fixpoint insert_by_index (i : N) (e : string * V)
    (sorted : list (N * (string * V))) : list (N * (string * V)) :=
  match sorted with
  | [] => [(i, e)]
  | (j, f) :: rest =>
      if (i <? j)%N then (i, e) :: sorted else (j, f) :: insert_by_index i e rest
  end.

(** The members whose key is an array index, in ascending order of index. *)
Definition index_entries (members : list (string * V)) :
    list (N * (string * V)) :=
  fold_left
    (fun sorted e =>
       match array_index (fst e) with
       | Some i => insert_by_index i e sorted
       | None => sorted
       end)
    members [].

(** The other members, in insertion order. *)
Definition named_entries (members : list (string * V)) : list (string * V) :=
  filter (fun e => match array_index (fst e) with Some _ => false | None => true end)
         members.

Definition own_entries (members : list (string * V)) : list (string * V) :=
  map snd (index_entries members) ++ named_entries members.
End OwnPropertyKeys.

(** [v[k]], also written [v.k], among the own members of [v]: reading a
    property of [null] throws.  This is the member access of the code where
    [k] is the name of a schema keyword; [access], below, is the member
    access for a key taken from the input. *)
Definition get (v : value) (k : string) : outcome slot :=
  match v with
  | JNull => Exn TypeError
  | JBool _ | JNum _ => Ok None
  | JStr s => Ok (element (units s) k)
  | JArr l => Ok (element l k)
  | JObj members => Ok (member k members)
  end.

(** [o?.k] where [o] may be undefined. *)
Definition get_opt (o : slot) (k : string) : slot :=
  match o with
  | None | Some JNull => None
  | Some v => match get v k with Ok r => r | Exn _ => None end
  end.

(** [Object.entries(v)] *)
Definition entries (v : value) : outcome (list (string * value)) :=
  match v with
  | JNull => Exn TypeError
  | JBool _ | JNum _ => Ok []
  | JStr s => Ok (indexed (units s))
  | JArr l => Ok (indexed l)
  | JObj members => Ok (own_entries members)
  end.

(** [Object.keys(v)] *)
Definition keys (v : value) : outcome (list string) :=
  es <- entries v ;; Ok (map fst es).

(** The values [for (const x of v)] iterates. *)
Definition iterate (v : value) : outcome (list value) :=
  match v with
  | JArr l => Ok l
  | JStr s => Ok (units s)
  | _ => Exn TypeError
  end.

(** *** Members inherited from the host

    A value that is not [null] inherits the members of a prototype object of
    the host: an object those of [Object.prototype]; an array, a string, a
    number, a boolean those of the prototype of its kind and, behind it,
    those of [Object.prototype].  The names are those of ECMAScript 2024
    with the additions that web browsers make (its Annex B); for arrays and
    strings a name of a later edition is listed when in doubt. *)

Inductive kind : Type := AnObject | AnArray | AString | ANumber | ABoolean.

Definition kind_of (v : value) : option kind :=
  match v with
  | JNull => None
  | JBool _ => Some ABoolean
  | JNum _ => Some ANumber
  | JStr _ => Some AString
  | JArr _ => Some AnArray
  | JObj _ => Some AnObject
  end.

(** The [name] of the function that [v.constructor] is. *)
Definition constructor_name (k : kind) : string :=
  match k with
  | AnObject => "Object"
  | AnArray => "Array"
  | AString => "String"
  | ANumber => "Number"
  | ABoolean => "Boolean"
  end.

Definition objectPrototype : list string :=
  ["constructor"; "__defineGetter__"; "__defineSetter__"; "hasOwnProperty";
   "__lookupGetter__"; "__lookupSetter__"; "isPrototypeOf";
   "propertyIsEnumerable"; "toString"; "valueOf"; "__proto__"; "toLocaleString"].

Definition arrayPrototype : list string :=
  ["constructor"; "at"; "concat"; "copyWithin"; "fill"; "find"; "findIndex";
   "findLast"; "findLastIndex"; "lastIndexOf"; "pop"; "push"; "reverse";
   "shift"; "unshift"; "slice"; "sort"; "splice"; "includes"; "indexOf";
   "join"; "keys"; "entries"; "values"; "forEach"; "filter"; "flat";
   "flatMap"; "map"; "every"; "some"; "reduce"; "reduceRight"; "toReversed";
   "toSorted"; "toSpliced"; "with"; "toLocaleString"; "toString";
   "group"; "groupBy"; "groupToMap"; "groupByToMap"].

Definition stringPrototype : list string :=
  ["constructor"; "anchor"; "at"; "big"; "blink"; "bold"; "charAt";
   "charCodeAt"; "codePointAt"; "concat"; "endsWith"; "fixed"; "fontcolor";
   "fontsize"; "includes"; "indexOf"; "isWellFormed"; "italics";
   "lastIndexOf"; "link"; "localeCompare"; "match"; "matchAll"; "normalize";
   "padEnd"; "padStart"; "repeat"; "replace"; "replaceAll"; "search";
   "slice"; "small"; "split"; "strike"; "sub"; "substr"; "substring"; "sup";
   "startsWith"; "toString"; "toWellFormed"; "trim"; "trimStart"; "trimLeft";
   "trimEnd"; "trimRight"; "toLocaleLowerCase"; "toLocaleUpperCase";
   "toLowerCase"; "toUpperCase"; "valueOf"].

Definition numberPrototype : list string :=
  ["constructor"; "toExponential"; "toFixed"; "toPrecision"; "toString";
   "valueOf"; "toLocaleString"].

Definition booleanPrototype : list string :=
  ["constructor"; "toString"; "valueOf"].

Definition prototype (k : kind) : list string :=
  match k with
  | AnObject => objectPrototype
  | AnArray => arrayPrototype ++ objectPrototype
  | AString => stringPrototype ++ objectPrototype
  | ANumber => numberPrototype ++ objectPrototype
  | ABoolean => booleanPrototype ++ objectPrototype
  end.

(** [k] names a member that a value of kind [c] inherits. *)
Definition inherits (c : kind) (k : string) : bool :=
  existsb (String.eqb k) (prototype c).

(** What a walk along keys taken from the input stands on: a value of the
    document, or the function that is the [constructor] of the values of a
    kind. *)
Inductive place : Type :=
| Document (v : value)
| Constructor (c : kind).

Definition truthy_place (p : place) : bool :=
  match p with
  | Document v => truthy v
  | Constructor _ => true
  end.

(** [p[k]] for any key [k].  An own member hides an inherited one.  Of the
    inherited members the model follows [constructor], which every
    prototype object above defines, and of that function its [name]; any
    other inherited member, and any other member of the function, is a
    function or an object of the host, or the host's to define: [Host]. *)
Definition access (p : place) (k : string) : outcome (option place) :=
  match p with
  | Document v =>
      own <- get v k ;;
      match own, kind_of v with
      | Some w, _ => Ok (Some (Document w))
      | None, Some c =>
          if k =? "constructor" then Ok (Some (Constructor c))
          else if inherits c k then Exn Host
          else Ok None
      | None, None => Ok None
      end
  | Constructor c =>
      if k =? "name" then Ok (Some (Document (JStr (constructor_name c))))
      else Exn Host
  end.

(** *** [Map]: entries in insertion order, keys pairwise different *)
Section InsertionOrderedMap.
Context {K V : Type}.
Variable same : K -> K -> bool.

Fixpoint map_get (m : list (K * V)) (k : K) : option V :=
  match m with
  | [] => None
  | (k', v') :: rest => if same k' k then Some v' else map_get rest k
  end.

(** [m.set(k, v)]: a key already present keeps its place. *)
Fixpoint map_set (m : list (K * V)) (k : K) (v : V) : list (K * V) :=
  match m with
  | [] => [(k, v)]
  | (k', v') :: rest =>
      if same k' k then (k', v) :: rest else (k', v') :: map_set rest k v
  end.
End InsertionOrderedMap.

(** *** Conversion to strings *)

Definition newline : ascii := "010"%char.
Definition quote : ascii := "034"%char.
Definition backslash : ascii := "092"%char.
Definition str (c : ascii) : string := String c EmptyString.

Definition decimal (z : Z) : string := NilZero.string_of_int (Z.to_int z).

(** [a.map(f)] for a callback that may throw. *)
Fixpoint map_array {X Y : Type} (f : X -> outcome Y) (a : list X) :
    outcome (list Y) :=
  match a with
  | [] => Ok []
  | x :: rest => y <- f x ;; ys <- map_array f rest ;; Ok (y :: ys)
  end.

(** [String(v)], and [v] inside a template literal.  An array is the join of
    its elements.  An object is converted by the [toString] it inherits,
    unless it has a member [toString] of its own: a member of a document is
    no function, and neither is what [valueOf] returns, so the conversion
    throws. *)
Fixpoint toString (v : value) : outcome string :=
  match v with
  | JNull => Ok "null"
  | JBool true => Ok "true"
  | JBool false => Ok "false"
  | JNum z => Ok (decimal z)
  | JStr s => Ok s
  | JArr l =>
      parts <-
        (fix each (l : list value) : outcome (list string) :=
           match l with
           | [] => Ok []
           | x :: rest =>
               s <- match x with JNull => Ok "" | _ => toString x end ;;
               ss <- each rest ;;
               Ok (s :: ss)
           end) l ;;
      Ok (String.concat "," parts)
  | JObj members =>
      match member "toString" members with
      | Some _ => Exn TypeError
      | None => Ok "[object Object]"
      end
  end.

(** The text of an element inside [join]: [null] is the empty string. *)
Definition element_text (x : value) : outcome string :=
  match x with JNull => Ok "" | _ => toString x end.

(** [a.join(sep)] on an array. *)
Definition join (sep : string) (l : list value) : outcome string :=
  parts <- map_array element_text l ;; Ok (String.concat sep parts).

(** [String(c)] for a cell that may be [undefined]. *)
Definition text (c : slot) : outcome string :=
  match c with
  | Some v => toString v
  | None => Ok "undefined"
  end.

Definition hex_digit (n : nat) : string :=
  str (nth n ["0"; "1"; "2"; "3"; "4"; "5"; "6"; "7"; "8"; "9";
              "a"; "b"; "c"; "d"; "e"; "f"]%char "0"%char).

(** One code unit inside a string literal of [JSON.stringify]. *)
Definition escape_unit (c : ascii) : string :=
  let n := nat_of_ascii c in
  (if Ascii.eqb c quote then str backslash ++ str quote
   else if Ascii.eqb c backslash then str backslash ++ str backslash
   else if (n =? 8)%nat then str backslash ++ "b"
   else if (n =? 9)%nat then str backslash ++ "t"
   else if (n =? 10)%nat then str backslash ++ "n"
   else if (n =? 12)%nat then str backslash ++ "f"
   else if (n =? 13)%nat then str backslash ++ "r"
   else if (n <? 32)%nat then
     str backslash ++ "u00" ++ hex_digit (n / 16) ++ hex_digit (n mod 16)
   else str c)%string.

Fixpoint escape_units (s : string) : string :=
  match s with
  | EmptyString => EmptyString
  | String c s' => (escape_unit c ++ escape_units s')%string
  end.

Definition quoted (s : string) : string :=
  (str quote ++ escape_units s ++ str quote)%string.

(** [JSON.stringify(v)] *)
Fixpoint stringify (v : value) : string :=
  match v with
  | JNull => "null"
  | JBool true => "true"
  | JBool false => "false"
  | JNum z => decimal z
  | JStr s => quoted s
  | JArr l => ("[" ++ String.concat "," (map stringify l) ++ "]")%string
  | JObj members =>
      ("{" ++ String.concat ","
                (map (fun kt => quoted (fst kt) ++ ":" ++ snd kt)
                     (own_entries
                        (map (fun kv => (fst kv, stringify (snd kv))) members)))
           ++ "}")%string
  end.

(** [c.toUpperCase()] and the test [/[A-Z]/] on one code unit. *)
Definition is_upper (c : ascii) : bool :=
  let n := nat_of_ascii c in (65 <=? n)%nat && (n <=? 90)%nat.

Definition upper (c : ascii) : ascii :=
  let n := nat_of_ascii c in
  if (97 <=? n)%nat && (n <=? 122)%nat then ascii_of_nat (n - 32) else c.

Definition is_space (c : ascii) : bool :=
  let n := nat_of_ascii c in ((9 <=? n)%nat && (n <=? 13)%nat) || (n =? 32)%nat.

Fixpoint trimStart (s : string) : string :=
  match s with
  | EmptyString => EmptyString
  | String c s' => if is_space c then trimStart s' else s
  end.

(** [s.trimEnd()]: a code unit is dropped when it is a space and nothing but
    spaces follows it. *)
Fixpoint trimEnd (s : string) : string :=
  match s with
  | EmptyString => EmptyString
  | String c s' =>
      match trimEnd s' with
      | EmptyString => if is_space c then EmptyString else str c
      | rest => String c rest
      end
  end.

(** [s.trim()] *)
Definition trim (s : string) : string := trimEnd (trimStart s).

(** [s.replace] of every double quote by two of them. *)
Fixpoint double_quotes (s : string) : string :=
  match s with
  | EmptyString => EmptyString
  | String c s' =>
      if Ascii.eqb c quote then String quote (String quote (double_quotes s'))
      else String c (double_quotes s')
  end.

(** [s.includes(c)] for one code unit. *)
Fixpoint has_unit (c : ascii) (s : string) : bool :=
  match s with
  | EmptyString => false
  | String c' s' => Ascii.eqb c' c || has_unit c s'
  end.

(** *** Arrays and sets *)

(** Where [a.splice(start, ...)] starts on an array of [len] elements: a
    negative [start] counts from the end, and both ends clamp. *)
Definition splice_start (len : nat) (start : Z) : nat :=
  if (start <? 0)%Z then Z.to_nat (Z.max (Z.of_nat len + start) 0)
  else Nat.min (Z.to_nat start) len.

(** [a.splice(start, deleteCount, ...items)] for an integer [start]: the
    removed elements, which it returns, and the array it leaves. *)
Definition splice {A : Type} (a : list A) (start : Z) (deleteCount : nat)
    (items : list A) : list A * list A :=
  let from := splice_start (List.length a) start in
  (firstn deleteCount (skipn from a),
   firstn from a ++ items ++ skipn deleteCount (skipn from a)).

(** [new Set(a)]: the elements in the order of their first occurrence. *)
Definition set_of (a : list string) : list string :=
  fold_left (fun set x => if existsb (String.eqb x) set then set else set ++ [x]) a [].

(** One insertion of the stable sort: [x] goes before the first element that
    [compare] places after it. *)
Fixpoint insert_sorted {A : Type} (compare : A -> A -> Z) (x : A)
    (sorted : list A) : list A :=
  match sorted with
  | [] => [x]
  | y :: rest =>
      if (0 <? compare y x)%Z then x :: sorted
      else y :: insert_sorted compare x rest
  end.

(** [a.sort(compare)].  The host's sort is stable, so for a comparator that
    orders by a key the result does not depend on the algorithm; it is
    computed here by insertion from left to right. *)
Definition sort {A : Type} (compare : A -> A -> Z) (a : list A) : list A :=
  fold_left (fun sorted x => insert_sorted compare x sorted) a [].

End JS.

(** ** [class SchemaProcessor] *)
Module SchemaProcessor.
Import JS.

(** One uploaded file: its name and the document its text parses to. *)
Record file : Type := File {
  name : string;
  document : value
}.

(** A row of the table: the object [extractProperties] pushes. *)
Record ExtractedProperty : Type := Property {
  category : value;          (* [null] is [JNull] *)
  prop_name : string;
  schema : value;
  required : bool
}.

Record TableData : Type := Table {
  title : value;
  description : value;
  properties : list ExtractedProperty
}.

(** The fields of the instance.  [schemas] and [keywordUsage] are [Map]s. *)
Record Processor : Type := Instance {
  schemas : list (value * value);
  mainSchema : value;        (* [null] is [JNull] *)
  keywordUsage : list (string * nat)
}.

(** [constructor()] *)
Definition new : Processor :=
  {| schemas := []; mainSchema := JNull; keywordUsage := [] |}.

Definition store : Type := list (value * value).

Definition schemas_get (m : store) (k : value) : slot :=
  map_get same_value_zero m k.

Definition schemas_set (m : store) (k v : value) : store :=
  map_set same_value_zero m k v.

Definition usage_get (m : list (string * nat)) (k : string) : option nat :=
  map_get String.eqb m k.

Definition usage_set (m : list (string * nat)) (k : string) (n : nat) :
    list (string * nat) :=
  map_set String.eqb m k n.

(** *** [resolveRef(ref, baseSchema)] *)

(** The body of the loop over the path of an internal reference.  The
    segments come from the reference: [current[segment]] finds inherited
    members as well as own ones. *)
Definition descend (current : place) (segment : string) :
    outcome (step place value) :=
  next <- access current segment ;;
  match next with
  | Some p => if truthy_place p then Ok (Next p) else Ok (Return JNull)
  | None => Ok (Return JNull)
  end.

(** The body of the loop over the store for an external reference.
    [id.endsWith] is a function only when [id] is a string. *)
Definition probe (ref : string) (_ : unit) (entry : value * value) :
    outcome (step unit value) :=
  match fst entry with
  | JStr id =>
      if endsWith id ref || endsWith ref id then Ok (Return (snd entry))
      else Ok (Next tt)
  | _ => Exn TypeError
  end.

Definition resolveRef (schemas : store) (ref : value) (baseSchema : value) :
    outcome value :=
  match ref with
  | JStr ref =>
      if startsWith ref "#" then
        let path := split "/" (substring 2 ref) in
        r <- for_of path descend (Document baseSchema) ;;
        match r with
        | Return v => Ok v
        | Next (Document current) => Ok current
        | Next (Constructor _) => Exn Host     (* a function of the host *)
        end
      else
        r <- for_of schemas (probe ref) tt ;;
        match r with
        | Return v => Ok v
        | Next _ => Ok (or_else (schemas_get schemas (JStr ref)) JNull)
        end
  | _ => Exn TypeError        (* [ref.startsWith] is not a function *)
  end.

(** *** [extractProperties(schema, category = null)] *)

(** [schema.required?.includes(name) || false] *)
Definition required_includes (required : slot) (name : string) : outcome bool :=
  match required with
  | None | Some JNull => Ok false
  | Some (JArr l) => Ok (existsb (fun x => strict_eq x (JStr name)) l)
  | Some (JStr s) => Ok (includes s name)
  | Some _ => Exn TypeError   (* [includes] is not a function *)
  end.

(** The body of the loop over [Object.entries(schema.properties)]. *)
Definition push_property (schema category : value)
    (result : list ExtractedProperty) (entry : string * value) :
    outcome (list ExtractedProperty) :=
  let '(name, propSchema) := entry in
  req <- get schema "required" ;;
  r <- required_includes req name ;;
  Ok (result ++ [Property category name propSchema r]).

Fixpoint extractProperties (stack : nat) (schemas : store)
    (schema category : value) : outcome (list ExtractedProperty) :=
  match stack with
  | O => Exn RangeError
  | S depth =>
      let result := [] in
      props <- get schema "properties" ;;
      result <-
        (if truthy_slot props then
           es <- entries (or_else props JNull) ;;
           for_each es (push_property schema category) result
         else Ok result) ;;
      allOf <- get schema "allOf" ;;
      if truthy_slot allOf then
        subs <- iterate (or_else allOf JNull) ;;
        for_each subs
          (fun result subSchema =>
             ref <- get subSchema "$ref" ;;
             if truthy_slot ref then
               resolved <- resolveRef schemas (or_else ref JNull) schema ;;
               if truthy resolved then
                 t <- get resolved "title" ;;
                 let subCategory := or_else t category in
                 sub <- extractProperties depth schemas resolved subCategory ;;
                 Ok (result ++ sub)
               else Ok result
             else
               sub <- extractProperties depth schemas subSchema category ;;
               Ok (result ++ sub))
          result
      else Ok result
  end.

(** *** [getTableData()] *)
Definition getTableData (stack : nat) (this : Processor) :
    outcome (option TableData) :=
  if negb (truthy (mainSchema this)) then Ok None
  else
    items <- get (mainSchema this) "items" ;;
    let ref := get_opt items "$ref" in
    itemSchema <-
      (if truthy_slot ref then
         v <- resolveRef (schemas this) (or_else ref JNull) (mainSchema this) ;;
         Ok (Some v)
       else Ok items) ;;
    match itemSchema with
    | Some itemSchema =>
        if truthy itemSchema then
          properties <- extractProperties stack (schemas this) itemSchema JNull ;;
          t <- get (mainSchema this) "title" ;;
          d <- get (mainSchema this) "description" ;;
          Ok (Some {| title := or_else t (JStr "Dataset Schema");
                      description := or_else d (JStr "");
                      properties := properties |})
        else Ok None
    | None => Ok None
    end.

(** *** [collectKeywordUsage()] *)
Definition excludedKeywords : list string :=
  ["$schema"; "$id"; "$ref"; "properties"; "items"; "allOf"; "anyOf"; "oneOf";
   "enumDescriptions"].

Definition excluded (keyword : string) : bool :=
  existsb (String.eqb keyword) excludedKeywords.

(** The body of the inner loop: one keyword of one property. *)
Definition count_keyword (usage : list (string * nat)) (keyword : string) :
    list (string * nat) :=
  if negb (excluded keyword) then
    let count := match usage_get usage keyword with Some n => n | None => 0 end in
    usage_set usage keyword (count + 1)
  else usage.

(** The loop over the properties.  An exception leaves the counts made so
    far in the map. *)
Fixpoint count_properties (props : list ExtractedProperty)
    (usage : list (string * nat)) : list (string * nat) * outcome unit :=
  match props with
  | [] => (usage, Ok tt)
  | prop :: rest =>
      match keys (schema prop) with
      | Ok ks => count_properties rest (fold_left count_keyword ks usage)
      | Exn e => (usage, Exn e)
      end
  end.

Definition collectKeywordUsage (stack : nat) (this : Processor) :
    Processor * outcome unit :=
  match getTableData stack this with
  | Exn e => (this, Exn e)
  | Ok data =>
      let properties := match data with Some d => properties d | None => [] end in
      let '(usage, r) := count_properties properties (keywordUsage this) in
      ({| schemas := schemas this; mainSchema := mainSchema this;
          keywordUsage := usage |}, r)
  end.

(** *** [processFiles(files)] *)

(** The body of the loading loop, on the fields [schemas] and [mainSchema]. *)
Definition load (state : store * value) (f : file) : outcome (store * value) :=
  let '(schemas, main) := state in
  let schema := document f in
  id <- get schema "$id" ;;
  let schemas :=
    if truthy_slot id then schemas_set schemas (or_else id JNull) schema
    else schemas_set schemas (JStr (name f)) schema in
  type <- get schema "type" ;;
  items <- get schema "items" ;;
  let is_array := match type with Some t => strict_eq t (JStr "array") | None => false end in
  if is_array && truthy_slot items then Ok (schemas, schema)
  else Ok (schemas, main).

(** The loading loop; an exception leaves the fields as the earlier files
    set them. *)
Fixpoint load_all (files : list file) (state : store * value) :
    (store * value) * outcome unit :=
  match files with
  | [] => (state, Ok tt)
  | f :: rest =>
      match load state f with
      | Ok state' => load_all rest state'
      | Exn e => (state, Exn e)
      end
  end.

(** [this.schemas.values().next().value], read when the store has one entry. *)
Definition first_value (m : store) : value :=
  match m with
  | (_, v) :: _ => v
  | [] => JNull
  end.

(** The value the [async] function resolves to, or the exception it rejects
    with, together with the fields it leaves.  The fields of [this] are
    cleared first: nothing of an earlier run is read. *)
Definition processFiles (stack : nat) (this : Processor) (files : list file) :
    Processor * outcome bool :=
  match load_all files ([], JNull) with
  | ((schemas, main), Exn e) =>
      ({| schemas := schemas; mainSchema := main; keywordUsage := [] |}, Exn e)
  | ((schemas, main), Ok _) =>
      let main :=
        if negb (truthy main) && (List.length schemas =? 1)%nat
        then first_value schemas else main in
      let this := {| schemas := schemas; mainSchema := main; keywordUsage := [] |} in
      let '(this, r) :=
        if truthy main then collectKeywordUsage stack this else (this, Ok tt) in
      (this, _ <- r ;; Ok (negb (strict_eq (mainSchema this) JNull)))
  end.

(** *** [getKeywordUsageStats()]: the entries of the map, by descending
    count; the object [{keyword, count}] of an entry is kept as the pair *)
Definition getKeywordUsageStats (this : Processor) : list (string * nat) :=
  sort (fun a b => Z.of_nat (snd b) - Z.of_nat (snd a))%Z (keywordUsage this).

End SchemaProcessor.

(** ** [class ColumnManager]: the part [exportToCSV] uses *)
Module ColumnManager.
Import JS.

Definition columnDefinitions : list (string * string) :=
  [("name", "Variable Name"); ("description", "Description");
   ("type", "Data Type"); ("format", "Format"); ("enum", "Valid Values");
   ("required", "Required"); ("default", "Default"); ("const", "Constant");
   ("minimum", "Min"); ("maximum", "Max");
   ("exclusiveMinimum", "Exclusive Min"); ("exclusiveMaximum", "Exclusive Max");
   ("minLength", "Min Length"); ("maxLength", "Max Length");
   ("pattern", "Pattern"); ("multipleOf", "Multiple Of");
   ("minItems", "Min Items"); ("maxItems", "Max Items");
   ("uniqueItems", "Unique Items"); ("minProperties", "Min Properties");
   ("maxProperties", "Max Properties"); ("deprecated", "Deprecated");
   ("readOnly", "Read Only"); ("writeOnly", "Write Only"); ("title", "Title");
   ("examples", "Examples"); ("additionalInfo", "Additional Info")].

(** The first [replace] of [formatKeywordDisplay]: a space before every
    capital letter. *)
Fixpoint space_capitals (s : string) : string :=
  match s with
  | EmptyString => EmptyString
  | String c s' =>
      if is_upper c then String " " (String c (space_capitals s'))
      else String c (space_capitals s')
  end.

(** The second one: the first code unit in upper case, unless it ends a
    line. *)
Definition capitalize (s : string) : string :=
  match s with
  | EmptyString => EmptyString
  | String c s' =>
      if Ascii.eqb c newline || Ascii.eqb c "013"%char then s
      else String (upper c) s'
  end.

Definition formatKeywordDisplay (keyword : string) : string :=
  trim (capitalize (space_capitals keyword)).

(** [getColumnDefinition(keyword).display].  [columnDefinitions] is an
    object of the code: for a keyword that names a member of
    [Object.prototype], [this.columnDefinitions[keyword]] is that member, a
    function or an object, which is truthy and has no [display]. *)
Definition display (keyword : string) : slot :=
  match map_get String.eqb columnDefinitions keyword with
  | Some d => Some (JStr d)
  | None =>
      if inherits AnObject keyword then None
      else Some (JStr (formatKeywordDisplay keyword))
  end.

(** *** The selection of columns

    An array of columns may hold [undefined], written [None], after a move
    from an index that does not exist. *)

(** [this.defaultColumns.map(c => c.keyword)] *)
Definition defaultColumnOrder : list string :=
  ["name"; "description"; "type"; "enum"; "required"].

(** [moveColumn(fromIndex, toIndex)] for integer indices: the field
    [selectedColumns] it leaves. *)
Definition moveColumn {A : Type} (fromIndex toIndex : Z)
    (selectedColumns : list (option A)) : list (option A) :=
  if (fromIndex =? toIndex)%Z then selectedColumns
  else
    let columns := selectedColumns in
    let '(removed, columns) := splice columns fromIndex 1 [] in
    let movedColumn := match removed with x :: _ => x | [] => None end in
    snd (splice columns toIndex 0 [movedColumn]).

(** [resetColumnOrder()] *)
Definition resetColumnOrder (selectedColumns : list string) : list string :=
  let selected := set_of selectedColumns in
  let columns :=
    filter (fun col => existsb (String.eqb col) selected) defaultColumnOrder in
  fold_left
    (fun columns col =>
       if negb (existsb (String.eqb col) defaultColumnOrder) then columns ++ [col]
       else columns)
    selected columns.

(** [handleCheckboxChange(checkbox, container)]: the field [selectedColumns]
    it leaves, [keyword] and [checked] being the value and the state of the
    checkbox. *)
Definition handleCheckboxChange (keyword : string) (checked : bool)
    (selectedColumns : list string) : list string :=
  if checked then
    if negb (existsb (String.eqb keyword) selectedColumns)
    then selectedColumns ++ [keyword] else selectedColumns
  else if negb (keyword =? "name") then
    filter (fun col => negb (col =? keyword)) selectedColumns
  else selectedColumns.

End ColumnManager.

(** ** [class TableRenderer]: the CSV export *)
Module TableRenderer.
Import JS SchemaProcessor.

(** [formatType(schema)] *)
Definition formatType (schema : value) : outcome value :=
  type <- get schema "type" ;;
  format <- get schema "format" ;;
  match type with
  | Some (JArr l) => s <- join " | " l ;; Ok (JStr s)
  | _ =>
      let type := or_else type (JStr "any") in
      match format with
      | Some f =>
          if truthy f then
            t <- toString type ;;
            f <- toString f ;;
            Ok (JStr (t ++ " (" ++ f ++ ")")%string)
          else Ok type
      | None => Ok type
      end
  end.

(** [formatEnumForCSV(schema)] *)
Definition formatEnumForCSV (schema : value) : outcome value :=
  enum <- get schema "enum" ;;
  match enum with
  | Some enum =>
      if truthy enum then
        descriptions <- get schema "enumDescriptions" ;;
        len <- get enum "length" ;;
        let hasDescriptions :=
          match descriptions, len with
          | Some (JArr ds), Some n =>
              strict_eq (JNum (Z.of_nat (List.length ds))) n
          | _, _ => false
          end in
        match enum with
        | JArr values =>
            if hasDescriptions then
              let ds := match descriptions with Some (JArr ds) => ds | _ => [] end in
              lines <- map_array
                         (fun vd =>
                            v <- toString (fst vd) ;;
                            d <- toString (snd vd) ;;
                            Ok (v ++ ": " ++ d)%string)
                         (combine values ds) ;;
              Ok (JStr (String.concat (str newline) lines))
            else s <- join (str newline) values ;; Ok (JStr s)
        | _ => Exn TypeError      (* [map], [join] are not functions *)
        end
      else Ok (JStr "")
  | None => Ok (JStr "")
  end.

Definition additionalExcluded : list string :=
  ["name"; "description"; "type"; "enum"; "enumDescriptions"; "const";
   "required"; "$schema"; "$id"; "$ref"; "properties"; "items";
   "allOf"; "anyOf"; "oneOf"].

Definition mem (k : string) (l : list string) : bool := existsb (String.eqb k) l.

(** [formatAdditionalInfoForCSV(prop, schema)]; [displayed] is the selection
    of the column manager. *)
Definition formatAdditionalInfoForCSV (displayed : list string) (schema : value) :
    outcome value :=
  es <- entries schema ;;
  additionalData <-
    for_each es
      (fun data kv =>
         let '(key, v) := kv in
         if negb (mem key additionalExcluded) && negb (mem key displayed)
            && negb (strict_eq v JNull)
         then
           displayValue <-
             match v with
             | JArr _ | JObj _ => Ok (stringify v)
             | _ => toString v
             end ;;
           Ok (data ++ [(ColumnManager.formatKeywordDisplay key ++ ": "
                         ++ displayValue)%string])
         else Ok data)
      [] ;;
  Ok (JStr (String.concat (str newline) additionalData)).

(** The [switch] of [exportToCSV]: the value of one column for one row.
    In its last case the column is looked up among the own members of the
    fragment. *)
Definition cell (displayed : list string) (prop : ExtractedProperty)
    (col : string) : outcome value :=
  if col =? "name" then Ok (JStr (prop_name prop))
  else if col =? "description" then
    d <- get (schema prop) "description" ;; Ok (or_else d (JStr ""))
  else if col =? "type" then formatType (schema prop)
  else if col =? "enum" then
    c <- get (schema prop) "const" ;;
    match c with
    | Some c => s <- toString c ;; Ok (JStr s)
    | None => formatEnumForCSV (schema prop)
    end
  else if col =? "required" then
    Ok (JStr (if required prop then "Yes" else "No"))
  else if col =? "additionalInfo" then
    formatAdditionalInfoForCSV displayed (schema prop)
  else
    v <- get (schema prop) col ;;
    match v with
    | Some v => Ok (JStr (stringify v))
    | None => Ok (JStr "")
    end.

(** The body of the loop over [data.properties]: the state is
    [currentCategory] and [rows]. *)
Definition push_row (displayed columns : list string)
    (state : value * list (list slot)) (prop : ExtractedProperty) :
    outcome (value * list (list slot)) :=
  let '(currentCategory, rows) := state in
  let currentCategory :=
    if truthy (category prop) && negb (strict_eq (category prop) currentCategory)
    then category prop else currentCategory in
  let row := [Some (or_else (Some currentCategory) (JStr ""))] in
  row <- for_each columns
           (fun row col => value <- cell displayed prop col ;; Ok (row ++ [Some value]))
           row ;;
  Ok (currentCategory, rows ++ [row]).

(** The function mapped over the cells of a row; a cell of the header row
    may be [undefined]. *)
Definition format_cell (c : slot) : outcome string :=
  s <- text c ;;
  let cellStr := double_quotes s in
  if has_unit newline cellStr || has_unit "," cellStr || has_unit quote cellStr
  then Ok (str quote ++ cellStr ++ str quote)%string
  else Ok cellStr.

Definition format_rows (rows : list (list slot)) : outcome string :=
  lines <- map_array
             (fun row => cells <- map_array format_cell row ;;
                         Ok (String.concat "," cells))
             rows ;;
  Ok (String.concat (str newline) lines).

(** [exportToCSV(data, selectedColumns = null)]; [displayed] is what
    [this.columnManager.getSelectedColumns()] returns. *)
Definition exportToCSV (displayed : list string) (data : option TableData)
    (selectedColumns : option (list string)) : outcome string :=
  match data with
  | None => Ok ""
  | Some data =>
      let columns :=
        match selectedColumns with Some c => c | None => displayed end in
      let headers :=
        fold_left (fun headers col => headers ++ [ColumnManager.display col])
                  columns [Some (JStr "Category")] in
      let rows := [headers] in
      r <- for_each (properties data) (push_row displayed columns)
             (JStr "", rows) ;;
      format_rows (snd r)
  end.

End TableRenderer.

(** ** The specification's vocabulary

    The definitions of this module say, in the terms of the specification,
    what the theorems below prove of the code. *)
Module Spec.
Import JS SchemaProcessor.

(** [t] is a suffix of [s]. *)
Definition suffix_of (t s : string) : Prop := exists u, s = (u ++ t)%string.

(** The heuristic of external references: the identifier is a suffix of the
    reference, or the reference is a suffix of the identifier. *)
Definition matches (ref id : string) : Prop := suffix_of id ref \/ suffix_of ref id.

(** The value a path of keys reaches from [v], walking key by key; [None]
    when a key is missing on the way. *)
Fixpoint at_path (v : value) (path : list string) : slot :=
  match path with
  | [] => Some v
  | k :: rest =>
      match get v k with
      | Ok (Some v') => at_path v' rest
      | _ => None
      end
  end.

(** The MainSchema predicate: [type] is exactly [array] and [items] is
    truthy. *)
Definition qualifies (d : value) : Prop :=
  get d "type" = Ok (Some (JStr "array")) /\
  exists items, get d "items" = Ok (Some items) /\ truthy items = true.

(** [f] applied to every element in order; the first exception ends it. *)
Fixpoint map_outcome {A B : Type} (f : A -> outcome B) (l : list A) :
    outcome (list B) :=
  match l with
  | [] => Ok []
  | x :: rest => y <- f x ;; ys <- map_outcome f rest ;; Ok (y :: ys)
  end.

(** The row of one entry of [properties]. *)
Definition own_row (schema category : value) (entry : string * value) :
    outcome ExtractedProperty :=
  req <- get schema "required" ;;
  r <- required_includes req (fst entry) ;;
  Ok (Property category (fst entry) (snd entry) r).

(** Step 1 of the extractor: one row per entry of [properties], in key order. *)
Definition own_properties (schema category : value) :
    outcome (list ExtractedProperty) :=
  props <- get schema "properties" ;;
  if truthy_slot props then
    es <- entries (or_else props JNull) ;; map_outcome (own_row schema category) es
  else Ok [].

(** The entries of [allOf], none when it is absent. *)
Definition branches (schema : value) : outcome (list value) :=
  allOf <- get schema "allOf" ;;
  if truthy_slot allOf then iterate (or_else allOf JNull) else Ok [].

(** Step 2 for one entry of [allOf]: a reference is resolved against the node
    and extracted under its title, or skipped when it does not resolve; an
    inline sub-schema is extracted under the category of the caller. *)
Definition branch (depth : nat) (schemas : store) (schema category : value)
    (subSchema : value) : outcome (list ExtractedProperty) :=
  ref <- get subSchema "$ref" ;;
  if truthy_slot ref then
    resolved <- resolveRef schemas (or_else ref JNull) schema ;;
    if truthy resolved then
      t <- get resolved "title" ;;
      extractProperties depth schemas resolved (or_else t category)
    else Ok []
  else extractProperties depth schemas subSchema category.

(** Step 3: the direct properties, then the branches in order. *)
Definition extract (depth : nat) (schemas : store) (schema category : value) :
    outcome (list ExtractedProperty) :=
  own <- own_properties schema category ;;
  subs <- branches schema ;;
  rows <- map_outcome (branch depth schemas schema category) subs ;;
  Ok (own ++ List.concat rows).

(** A fragment contains a key. *)
Definition has_key (fragment : value) (k : string) : bool :=
  match keys fragment with
  | Ok ks => existsb (String.eqb k) ks
  | Exn _ => false
  end.

(** The number of properties whose own fragment contains the key. *)
Definition occurrences (k : string) (props : list ExtractedProperty) : nat :=
  List.length (filter (fun p => has_key (schema p) k) props).

(** The category a CSV row shows: that of the last row so far that has one,
    the empty string when none has. *)
Definition shown_category (so_far : list ExtractedProperty) : value :=
  match find (fun p => truthy (category p)) (rev so_far) with
  | Some p => category p
  | None => JStr ""
  end.

(** The rows of the CSV after the header, [seen] being the properties of the
    rows above. *)
Fixpoint csv_rows (displayed columns : list string)
    (seen props : list ExtractedProperty) : outcome (list (list slot)) :=
  match props with
  | [] => Ok []
  | p :: rest =>
      cells <- map_outcome (TableRenderer.cell displayed p) columns ;;
      rows <- csv_rows displayed columns (seen ++ [p]) rest ;;
      Ok ((Some (shown_category (seen ++ [p])) :: map Some cells) :: rows)
  end.

(** The key under which a file is stored: its [$id] when truthy, else its name. *)
Definition identifier (f : file) : value :=
  match get (document f) "$id" with
  | Ok id => if truthy_slot id then or_else id JNull else JStr (name f)
  | Exn _ => JStr (name f)
  end.

(** The MainSchema predicate, decided. *)
Definition qualifiesb (d : value) : bool :=
  match get d "type", get d "items" with
  | Ok (Some t), Ok items => strict_eq t (JStr "array") && truthy_slot items
  | _, _ => false
  end.

(** The store after loading the files. *)
Definition loaded (files : list file) (m : store) : store :=
  fold_left (fun m f => schemas_set m (identifier f) (document f)) files m.

(** The last document of the files that satisfies the predicate, [main] when
    none does. *)
Definition last_qualifying (files : list file) (main : value) : value :=
  fold_left (fun main f => if qualifiesb (document f) then document f else main)
            files main.

(** The fields after the only file [f] was loaded and chosen as main schema. *)
Definition loaded_alone (f : file) : Processor :=
  {| schemas := [(identifier f, document f)];
     mainSchema := document f;
     keywordUsage := [] |}.

(** The count recorded for a keyword, 0 when there is none. *)
Definition count (usage : list (string * nat)) (k : string) : nat :=
  match usage_get usage k with Some n => n | None => 0 end.

(** The rows of a table, none for [null]. *)
Definition rows_of (data : option TableData) : list ExtractedProperty :=
  match data with Some d => properties d | None => [] end.

(** Every recorded count is positive. *)
Definition positive (usage : list (string * nat)) : Prop :=
  forall k n, usage_get usage k = Some n -> 1 <= n.

(** The columns of an export: the selection passed, or that of the manager. *)
Definition columns_of (displayed : list string) (selected : option (list string)) :
    list string :=
  match selected with Some c => c | None => displayed end.

(** The header row. *)
Definition header (columns : list string) : list slot :=
  Some (JStr "Category") :: map ColumnManager.display columns.

(** The text contains the code unit. *)
Definition contains (c : ascii) (s : string) : Prop := In c (list_ascii_of_string s).

(** The text needs quoting: it contains a newline, a comma or a double quote. *)
Definition needs_quoting (s : string) : Prop :=
  contains newline s \/ contains ","%char s \/ contains quote s.

(** The text with every double quote written twice. *)
Definition doubled (s : string) : string :=
  string_of_list_ascii
    (flat_map (fun c => if Ascii.eqb c quote then [quote; quote] else [c])
              (list_ascii_of_string s)).

(** A cell as the export writes it. *)
Definition written (s : string) : string :=
  if existsb (fun c => Ascii.eqb c newline || Ascii.eqb c "," || Ascii.eqb c quote)
             (list_ascii_of_string s)
  then (str quote ++ doubled s ++ str quote)%string
  else s.

(** The value can be turned into text. *)
Definition printable (v : value) : Prop := exists s, toString v = Ok s.

(** The walk from [v] along [path] stays in the document: where a segment
    is no own member of the value reached, it names no member that the
    value inherits from the host either. *)
Fixpoint stays (v : value) (path : list string) : Prop :=
  match path with
  | [] => True
  | k :: rest =>
      match get v k, kind_of v with
      | Ok (Some w), _ => truthy w = true -> stays w rest
      | Ok None, Some c => inherits c k = false
      | _, _ => True
      end
  end.

(** Every member of the fragment can be turned into text. *)
Definition printable_members (schema : value) : Prop :=
  forall k v, get schema k = Ok (Some v) -> printable v.

(** A cell has a text. *)
Definition writable (c : slot) : Prop := exists s, text c = Ok s.

(** How deep arrays and objects nest in a value. *)
Fixpoint height (v : value) : nat :=
  match v with
  | JArr l => S (fold_right (fun x h => Nat.max (height x) h) 0 l)
  | JObj members => S (fold_right (fun kv h => Nat.max (height (snd kv)) h) 0 members)
  | _ => 0
  end.

(** A function of the host nests nothing of the document. *)
Definition place_height (p : place) : nat :=
  match p with
  | Document v => height v
  | Constructor _ => 0
  end.

(** The value is an array or an object. *)
Definition is_container (v : value) : Prop :=
  match v with JArr _ | JObj _ => True | _ => False end.

(** The identifier of a store entry is a string. *)
Definition string_key (e : value * value) : Prop := exists id, fst e = JStr id.

(** The test the store scan makes on an entry. *)
Definition probed (ref : string) (e : value * value) : bool :=
  match fst e with
  | JStr id => endsWith id ref || endsWith ref id
  | _ => false
  end.

(** The key of a member is an array index. *)
Definition is_index {V : Type} (e : string * V) : bool :=
  match array_index (fst e) with Some _ => true | None => false end.

(** Ascending order of index. *)
Definition by_index {V : Type} (a b : N * (string * V)) : Prop := (fst a <= fst b)%N.

(** *** Vocabulary of the further properties *)

(** The comparator of [getKeywordUsageStats]. *)
Definition by_count (a b : string * nat) : Z :=
  (Z.of_nat (snd b) - Z.of_nat (snd a))%Z.

(** An entry does not come before one of greater count. *)
Definition descending (a b : string * nat) : Prop := snd b <= snd a.

(** The keys of a [Map] after a sequence of [set]: each one where it was
    first inserted. *)
Definition first_occurrences (ks : list value) : list value :=
  fold_left
    (fun acc k => if existsb (fun k' => same_value_zero k' k) acc then acc else acc ++ [k])
    ks [].

(** The last file loaded under a key. *)
Definition last_loaded (files : list file) (k : value) : option file :=
  find (fun f => same_value_zero (identifier f) k) (rev files).

(** A list without its element at an index. *)
Definition remove_at {A : Type} (i : nat) (l : list A) : list A :=
  firstn i l ++ skipn (S i) l.

(** The value of [enum], where there is one, is an array. *)
Definition enum_listed (schema : value) : Prop :=
  forall e, get schema "enum" = Ok (Some e) -> exists l, e = JArr l.

(** A string without its white space. *)
Fixpoint unspaced (s : string) : string :=
  match s with
  | EmptyString => EmptyString
  | String c s' => if is_space c then unspaced s' else String c (unspaced s')
  end.

(** A string with its first code unit in upper case. *)
Definition capitalized (s : string) : string :=
  match s with
  | EmptyString => EmptyString
  | String c s' => String (upper c) s'
  end.

End Spec.

(** ** Documents used as examples *)
Module Examples.
Import JS SchemaProcessor.

(** [allOf] refers to a document whose title is the empty string. *)
Definition empty_title_doc : value :=
  JObj [("title", JStr ""); ("properties", JObj [("x", JObj [])])].

Definition empty_title : value :=
  JObj [("allOf", JArr [JObj [("$ref", JStr "#/d")]]); ("d", empty_title_doc)].

(** [allOf] refers to a titled document that refers to another titled one. *)
Definition inner_doc : value :=
  JObj [("title", JStr "B"); ("properties", JObj [("y", JObj [])])].

Definition outer_doc : value :=
  JObj [("title", JStr "A"); ("properties", JObj [("x", JObj [])]);
        ("allOf", JArr [JObj [("$ref", JStr "#/b")]]); ("b", inner_doc)].

Definition nested_titles : value :=
  JObj [("allOf", JArr [JObj [("$ref", JStr "#/a")]]); ("a", outer_doc)].

(** One branch refers to a document that is not loaded, the other is inline. *)
Definition dangling : value :=
  JObj [("allOf", JArr [JObj [("$ref", JStr "other.json#/defs")];
                        JObj [("properties", JObj [("z", JObj [])])]])].

(** Two files whose documents share one [$id]. *)
Definition same_id : list file :=
  [File "a.json" (JObj [("$id", JStr "x")]);
   File "b.json" (JObj [("$id", JStr "x"); ("title", JStr "second")])].

(** An array schema, then an array schema whose [items] is [false]. *)
Definition rows_doc : value :=
  JObj [("type", JStr "array");
        ("items", JObj [("properties", JObj [("id", JObj [])])])].

Definition no_items_doc : value :=
  JObj [("type", JStr "array"); ("items", JBool false)].

Definition falsy_items : list file :=
  [File "rows.json" rows_doc; File "none.json" no_items_doc].

(** Two array schemas and an object schema between them. *)
Definition three_files : list file :=
  [File "first.json" rows_doc;
   File "defs.json" (JObj [("$id", JStr "defs.json"); ("title", JStr "Defs")]);
   File "last.json" (JObj [("type", JStr "array"); ("items", JObj [])])].

(** Two files of which none is an array schema. *)
Definition no_array : list file :=
  [File "a.json" (JObj [("type", JStr "object")]);
   File "b.json" (JObj [("title", JStr "B")])].

(** A single document, not an array schema, one of whose properties has the
    fragment [null]. *)
Definition null_fragment : file :=
  File "a.json" (JObj [("items", JObj [("properties", JObj [("a", JNull)])])]).

(** A single document, not an array schema, that refers to itself. *)
Definition cyclic_doc : value :=
  JObj [("$id", JStr "x"); ("allOf", JArr [JObj [("$ref", JStr "x")]]);
        ("items", JObj [("$ref", JStr "x")])].

Definition cyclic : file := File "x.json" cyclic_doc.

(** A single document without [type]. *)
Definition untyped : file :=
  File "only.json"
    (JObj [("items", JObj [("properties",
                             JObj [("name", JObj [("type", JStr "string")])])])]).

(** A store of two documents whose identifiers both end a reference. *)
Definition two_schemas : list (value * value) :=
  [(JStr "https://example.org/person.json", JObj [("title", JStr "Person")]);
   (JStr "person.json", JObj [("title", JStr "Other")])].

(** A processor whose main schema has two properties. *)
Definition counted : Processor :=
  {| schemas := [];
     mainSchema :=
       JObj [("type", JStr "array");
             ("items",
              JObj [("properties",
                     JObj [("name", JObj [("type", JStr "string"); ("minLength", JNum 3);
                                          ("pattern", JStr "^a")]);
                           ("home", JObj [("type", JStr "object");
                                          ("properties", JObj [])])])])];
     keywordUsage := [] |}.

(** Three files, the first and the last under one [$id]. *)
Definition reloaded : list file :=
  [File "a.json" (JObj [("$id", JStr "s"); ("title", JStr "first")]);
   File "b.json" (JObj [("title", JStr "other")]);
   File "c.json" (JObj [("$id", JStr "s"); ("title", JStr "second")])].

(** A lone document that is [false]. *)
Definition lone_false : list file := [File "f.json" (JBool false)].

(** A list of people, the person being a schema of its own. *)
Definition people : list file :=
  [File "person.json"
     (JObj [("$id", JStr "person.json"); ("title", JStr "Person");
            ("properties", JObj [("name", JObj [("type", JStr "string")]);
                                 ("age", JObj [("type", JStr "integer");
                                               ("minimum", JNum 0)])]);
            ("required", JArr [JStr "name"])]);
   File "people.json"
     (JObj [("type", JStr "array"); ("title", JStr "People");
            ("items", JObj [("$ref", JStr "person.json")])])].

(** A schema that refers to one of its own definitions. *)
Definition with_definitions : value :=
  JObj [("definitions",
         JObj [("address",
                JObj [("title", JStr "Address");
                      ("properties", JObj [("street", JObj [("type", JStr "string")])])])]);
        ("properties", JObj [("name", JObj [("type", JStr "string")])]);
        ("allOf", JArr [JObj [("$ref", JStr "#/definitions/address")]])].

(** The default selection of columns. *)
Definition five : list (option string) :=
  [Some "name"; Some "description"; Some "type"; Some "enum"; Some "required"].

(** Table data of two rows. *)
Definition sheet : TableData :=
  {| title := JStr "People"; description := JStr "";
     properties :=
       [ Property JNull "name" (JObj [("type", JStr "string")]) true;
         Property (JStr "Address") "city"
           (JObj [("type", JStr "string"); ("enum", JArr [JStr "Oslo"; JStr "Rome"])])
           false ] |}.

(** Table data of one row whose [enum] is a string. *)
Definition bad_sheet : TableData :=
  {| title := JStr "People"; description := JStr "";
     properties := [ Property JNull "city" (JObj [("enum", JStr "Oslo")]) false ] |}.

(** The table data of [counted]. *)
Definition counted_data : TableData :=
  {| title := JStr "Dataset Schema"; description := JStr "";
     properties :=
       [ Property JNull "name"
           (JObj [("type", JStr "string"); ("minLength", JNum 3); ("pattern", JStr "^a")])
           false;
         Property JNull "home" (JObj [("type", JStr "object"); ("properties", JObj [])])
           false ] |}.

End Examples.

(** * Properties *)

Import JS SchemaProcessor TableRenderer Spec.

(** ** Strings *)
Section Strings.

Lemma startsWith_spec (s p : string) :
  startsWith s p = true <-> exists u, s = (p ++ u)%string.
Proof.
  revert s; induction p as [|c p IH]; intros s; simpl.
  - split; [intros _; now exists s | intros _; now destruct s].
  - destruct s as [|d s]; simpl.
    + split; [discriminate | intros [u H]; discriminate].
    + rewrite andb_true_iff, Ascii.eqb_eq, IH. split.
      * intros [-> [u ->]]. now exists u.
      * intros [u H]. inversion H. split; eauto.
Qed.

Lemma endsWith_spec (s t : string) : endsWith s t = true <-> Spec.suffix_of t s.
Proof.
  unfold Spec.suffix_of.
  induction s as [|c s IH]; cbn [endsWith].
  - rewrite orb_false_r, String.eqb_eq. split.
    + intros <-. now exists EmptyString.
    + intros [u H]. destruct u; simpl in H; [auto | discriminate].
  - rewrite orb_true_iff, String.eqb_eq, IH. split.
    + intros [<- | [u ->]]; [now exists EmptyString | now exists (String c u)].
    + intros [u H]. destruct u as [|d u]; simpl in H.
      * now left.
      * right. exists u. now inversion H.
Qed.

Lemma endsWith_refl (s : string) : endsWith s s = true.
Proof. destruct s; cbn [endsWith]; now rewrite String.eqb_refl. Qed.

Lemma split_nonempty (sep : ascii) (s : string) : split sep s <> [].
Proof.
  induction s as [|c s IH]; simpl; [discriminate|].
  destruct (Ascii.eqb c sep); [discriminate|].
  destruct (split sep s); discriminate.
Qed.

End Strings.

(** ** Loops *)
Section Loops.
Context {X S R : Type}.

Lemma for_each_app (xs ys : list X) (body : S -> X -> outcome S) (s : S) :
  for_each (xs ++ ys) body s = (s' <- for_each xs body s ;; for_each ys body s').
Proof.
  revert s; induction xs as [|x xs IH]; intros s; simpl; [reflexivity|].
  destruct (body s x); simpl; auto.
Qed.

End Loops.

(** ** Internal references *)

Lemma truthy_not_null (v : value) : truthy v = true -> v <> JNull.
Proof. intros H ->; discriminate. Qed.

Lemma get_not_null (v : value) (k : string) :
  v <> JNull -> exists r, get v k = Ok r.
Proof. destruct v; intros H; try contradiction; simpl; eauto. Qed.

Lemma inherits_constructor (c : kind) : inherits c "constructor" = true.
Proof. now destruct c. Qed.

Lemma access_own (v w : value) (k : string) :
  get v k = Ok (Some w) -> access (Document v) k = Ok (Some (Document w)).
Proof. intros H. unfold access. now rewrite H. Qed.

Lemma access_missing (v : value) (c : kind) (k : string) :
  get v k = Ok None -> kind_of v = Some c -> inherits c k = false ->
  access (Document v) k = Ok None.
Proof.
  intros Hget Hkind Hk. unfold access. rewrite Hget, Hkind. cbn [bind].
  destruct (k =? "constructor") eqn:E.
  - apply String.eqb_eq in E. subst. now rewrite inherits_constructor in Hk.
  - now rewrite Hk.
Qed.

Lemma for_of_descend_step (k : string) (path : list string) (p : place) :
  for_of (k :: path) descend p =
  match access p k with
  | Ok (Some q) => if truthy_place q then for_of path descend q else Ok (Return JNull)
  | Ok None => Ok (Return JNull)
  | Exn e => Exn e
  end.
Proof.
  cbn [for_of]. unfold descend at 1.
  destruct (access p k) as [[q|]|e]; cbn [bind]; auto.
  destruct (truthy_place q); auto.
Qed.

(** The loop over a path that stays in the document against the plain walk:
    it ends in [Next] when every prefix of the path reaches a truthy value,
    and returns [null] at the first prefix that does not. *)
Lemma descend_walk (path : list string) (v : value) :
  v <> JNull -> stays v path ->
  (exists r, for_of path descend (Document v) = Ok (Next (Document r)) /\
             Spec.at_path v path = Some r /\ r <> JNull /\
             forall n, n < List.length path ->
                       truthy_slot (Spec.at_path v (firstn (S n) path)) = true)
  \/
  (for_of path descend (Document v) = Ok (Return JNull) /\
   exists n, n < List.length path /\
             truthy_slot (Spec.at_path v (firstn (S n) path)) = false /\
             forall m, m < n ->
                       truthy_slot (Spec.at_path v (firstn (S m) path)) = true).
Proof.
  revert v; induction path as [|k path IH]; intros v Hv Hstays.
  - left. exists v. simpl. repeat split; auto. intros n Hn; inversion Hn.
  - destruct (get_not_null v k Hv) as [next Hget].
    rewrite for_of_descend_step. cbn [stays] in Hstays. rewrite Hget in Hstays.
    assert (Hfirst : forall n, Spec.at_path v (firstn (S n) (k :: path)) =
                               match next with
                               | Some w => Spec.at_path w (firstn n path)
                               | None => None
                               end).
    { intros n. simpl. now rewrite Hget. }
    destruct next as [w|].
    + rewrite (access_own v w k Hget). cbn [truthy_place].
      destruct (truthy w) eqn:Hw.
      * pose proof (truthy_not_null w Hw) as Hnn.
        destruct (IH w Hnn (Hstays eq_refl)) as [HA | HB].
        -- destruct HA as (r & H1 & H2 & H3 & H4).
           left. exists r. repeat split; auto.
           ++ simpl. now rewrite Hget.
           ++ intros [|n] Hn; rewrite Hfirst.
              ** exact Hw.
              ** apply H4. simpl in Hn. lia.
        -- destruct HB as (H1 & n & Hn & H2 & H3).
           right. split; auto. exists (S n). split; [simpl; lia|]. split.
           ++ now rewrite Hfirst.
           ++ intros [|m] Hm; rewrite Hfirst.
              ** exact Hw.
              ** apply H3. lia.
      * right. split; auto. exists 0. split; [simpl; lia|]. split.
        -- rewrite Hfirst. exact Hw.
        -- intros m Hm; inversion Hm.
    + destruct (kind_of v) as [c|] eqn:Hkind; [|now destruct v].
      rewrite (access_missing v c k Hget Hkind Hstays).
      right. split; auto. exists 0. split; [simpl; lia|]. split.
      * now rewrite Hfirst.
      * intros m Hm; inversion Hm.
Qed.

Lemma probed_matches (ref id : string) (doc : value) :
  probed ref (JStr id, doc) = true <-> Spec.matches ref id.
Proof.
  unfold probed, Spec.matches; simpl.
  rewrite orb_true_iff, !endsWith_spec. tauto.
Qed.

Lemma probe_scan (ref : string) (schemas : store) :
  Forall string_key schemas ->
  for_of schemas (probe ref) tt =
  Ok (match find (probed ref) schemas with
      | Some e => Return (snd e)
      | None => Next tt
      end).
Proof.
  induction 1 as [|e rest [id Hid] _ IH]; simpl; [reflexivity|].
  unfold probe at 1, probed at 1. rewrite Hid.
  destruct (endsWith id ref || endsWith ref id); auto.
Qed.

Lemma find_first {A : Type} (f : A -> bool) (before after : list A) (x : A) :
  f x = true -> (forall y, In y before -> f y = false) ->
  find f (before ++ x :: after) = Some x.
Proof.
  intros Hx; induction before as [|y before IH]; intros Hb; simpl.
  - now rewrite Hx.
  - rewrite (Hb y (or_introl eq_refl)). apply IH. intros z Hz. apply Hb. now right.
Qed.

Lemma find_none {A : Type} (f : A -> bool) (l : list A) :
  (forall y, In y l -> f y = false) -> find f l = None.
Proof.
  induction l as [|y l IH]; intros Hl; simpl; [reflexivity|].
  rewrite (Hl y (or_introl eq_refl)). apply IH. intros z Hz. apply Hl. now right.
Qed.

Lemma resolveRef_external_eq (schemas : store) (ref : string) (base : value) :
  startsWith ref "#" = false -> Forall string_key schemas ->
  resolveRef schemas (JStr ref) base =
  Ok (match find (probed ref) schemas with
      | Some e => snd e
      | None => or_else (schemas_get schemas (JStr ref)) JNull
      end).
Proof.
  intros Hext Hkeys. unfold resolveRef. rewrite Hext, (probe_scan ref schemas Hkeys).
  simpl. now destruct (find (probed ref) schemas).
Qed.

Lemma resolveRef_internal_eq (schemas : store) (ref : string) (base : value) :
  startsWith ref "#" = true ->
  resolveRef schemas (JStr ref) base =
  (r <- for_of (split "/" (substring 2 ref)) descend (Document base) ;;
   match r with
   | Return v => Ok v
   | Next (Document current) => Ok current
   | Next (Constructor _) => Exn Host
   end).
Proof. intros H. unfold resolveRef. now rewrite H. Qed.

(** C4, as amended.  For a reference that starts with [#] and a base other
    than [null], [resolveRef] walks the base along the keys that the text
    after the first two code units (after [#/]) lists between slashes.  When
    the walk stays in the document, no segment that is missing from the
    value reached being the name of a member that the value inherits from
    the host, it returns [null] when some prefix of the path reaches a
    missing or falsy value, and the value at the end of the path
    otherwise. *)
Theorem resolveRef_internal (schemas : store) (ref : string) (base : value) :
  startsWith ref "#" = true -> base <> JNull ->
  stays base (split "/" (substring 2 ref)) ->
  (forall rest, ref = ("#/" ++ rest)%string -> substring 2 ref = rest) /\
  exists r,
    resolveRef schemas (JStr ref) base = Ok r /\
    ((exists n, n < List.length (split "/" (substring 2 ref)) /\
                truthy_slot (Spec.at_path base
                               (firstn (S n) (split "/" (substring 2 ref)))) = false) ->
     r = JNull) /\
    ((forall n, n < List.length (split "/" (substring 2 ref)) ->
                truthy_slot (Spec.at_path base
                               (firstn (S n) (split "/" (substring 2 ref)))) = true) ->
     Spec.at_path base (split "/" (substring 2 ref)) = Some r).
Proof.
  intros Hint Hbase Hplain. split; [now intros rest ->|].
  rewrite (resolveRef_internal_eq schemas ref base Hint).
  destruct (descend_walk (split "/" (substring 2 ref)) base Hbase Hplain)
    as [(r & Hloop & Hat & _ & Hall) | (Hloop & n & Hn & Hfalse & _)];
    rewrite Hloop; cbn [bind].
  - exists r. split; [reflexivity|]. split; [|now intros _].
    intros (n & Hn & Hfalse). rewrite (Hall n Hn) in Hfalse. discriminate.
  - exists JNull. split; [reflexivity|]. split; [reflexivity|].
    intros Hall. rewrite (Hall n Hn) in Hfalse. discriminate.
Qed.

(** C4, as amended, at the reference of Scenario B. *)
Lemma resolveRef_internal_witness :
  exists r,
    resolveRef [] (JStr "#/$defs/Row")
      (JObj [("$defs", JObj [("Row", JObj [("properties", JObj [])])])]) = Ok r /\
    Spec.at_path (JObj [("$defs", JObj [("Row", JObj [("properties", JObj [])])])])
      ["$defs"; "Row"] = Some r.
Proof.
  destruct (resolveRef_internal [] "#/$defs/Row"
              (JObj [("$defs", JObj [("Row", JObj [("properties", JObj [])])])])
              eq_refl ltac:(discriminate) ltac:(cbn; auto))
    as [_ [r [Hr [_ Hat]]]].
  exists r. split; [exact Hr|]. apply Hat.
  intros [|[|n]] Hn; [reflexivity | reflexivity | simpl in Hn; lia].
Defined.

(** C4 fails as stated: the empty object has no member [constructor], yet
    the walk finds the one it inherits, the function [Object] of the host,
    and returns the name of that function. *)
Lemma inherited_member_is_found :
  Spec.at_path (JObj []) ["constructor"] = None /\
  resolveRef [] (JStr "#/constructor/name") (JObj []) = Ok (JStr "Object") /\
  ~ stays (JObj []) ["constructor"; "name"].
Proof. split; [|split]; [reflexivity | reflexivity | discriminate]. Qed.

(** C5.  For a reference that does not start with [#], over a store whose
    identifiers are strings: [resolveRef] returns the document of the first
    entry, in insertion order, whose identifier is a suffix of the reference
    or has the reference as a suffix; when no entry matches it returns the
    exact lookup of the reference in the store, or [null]. *)
Theorem resolveRef_external (schemas : store) (ref : string) (base : value) :
  startsWith ref "#" = false -> Forall string_key schemas ->
  (forall before id doc after,
     schemas = before ++ (JStr id, doc) :: after ->
     Spec.matches ref id ->
     (forall id' doc', In (JStr id', doc') before -> ~ Spec.matches ref id') ->
     resolveRef schemas (JStr ref) base = Ok doc) /\
  ((forall id doc, In (JStr id, doc) schemas -> ~ Spec.matches ref id) ->
   resolveRef schemas (JStr ref) base =
   Ok (or_else (schemas_get schemas (JStr ref)) JNull)).
Proof.
  intros Hext Hkeys. rewrite (resolveRef_external_eq schemas ref base Hext Hkeys).
  assert (Hno : forall l, Forall string_key l ->
            (forall id doc, In (JStr id, doc) l -> ~ Spec.matches ref id) ->
            forall e, In e l -> probed ref e = false).
  { intros l Hl Hnone [k doc] Hin.
    rewrite Forall_forall in Hl. destruct (Hl _ Hin) as [id Hid]. simpl in Hid. subst k.
    destruct (probed ref (JStr id, doc)) eqn:Hp; [|reflexivity].
    apply probed_matches in Hp. now apply Hnone in Hin. }
  split.
  - intros before id doc after -> Hm Hbefore.
    rewrite (find_first (probed ref) before after (JStr id, doc)); [reflexivity| |].
    + now apply probed_matches.
    + apply Hno; [|exact Hbefore].
      apply Forall_app in Hkeys. tauto.
  - intros Hnone. now rewrite (find_none (probed ref) schemas (Hno schemas Hkeys Hnone)).
Qed.

(** C5 on a store of two documents: a match by suffix, and no match. *)
Lemma resolveRef_external_witness :
  resolveRef Examples.two_schemas (JStr "person.json") (JObj []) =
    Ok (JObj [("title", JStr "Person")]) /\
  resolveRef Examples.two_schemas (JStr "address.json") (JObj []) = Ok JNull.
Proof.
  assert (Hkeys : Forall string_key Examples.two_schemas).
  { repeat constructor; eexists; reflexivity. }
  split.
  - apply (proj1 (resolveRef_external Examples.two_schemas "person.json" (JObj [])
                    eq_refl Hkeys)
             [] "https://example.org/person.json" (JObj [("title", JStr "Person")])
             [(JStr "person.json", JObj [("title", JStr "Other")])] eq_refl).
    + right. now exists "https://example.org/".
    + intros id' doc' [].
  - apply (proj2 (resolveRef_external Examples.two_schemas "address.json" (JObj [])
                    eq_refl Hkeys)).
    intros id doc Hin Hm. apply (probed_matches "address.json" id doc) in Hm.
    destruct Hin as [H|[H|[]]]; inversion H; subst; discriminate.
Defined.

(** C10, as amended.  [resolveRef] returns a value and throws nothing when,
    for an internal reference, the base is not [null] and the walk stays in
    the document and, for an external reference, every identifier of the
    store is a string. *)
Theorem resolveRef_returns (schemas : store) (ref : string) (base : value) :
  (startsWith ref "#" = true ->
   base <> JNull /\ stays base (split "/" (substring 2 ref))) ->
  (startsWith ref "#" = false -> Forall string_key schemas) ->
  exists v, resolveRef schemas (JStr ref) base = Ok v.
Proof.
  intros Hint Hext. destruct (startsWith ref "#") eqn:Hs.
  - rewrite (resolveRef_internal_eq schemas ref base Hs).
    destruct (Hint eq_refl) as [Hbase Hplain].
    destruct (descend_walk (split "/" (substring 2 ref)) base Hbase Hplain)
      as [(r & Hloop & _) | (Hloop & _)]; rewrite Hloop; simpl; eauto.
  - rewrite (resolveRef_external_eq schemas ref base Hs (Hext eq_refl)). eauto.
Qed.

(** C10, as amended, at an internal and at an external reference. *)
Lemma resolveRef_returns_witness :
  (exists v, resolveRef [] (JStr "#/items/missing") (JObj [("items", JObj [])]) = Ok v) /\
  (exists v, resolveRef [(JStr "defs.json", JObj [])] (JStr "defs.json#/a") (JObj [])
             = Ok v).
Proof.
  split; apply resolveRef_returns.
  - intros _. split; [discriminate | cbn; auto].
  - discriminate.
  - discriminate.
  - intros _. repeat constructor. now exists "defs.json".
Defined.

(** C10 fails as stated: an internal reference against the base [null]
    throws on the first key, and an external reference throws on a store
    identifier that is a number. *)
Lemma resolveRef_throws :
  resolveRef [] (JStr "#/a") JNull = Exn TypeError /\
  resolveRef [(JNum 5, JObj [("$id", JNum 5)])] (JStr "other.json") (JObj []) = Exn TypeError.
Proof. split; reflexivity. Qed.

(** ** Extraction *)

Lemma for_each_push {X Y : Type} (f : X -> outcome (list Y)) (xs : list X) (acc : list Y) :
  for_each xs (fun result x => ys <- f x ;; Ok (result ++ ys)) acc =
  (rows <- Spec.map_outcome f xs ;; Ok (acc ++ List.concat rows)).
Proof.
  revert acc; induction xs as [|x xs IH]; intros acc; simpl.
  - now rewrite app_nil_r.
  - destruct (f x) as [ys|e]; simpl; [|reflexivity].
    rewrite IH. destruct (Spec.map_outcome f xs); simpl; [|reflexivity].
    now rewrite app_assoc.
Qed.

Lemma for_each_ext {X S : Type} (f g : S -> X -> outcome S) (xs : list X) (s : S) :
  (forall s x, f s x = g s x) -> for_each xs f s = for_each xs g s.
Proof.
  intros H; revert s; induction xs as [|x xs IH]; intros s; simpl; [reflexivity|].
  rewrite H. destruct (g s x); simpl; auto.
Qed.

Lemma map_outcome_singletons {X Y : Type} (f : X -> outcome Y) (xs : list X) :
  (rows <- Spec.map_outcome (fun x => y <- f x ;; Ok [y]) xs ;; Ok (List.concat rows)) =
  Spec.map_outcome f xs.
Proof.
  induction xs as [|x xs IH]; simpl; [reflexivity|].
  destruct (f x) as [y|e]; simpl; [|reflexivity].
  rewrite <- IH. destruct (Spec.map_outcome _ xs); reflexivity.
Qed.

Lemma push_property_rows (schema category : value) (es : list (string * value)) :
  for_each es (push_property schema category) [] =
  Spec.map_outcome (Spec.own_row schema category) es.
Proof.
  rewrite <- map_outcome_singletons.
  rewrite (for_each_ext _ (fun result e => ys <- (y <- Spec.own_row schema category e ;; Ok [y]) ;;
                                           Ok (result ++ ys))).
  - rewrite for_each_push. reflexivity.
  - intros s [name propSchema]. unfold push_property, Spec.own_row. simpl.
    destruct (get schema "required"); simpl; [|reflexivity].
    destruct (required_includes _ name); reflexivity.
Qed.

(** The body of the loop over [allOf] is [Spec.branch] followed by a push. *)
Lemma extractProperties_unfold (depth : nat) (schemas : store) (schema category : value) :
  extractProperties (S depth) schemas schema category =
  Spec.extract depth schemas schema category.
Proof.
  unfold Spec.extract, Spec.own_properties, Spec.branches.
  cbn [extractProperties].
  destruct (get schema "properties") as [props|e]; cbn [bind]; [|reflexivity].
  assert (Hloop : forall own : list ExtractedProperty,
    (allOf <- get schema "allOf" ;;
     if truthy_slot allOf then
       subs <- iterate (or_else allOf JNull) ;;
       for_each subs
         (fun result subSchema =>
            ref <- get subSchema "$ref" ;;
            if truthy_slot ref then
              resolved <- resolveRef schemas (or_else ref JNull) schema ;;
              if truthy resolved then
                t <- get resolved "title" ;;
                sub <- extractProperties depth schemas resolved (or_else t category) ;;
                Ok (result ++ sub)
              else Ok result
            else
              sub <- extractProperties depth schemas subSchema category ;;
              Ok (result ++ sub)) own
     else Ok own) =
    (subs <- (allOf <- get schema "allOf" ;;
              if truthy_slot allOf then iterate (or_else allOf JNull) else Ok []) ;;
     rows <- Spec.map_outcome (Spec.branch depth schemas schema category) subs ;;
     Ok (own ++ List.concat rows))).
  { intros own. destruct (get schema "allOf") as [allOf|e]; cbn [bind]; [|reflexivity].
    destruct (truthy_slot allOf); [|simpl; now rewrite app_nil_r].
    destruct (iterate (or_else allOf JNull)) as [subs|e]; cbn [bind]; [|reflexivity].
    rewrite <- for_each_push. apply for_each_ext.
    intros result sub. unfold Spec.branch.
    destruct (get sub "$ref") as [ref|e]; cbn [bind]; [|reflexivity].
    destruct (truthy_slot ref); [|reflexivity].
    destruct (resolveRef schemas (or_else ref JNull) schema) as [resolved|e];
      cbn [bind]; [|reflexivity].
    destruct (truthy resolved); [|simpl; now rewrite app_nil_r].
    destruct (get resolved "title"); reflexivity. }
  destruct (truthy_slot props).
  - destruct (entries (or_else props JNull)) as [es|e]; cbn [bind]; [|reflexivity].
    rewrite push_property_rows.
    destruct (Spec.map_outcome (Spec.own_row schema category) es) as [own|e];
      cbn [bind]; [|reflexivity].
    apply Hloop.
  - cbn [bind]. apply Hloop.
Qed.

Lemma strict_eq_string (x : value) (s : string) :
  strict_eq x (JStr s) = true <-> x = JStr s.
Proof.
  destruct x; simpl; try (split; intros H; discriminate).
  rewrite String.eqb_eq. split; [now intros -> | now inversion 1].
Qed.

Lemma array_includes (l : list value) (name : string) :
  existsb (fun x => strict_eq x (JStr name)) l = true <-> In (JStr name) l.
Proof.
  rewrite existsb_exists. split.
  - intros [x [Hin Hx]]. apply strict_eq_string in Hx. now subst.
  - intros Hin. exists (JStr name). split; [exact Hin|]. now apply strict_eq_string.
Qed.

Lemma map_outcome_length {X Y : Type} (f : X -> outcome Y) (xs : list X) (ys : list Y) :
  Spec.map_outcome f xs = Ok ys -> List.length ys = List.length xs.
Proof.
  revert ys; induction xs as [|x xs IH]; intros ys; simpl.
  - now inversion 1.
  - destruct (f x); simpl; [|discriminate].
    destruct (Spec.map_outcome f xs) as [zs|]; simpl; [|discriminate].
    inversion 1; subst. simpl. now rewrite (IH zs eq_refl).
Qed.

Lemma map_outcome_In {X Y : Type} (f : X -> outcome Y) (xs : list X) (ys : list Y) (x : X) :
  Spec.map_outcome f xs = Ok ys -> In x xs -> exists y, f x = Ok y /\ In y ys.
Proof.
  revert ys; induction xs as [|x' xs IH]; intros ys; simpl; [intros _ []|].
  destruct (f x') as [y'|] eqn:Hf; simpl; [|discriminate].
  destruct (Spec.map_outcome f xs) as [zs|]; simpl; [|discriminate].
  inversion 1; subst. intros [->|Hin].
  - exists y'. split; [exact Hf | now left].
  - destruct (IH zs eq_refl Hin) as [y [Hy Hyin]]. exists y. split; [exact Hy | now right].
Qed.

Lemma map_outcome_Forall {X Y : Type} (f : X -> outcome Y) (P : Y -> Prop)
    (xs : list X) (ys : list Y) :
  (forall x y, f x = Ok y -> P y) -> Spec.map_outcome f xs = Ok ys -> Forall P ys.
Proof.
  intros Hf; revert ys; induction xs as [|x xs IH]; intros ys; simpl.
  - inversion 1; constructor.
  - destruct (f x) as [y|] eqn:Hy; simpl; [|discriminate].
    destruct (Spec.map_outcome f xs) as [zs|]; simpl; [|discriminate].
    inversion 1; subst. constructor; eauto.
Qed.

Lemma own_row_category (schema c : value) (e : string * value) (p : ExtractedProperty) :
  Spec.own_row schema c e = Ok p ->
  category p = c /\ prop_name p = fst e /\ SchemaProcessor.schema p = snd e.
Proof.
  unfold Spec.own_row. destruct (get schema "required"); simpl; [|discriminate].
  destruct (required_includes _ _); simpl; [|discriminate].
  inversion 1; subst; simpl; auto.
Qed.

Lemma own_properties_category (schema c : value) (own : list ExtractedProperty) :
  Spec.own_properties schema c = Ok own -> Forall (fun p => category p = c) own.
Proof.
  unfold Spec.own_properties. destruct (get schema "properties"); simpl; [|discriminate].
  destruct (truthy_slot _).
  - destruct (entries _); simpl; [|discriminate].
    apply map_outcome_Forall. intros x y Hy. now apply own_row_category in Hy.
  - inversion 1; constructor.
Qed.

(** The rows of a node: its own ones first, then those of its branches. *)
Lemma extract_rows (depth : nat) (schemas : store) (schema c : value)
    (rows : list ExtractedProperty) :
  extractProperties (S depth) schemas schema c = Ok rows ->
  exists own subs nested,
    Spec.own_properties schema c = Ok own /\
    Spec.branches schema = Ok subs /\
    Spec.map_outcome (Spec.branch depth schemas schema c) subs = Ok nested /\
    rows = own ++ List.concat nested.
Proof.
  rewrite extractProperties_unfold. unfold Spec.extract.
  destruct (Spec.own_properties schema c) as [own|] eqn:Ho; simpl; [|discriminate].
  destruct (Spec.branches schema) as [subs|] eqn:Hs; simpl; [|discriminate].
  destruct (Spec.map_outcome _ subs) as [nested|] eqn:Hn; simpl; [|discriminate].
  inversion 1; subst. exists own, subs, nested. repeat split; auto.
Qed.

Lemma map_outcome_stable {X Y : Type} (f g : X -> outcome Y) (xs : list X) :
  (forall x, f x <> Exn RangeError -> g x = f x) ->
  Spec.map_outcome f xs <> Exn RangeError ->
  Spec.map_outcome g xs = Spec.map_outcome f xs.
Proof.
  intros Hfg; induction xs as [|x xs IH]; simpl; [reflexivity|].
  destruct (f x) as [y|e] eqn:Hf; simpl.
  - rewrite (Hfg x) by (rewrite Hf; discriminate). rewrite Hf. simpl.
    intros Hne. rewrite IH; [reflexivity|].
    intros Hr. apply Hne. now rewrite Hr.
  - intros Hne. rewrite (Hfg x), Hf; [reflexivity|].
    rewrite Hf. intros He. apply Hne. now inversion He.
Qed.

(** An outcome other than stack exhaustion does not depend on the stack
    left: a deeper stack gives the same rows, or the same exception. *)
Lemma extractProperties_deeper (stack : nat) (schemas : store) (schema c : value) :
  extractProperties stack schemas schema c <> Exn RangeError ->
  extractProperties (S stack) schemas schema c = extractProperties stack schemas schema c.
Proof.
  revert schema c; induction stack as [|depth IH]; intros schema c Hne.
  - now contradiction Hne.
  - rewrite (extractProperties_unfold (S depth)).
    rewrite (extractProperties_unfold depth) in Hne |- *.
    unfold Spec.extract in *.
    destruct (Spec.own_properties schema c) as [own|]; simpl in *; [|reflexivity].
    destruct (Spec.branches schema) as [subs|]; simpl in *; [|reflexivity].
    rewrite (map_outcome_stable (Spec.branch depth schemas schema c)
               (Spec.branch (S depth) schemas schema c)); [reflexivity| |].
    + intros sub. unfold Spec.branch.
      destruct (get sub "$ref") as [ref|]; simpl; [|reflexivity].
      destruct (truthy_slot ref).
      * destruct (resolveRef schemas (or_else ref JNull) schema) as [resolved|];
          simpl; [|reflexivity].
        destruct (truthy resolved); [|reflexivity].
        destruct (get resolved "title"); simpl; [|reflexivity]. apply IH.
      * apply IH.
    + intros Hr. apply Hne. now rewrite Hr.
Qed.

(** X8.  A stack that is not exhausted is deep enough: with a deeper one
    [extractProperties] gives the same result. *)
Lemma extractProperties_stack (stack more : nat) (schemas : store) (schema c : value) :
  extractProperties stack schemas schema c <> Exn RangeError ->
  extractProperties (stack + more) schemas schema c =
  extractProperties stack schemas schema c.
Proof.
  intros Hne. induction more as [|more IH].
  - now rewrite Nat.add_0_r.
  - rewrite Nat.add_succ_r, extractProperties_deeper; [exact IH|].
    now rewrite IH.
Qed.

(** ** Termination *)
Section Termination.

Lemma height_element (l : list value) (x : value) :
  In x l -> height x < height (JArr l).
Proof.
  cbn [height]. induction l as [|y l IH]; intros []; cbn [fold_right].
  - subst. lia.
  - specialize (IH H). lia.
Qed.

Lemma height_member (members : list (string * value)) (k : string) (w : value) :
  member k members = Some w -> height w < height (JObj members).
Proof.
  cbn [height]. induction members as [|[k' v] members IH]; cbn [member fold_right snd];
    [discriminate|].
  destruct (k' =? k).
  - inversion 1; subst. lia.
  - intros H. specialize (IH H). lia.
Qed.

Lemma height_units (s : string) (x : value) : In x (units s) -> height x = 0.
Proof.
  induction s as [|c s IH]; simpl; [intros []|].
  intros [<-|H]; [reflexivity | now apply IH].
Qed.

Lemma element_In (l : list value) (k : string) (w : value) :
  element l k = Some w -> height w = 0 \/ In w l.
Proof.
  unfold element. destruct (k =? "length").
  - inversion 1. now left.
  - destruct (array_index k) as [i|]; [|discriminate].
    destruct (i <? N.of_nat (List.length l))%N; [|discriminate].
    intros H. right. eapply nth_error_In. exact H.
Qed.

Lemma height_get (v : value) (k : string) (w : value) :
  get v k = Ok (Some w) ->
  height w <= height v /\ (is_container v -> height w < height v).
Proof.
  destruct v as [| b | z | s | l | members]; simpl; try discriminate.
  - intros H. inversion H as [He]. apply element_In in He.
    assert (Hw : height w = 0).
    { destruct He as [He|He]; [exact He | now apply height_units in He]. }
    rewrite Hw. split; [lia | intros []].
  - intros H. inversion H as [He]. apply element_In in He.
    assert (Hw : height w < height (JArr l)).
    { destruct He as [He|He]; [cbn [height]; lia | now apply height_element]. }
    cbn [height] in Hw. split; [lia | intros _; lia].
  - intros H. inversion H as [He]. apply height_member in He. cbn [height] in He.
    split; [lia | intros _; lia].
Qed.

Lemma height_access (p q : place) (k : string) :
  access p k = Ok (Some q) ->
  place_height q <= place_height p /\
  (forall v, p = Document v -> is_container v -> place_height q < place_height p).
Proof.
  destruct p as [v|c]; cbn [access].
  - destruct (get v k) as [[w|]|e] eqn:Hget; cbn [bind]; try discriminate.
    + inversion 1; subst. cbn [place_height]. apply height_get in Hget.
      split; [tauto|]. intros v' E Hc. inversion E; subst. now apply Hget.
    + destruct (kind_of v) as [c|]; [|discriminate].
      destruct (k =? "constructor"); [|destruct (inherits c k); discriminate].
      inversion 1; subst. cbn [place_height]. split; [lia|].
      intros v' E Hc. inversion E; subst. destruct v'; try contradiction;
        cbn [height]; lia.
  - destruct (k =? "name"); [|discriminate]. inversion 1; subst.
    cbn [place_height height]. split; [lia|]. discriminate.
Qed.

Lemma height_descend (path : list string) (p r : place) :
  for_of path descend p = Ok (Next r) -> place_height r <= place_height p.
Proof.
  revert p; induction path as [|k path IH]; intros p.
  - simpl. inversion 1. lia.
  - rewrite for_of_descend_step.
    destruct (access p k) as [[q|]|] eqn:Hacc; try discriminate.
    destruct (truthy_place q); [|discriminate].
    intros H. apply IH in H. apply height_access in Hacc. lia.
Qed.

Lemma descend_returns_null (path : list string) (p : place) (r : value) :
  for_of path descend p = Ok (Return r) -> r = JNull.
Proof.
  revert p; induction path as [|k path IH]; intros p; [discriminate|].
  rewrite for_of_descend_step.
  destruct (access p k) as [[q|]|]; try discriminate.
  - destruct (truthy_place q); [apply IH | now inversion 1].
  - now inversion 1.
Qed.

Lemma height_resolved (ref schema resolved : value) :
  is_container schema ->
  resolveRef [] ref schema = Ok resolved -> truthy resolved = true ->
  height resolved < height schema.
Proof.
  intros Hc. unfold resolveRef. destruct ref as [| | | ref | |]; try discriminate.
  destruct (startsWith ref "#").
  - destruct (split "/" (substring 2 ref)) as [|k path] eqn:Hpath.
    + now apply split_nonempty in Hpath.
    + rewrite for_of_descend_step.
      destruct (access (Document schema) k) as [[q|]|] eqn:Hacc; cbn [bind];
        try discriminate.
      * destruct (truthy_place q).
        -- destruct (for_of path descend q) as [[[r|c]|r]|] eqn:Hloop; cbn [bind];
             try discriminate.
           ++ inversion 1; subst. intros _.
              apply height_descend in Hloop. apply height_access in Hacc.
              destruct Hacc as [_ Hlt]. specialize (Hlt schema eq_refl Hc).
              cbn [place_height] in *. lia.
           ++ inversion 1; subst. intros Ht.
              apply descend_returns_null in Hloop. subst. discriminate.
        -- inversion 1; subst. discriminate.
      * inversion 1; subst. discriminate.
  - simpl. inversion 1; subst. discriminate.
Qed.

Lemma branches_smaller (schema sub : value) (subs : list value) :
  branches schema = Ok subs -> In sub subs ->
  is_container schema /\ height sub < height schema.
Proof.
  unfold branches. destruct (get schema "allOf") as [[allOf|]|] eqn:Hget; simpl;
    try discriminate; [|inversion 1; intros []].
  destruct (truthy allOf) eqn:Ht; [|inversion 1; intros []].
  assert (Hc : is_container schema).
  { destruct schema; simpl in *; try discriminate; exact I. }
  apply height_get in Hget. destruct Hget as [_ Hlt]. specialize (Hlt Hc).
  destruct allOf as [| | | s | l |]; simpl; try discriminate; inversion 1; subst.
  - intros Hin. apply height_units in Hin. split; [exact Hc | lia].
  - intros Hin. apply height_element in Hin. split; [exact Hc | lia].
Qed.

Lemma bind_no_overflow {A B : Type} (c : outcome A) (k : A -> outcome B) :
  c <> Exn RangeError -> (forall a, k a <> Exn RangeError) ->
  (a <- c ;; k a) <> Exn RangeError.
Proof.
  intros Hc Hk. destruct c as [a|e]; simpl; [apply Hk|].
  intros H. apply Hc. now inversion H.
Qed.

Lemma get_no_overflow (v : value) (k : string) : get v k <> Exn RangeError.
Proof. destruct v; discriminate. Qed.

Lemma entries_no_overflow (v : value) : entries v <> Exn RangeError.
Proof. destruct v; discriminate. Qed.

Lemma iterate_no_overflow (v : value) : iterate v <> Exn RangeError.
Proof. destruct v; discriminate. Qed.

Lemma required_includes_no_overflow (r : slot) (name : string) :
  required_includes r name <> Exn RangeError.
Proof. destruct r as [[| | | | |]|]; discriminate. Qed.

Lemma map_outcome_no_overflow {X Y : Type} (f : X -> outcome Y) (xs : list X) :
  (forall x, In x xs -> f x <> Exn RangeError) ->
  map_outcome f xs <> Exn RangeError.
Proof.
  induction xs as [|x xs IH]; intros Hf; simpl; [discriminate|].
  apply bind_no_overflow; [apply Hf; now left|]. intros y.
  apply bind_no_overflow; [apply IH; intros z Hz; apply Hf; now right|].
  discriminate.
Qed.

Lemma resolveRef_no_overflow (schemas : store) (ref base : value) :
  resolveRef schemas ref base <> Exn RangeError.
Proof.
  assert (Hloop : forall (X S R : Type) (xs : list X) (body : S -> X -> outcome (step S R)) s,
            (forall s x, body s x <> Exn RangeError) ->
            for_of xs body s <> Exn RangeError).
  { intros X S R xs body s Hb. revert s; induction xs as [|x xs IH]; intros s; simpl;
      [discriminate|].
    specialize (Hb s x). destruct (body s x) as [[s'|r]|e]; [apply IH | discriminate|].
    intros H. apply Hb. now inversion H. }
  unfold resolveRef. destruct ref; try discriminate.
  destruct (startsWith s "#"); apply bind_no_overflow.
  - apply Hloop. intros cur seg. unfold descend.
    apply bind_no_overflow.
    + destruct cur as [v|c]; cbn [access].
      * apply bind_no_overflow; [apply get_no_overflow|].
        intros [w|]; [discriminate|].
        destruct (kind_of v) as [c|]; [|discriminate].
        destruct (seg =? "constructor"); [discriminate|].
        destruct (inherits c seg); discriminate.
      * destruct (seg =? "name"); discriminate.
    + intros [q|]; [destruct (truthy_place q)|]; discriminate.
  - intros [[?|?]|?]; discriminate.
  - apply Hloop. intros [] [k d]. unfold probe. simpl.
    destruct k; try discriminate. destruct (_ || _); discriminate.
  - intros [?|?]; discriminate.
Qed.

Lemma own_properties_no_overflow (schema c : value) :
  own_properties schema c <> Exn RangeError.
Proof.
  unfold own_properties. apply bind_no_overflow; [apply get_no_overflow|].
  intros props. destruct (truthy_slot props); [|discriminate].
  apply bind_no_overflow; [apply entries_no_overflow|].
  intros es. apply map_outcome_no_overflow. intros e _. unfold own_row.
  apply bind_no_overflow; [apply get_no_overflow|]. intros req.
  apply bind_no_overflow; [apply required_includes_no_overflow|]. discriminate.
Qed.

Lemma branches_no_overflow (schema : value) : branches schema <> Exn RangeError.
Proof.
  unfold branches. apply bind_no_overflow; [apply get_no_overflow|].
  intros allOf. destruct (truthy_slot allOf); [apply iterate_no_overflow | discriminate].
Qed.

(** Against the empty store a reference that resolves to a value of the
    document leads into the node itself. *)
Lemma extractProperties_no_overflow (stack : nat) (schema c : value) :
  height schema < stack ->
  extractProperties stack [] schema c <> Exn RangeError.
Proof.
  revert schema c; induction stack as [|depth IH]; intros schema c Hh; [lia|].
  rewrite extractProperties_unfold. unfold extract.
  apply bind_no_overflow; [apply own_properties_no_overflow|]. intros own.
  destruct (branches schema) as [subs|e] eqn:Hsubs; simpl.
  - apply bind_no_overflow; [|discriminate].
    apply map_outcome_no_overflow. intros sub Hin.
    destruct (branches_smaller schema sub subs Hsubs Hin) as [Hc Hlt].
    unfold branch. apply bind_no_overflow; [apply get_no_overflow|]. intros ref.
    destruct (truthy_slot ref); [|apply IH; lia].
    destruct (resolveRef [] (or_else ref JNull) schema) as [resolved|e] eqn:Hres; simpl.
    + destruct (truthy resolved) eqn:Ht; [|discriminate].
      apply bind_no_overflow; [apply get_no_overflow|]. intros t.
      apply IH. pose proof (height_resolved _ _ _ Hc Hres Ht). lia.
    + intros H. apply (resolveRef_no_overflow [] (or_else ref JNull) schema).
      rewrite Hres. now inversion H.
  - intros H. apply (branches_no_overflow schema). rewrite Hsubs. now inversion H.
Qed.

(** X9.  Against the empty store, on a stack deeper than the node is nested,
    the extraction ends in one of three ways: it returns rows, it throws a
    [TypeError], or a reference steps into an object of the host, where the
    model stops.  While the references stay with values of the document the
    stack is not exhausted. *)
Theorem extractProperties_terminates (stack : nat) (schema c : value) :
  height schema < stack ->
  (exists rows, extractProperties stack [] schema c = Ok rows) \/
  extractProperties stack [] schema c = Exn TypeError \/
  extractProperties stack [] schema c = Exn Host.
Proof.
  intros Hh. pose proof (extractProperties_no_overflow stack schema c Hh) as Hno.
  destruct (extractProperties stack [] schema c) as [rows|[| |]]; eauto.
  now destruct Hno.
Qed.

End Termination.

(** ** The order of the own properties *)
Section OwnOrder.
Context {V : Type}.

Lemma insert_by_index_perm (i : N) (e : string * V) (l : list (N * (string * V))) :
  Permutation ((i, e) :: l) (insert_by_index i e l).
Proof.
  induction l as [|[j f] l IH]; simpl; [reflexivity|].
  destruct (i <? j)%N; [reflexivity|].
  rewrite perm_swap. now constructor.
Qed.

Lemma insert_by_index_sorted (i : N) (e : string * V) (l : list (N * (string * V))) :
  Sorted by_index l -> Sorted by_index (insert_by_index i e l).
Proof.
  induction l as [|[j f] l IH]; intros Hs; simpl.
  - repeat constructor.
  - destruct (i <? j)%N eqn:Hij.
    + constructor; [exact Hs|]. constructor. unfold by_index; simpl.
      apply N.ltb_lt in Hij. lia.
    + apply N.ltb_ge in Hij. inversion Hs as [|? ? Hl Hhd]; subst.
      constructor; [now apply IH|].
      destruct l as [|[k g] l]; simpl.
      * constructor. exact Hij.
      * destruct (i <? k)%N; constructor; [exact Hij|].
        now inversion Hhd.
Qed.

Lemma index_entries_from (members : list (string * V)) (acc : list (N * (string * V))) :
  let r := fold_left
             (fun sorted e =>
                match array_index (fst e) with
                | Some i => insert_by_index i e sorted
                | None => sorted
                end) members acc in
  (Sorted by_index acc -> Sorted by_index r) /\
  Permutation (map snd r) (map snd acc ++ filter is_index members).
Proof.
  revert acc; induction members as [|e members IH]; intros acc; simpl.
  - split; [auto|]. now rewrite app_nil_r.
  - unfold is_index at 1. destruct (array_index (fst e)) as [i|] eqn:Hi.
    + destruct (IH (insert_by_index i e acc)) as [Hs Hp]. split.
      * intros Hacc. apply Hs. now apply insert_by_index_sorted.
      * rewrite Hp. rewrite <- (insert_by_index_perm i e acc). simpl.
        now rewrite <- Permutation_middle.
    + apply IH.
Qed.

Lemma index_entries_sorted (members : list (string * V)) :
  Sorted by_index (index_entries members).
Proof. apply (index_entries_from members []). constructor. Qed.

Lemma index_entries_perm (members : list (string * V)) :
  Permutation (map snd (index_entries members)) (filter is_index members).
Proof. apply (index_entries_from members []). Qed.

Lemma index_entries_index (members : list (string * V)) (i : N) (e : string * V) :
  In (i, e) (index_entries members) -> array_index (fst e) = Some i.
Proof.
  unfold index_entries.
  assert (H : forall acc,
            (forall j f, In (j, f) acc -> array_index (fst f) = Some j) ->
            forall j f, In (j, f)
              (fold_left
                 (fun sorted e =>
                    match array_index (fst e) with
                    | Some i => insert_by_index i e sorted
                    | None => sorted
                    end) members acc) -> array_index (fst f) = Some j).
  { induction members as [|m members IH]; intros acc Hacc j f; simpl; [apply Hacc|].
    apply IH. destruct (array_index (fst m)) as [k|] eqn:Hk; [|exact Hacc].
    intros j' f' Hin.
    apply (Permutation_in _ (Permutation_sym (insert_by_index_perm k m acc))) in Hin.
    destruct Hin as [Heq|Hin]; [inversion Heq; now subst | now apply Hacc]. }
  apply H. intros j f [].
Qed.

Lemma own_entries_named (members : list (string * V)) :
  (forall e, In e members -> array_index (fst e) = None) ->
  own_entries members = members.
Proof.
  intros Hnone. unfold own_entries.
  assert (Hidx : filter is_index members = []).
  { induction members as [|e members IH]; simpl; [reflexivity|].
    unfold is_index at 1. rewrite (Hnone e (or_introl eq_refl)).
    apply IH. intros x Hx. apply Hnone. now right. }
  assert (Hnamed : named_entries members = members).
  { clear Hidx. unfold named_entries.
    induction members as [|e members IH]; simpl; [reflexivity|].
    rewrite (Hnone e (or_introl eq_refl)). f_equal. apply IH.
    intros x Hx. apply Hnone. now right. }
  pose proof (index_entries_perm members) as Hp. rewrite Hidx in Hp.
  apply Permutation_sym, Permutation_nil in Hp.
  apply map_eq_nil in Hp. now rewrite Hp, Hnamed.
Qed.

End OwnOrder.

(** C2, as amended.  With stack left, [extractProperties] returns the rows of
    the node's own properties followed by the rows of each [allOf] branch in
    branch order, nothing removed.  The own rows follow the order in which
    [Object.entries] enumerates [properties]: the keys that are array indices
    first, in ascending order, then the other keys in insertion order, which
    is plain insertion order when no key is an array index.  A row is
    required exactly when the [required] array contains its name, and a node
    with neither [properties] nor [allOf] yields no row. *)
Theorem extractProperties_order (depth : nat) (schemas : store) (schema category : value) :
  extractProperties (S depth) schemas schema category =
    (own <- Spec.own_properties schema category ;;
     subs <- Spec.branches schema ;;
     rows <- Spec.map_outcome (Spec.branch depth schemas schema category) subs ;;
     Ok (own ++ List.concat rows)) /\
  (forall members,
     get schema "properties" = Ok (Some (JObj members)) ->
     Spec.own_properties schema category =
       Spec.map_outcome (Spec.own_row schema category)
         (map snd (index_entries members) ++ named_entries members) /\
     Sorted by_index (index_entries members) /\
     Permutation (map snd (index_entries members)) (filter is_index members) /\
     named_entries members = filter (fun e => negb (is_index e)) members /\
     ((forall e, In e members -> array_index (fst e) = None) ->
      Spec.own_properties schema category =
        Spec.map_outcome (Spec.own_row schema category) members)) /\
  (forall l name fragment,
     get schema "required" = Ok (Some (JArr l)) ->
     exists b, Spec.own_row schema category (name, fragment) =
                 Ok (Property category name fragment b) /\
               (b = true <-> In (JStr name) l)) /\
  (get schema "properties" = Ok None -> get schema "allOf" = Ok None ->
   extractProperties (S depth) schemas schema category = Ok []) /\
  (forall rows, extractProperties (S depth) schemas schema category = Ok rows ->
     exists own nested,
       Spec.own_properties schema category = Ok own /\
       rows = own ++ List.concat nested /\
       List.length rows =
         List.length own + List.length (List.concat nested)).
Proof.
  split; [apply extractProperties_unfold|]. split; [|split; [|split]].
  - intros members Hp.
    assert (Hown : Spec.own_properties schema category =
                   Spec.map_outcome (Spec.own_row schema category) (own_entries members)).
    { unfold Spec.own_properties. now rewrite Hp. }
    split; [exact Hown|]. split; [apply index_entries_sorted|].
    split; [apply index_entries_perm|]. split.
    + unfold named_entries, is_index. apply filter_ext. intros e.
      now destruct (array_index (fst e)).
    + intros Hnone. now rewrite Hown, (own_entries_named members Hnone).
  - intros l name fragment Hreq. unfold Spec.own_row. rewrite Hreq. simpl.
    eexists. split; [reflexivity|]. apply array_includes.
  - intros Hp Ha. rewrite extractProperties_unfold.
    unfold Spec.extract, Spec.own_properties, Spec.branches. now rewrite Hp, Ha.
  - intros rows Hrows.
    destruct (extract_rows _ _ _ _ _ Hrows) as (own & subs & nested & Ho & _ & _ & ->).
    exists own, nested. split; [exact Ho|]. split; [reflexivity|]. apply length_app.
Qed.

(** C2, as amended, at the item schema of Scenario A with one more property. *)
Lemma extractProperties_order_witness :
  extractProperties 1 []
    (JObj [("properties", JObj [("id", JObj [("type", JStr "integer")]);
                                ("label", JObj [])]);
           ("required", JArr [JStr "id"])]) JNull =
  Ok [Property JNull "id" (JObj [("type", JStr "integer")]) true;
      Property JNull "label" (JObj []) false].
Proof.
  destruct (extractProperties_order 0 []
              (JObj [("properties", JObj [("id", JObj [("type", JStr "integer")]);
                                          ("label", JObj [])]);
                     ("required", JArr [JStr "id"])]) JNull)
    as (Heq & Hown & _).
  rewrite Heq.
  destruct (Hown [("id", JObj [("type", JStr "integer")]); ("label", JObj [])] eq_refl)
    as (_ & _ & _ & _ & Hins).
  rewrite Hins; [reflexivity|].
  intros e [<-|[<-|[]]]; reflexivity.
Defined.

(** A document that refers to itself is extracted on no stack. *)
Lemma cyclic_overflows (stack : nat) (c : value) :
  extractProperties stack [(JStr "x", Examples.cyclic_doc)] Examples.cyclic_doc c =
  Exn RangeError.
Proof.
  induction stack as [|depth IH]; [reflexivity|].
  rewrite extractProperties_unfold. unfold extract.
  change (own_properties Examples.cyclic_doc c) with (Ok (@nil ExtractedProperty)).
  change (branches Examples.cyclic_doc) with (Ok [JObj [("$ref", JStr "x")]]).
  cbn [bind map_outcome].
  change (branch depth [(JStr "x", Examples.cyclic_doc)] Examples.cyclic_doc c
            (JObj [("$ref", JStr "x")]))
    with (extractProperties depth [(JStr "x", Examples.cyclic_doc)]
            Examples.cyclic_doc c).
  now rewrite IH.
Qed.

(** C2 fails as stated: the property [1], inserted after [b], comes out
    before it; and the extraction of a document that refers to itself
    returns no sequence, whatever the stack. *)
Lemma extraction_differs :
  extractProperties 1 []
    (JObj [("properties", JObj [("b", JObj []); ("1", JObj [])])]) JNull =
  Ok [Property JNull "1" (JObj []) false; Property JNull "b" (JObj []) false] /\
  ~ exists stack rows,
      extractProperties stack [(JStr "x", Examples.cyclic_doc)] Examples.cyclic_doc
        JNull = Ok rows.
Proof.
  split; [reflexivity|].
  intros (stack & rows & Hrows). rewrite cyclic_overflows in Hrows. discriminate.
Qed.

Lemma map_outcome_app {X Y : Type} (f : X -> outcome Y) (xs ys : list X) :
  Spec.map_outcome f (xs ++ ys) =
  (a <- Spec.map_outcome f xs ;; b <- Spec.map_outcome f ys ;; Ok (a ++ b)).
Proof.
  induction xs as [|x xs IH]; simpl.
  - now destruct (Spec.map_outcome f ys).
  - destruct (f x); simpl; [|reflexivity]. rewrite IH.
    destruct (Spec.map_outcome f xs); simpl; [|reflexivity].
    now destruct (Spec.map_outcome f ys).
Qed.

(** The rows of a node around one of its branches. *)
Lemma extract_at_branch (depth : nat) (schemas : store) (schema category : value)
    (before after : list value) (subSchema : value) :
  Spec.branches schema = Ok (before ++ subSchema :: after) ->
  extractProperties (S depth) schemas schema category =
  (own <- Spec.own_properties schema category ;;
   a <- Spec.map_outcome (Spec.branch depth schemas schema category) before ;;
   mine <- Spec.branch depth schemas schema category subSchema ;;
   b <- Spec.map_outcome (Spec.branch depth schemas schema category) after ;;
   Ok (own ++ List.concat a ++ mine ++ List.concat b)).
Proof.
  intros Hsubs. rewrite extractProperties_unfold. unfold Spec.extract.
  destruct (Spec.own_properties schema category) as [own|]; simpl; [|reflexivity].
  rewrite Hsubs. simpl. rewrite map_outcome_app. simpl.
  destruct (Spec.map_outcome _ before) as [a|]; simpl; [|reflexivity].
  destruct (Spec.branch depth schemas schema category subSchema) as [mine|]; simpl;
    [|reflexivity].
  destruct (Spec.map_outcome _ after) as [b|]; simpl; [|reflexivity].
  now rewrite concat_app.
Qed.

(** C3, as amended.  The rows of a node are its own rows, then the rows of
    its branches in order, each branch giving its rows once.  An inline
    branch gives the rows extracted from it with the category of the caller.
    A reference that resolves gives the rows extracted from the resolved
    document with [resolved.title || category]: the title when it is truthy,
    the category of the caller when it is absent or falsy.  The rows that a
    document declares itself carry the category it is extracted with; they
    are all of its rows when it has no branch. *)
Theorem branch_category (depth : nat) (schemas : store)
    (schema category subSchema : value) (ref : slot) (before after : list value) :
  Spec.branches schema = Ok (before ++ subSchema :: after) ->
  get subSchema "$ref" = Ok ref ->
  (truthy_slot ref = false ->
   extractProperties (S depth) schemas schema category =
     (own <- Spec.own_properties schema category ;;
      a <- Spec.map_outcome (Spec.branch depth schemas schema category) before ;;
      mine <- extractProperties depth schemas subSchema category ;;
      b <- Spec.map_outcome (Spec.branch depth schemas schema category) after ;;
      Ok (own ++ List.concat a ++ mine ++ List.concat b))) /\
  (forall resolved t,
     truthy_slot ref = true ->
     resolveRef schemas (or_else ref JNull) schema = Ok resolved ->
     truthy resolved = true ->
     get resolved "title" = Ok t ->
     extractProperties (S depth) schemas schema category =
       (own <- Spec.own_properties schema category ;;
        a <- Spec.map_outcome (Spec.branch depth schemas schema category) before ;;
        mine <- extractProperties depth schemas resolved (or_else t category) ;;
        b <- Spec.map_outcome (Spec.branch depth schemas schema category) after ;;
        Ok (own ++ List.concat a ++ mine ++ List.concat b)) /\
     (forall title, t = Some title -> truthy title = true ->
                    or_else t category = title) /\
     (truthy_slot t = false -> or_else t category = category)) /\
  (forall node c rows,
     extractProperties depth schemas node c = Ok rows ->
     exists own nested,
       rows = own ++ nested /\
       Spec.own_properties node c = Ok own /\
       Forall (fun p => SchemaProcessor.category p = c) own /\
       (Spec.branches node = Ok [] -> nested = [])).
Proof.
  intros Hsubs Href. split; [|split].
  - intros Hfalsy.
    rewrite (extract_at_branch depth schemas schema category before after subSchema Hsubs).
    unfold Spec.branch at 2. rewrite Href. cbn [bind]. now rewrite Hfalsy.
  - intros resolved t Htruthy Hres Hr Ht. split; [|split].
    + rewrite (extract_at_branch depth schemas schema category before after subSchema
                 Hsubs).
      unfold Spec.branch at 2. rewrite Href. cbn [bind]. rewrite Htruthy, Hres.
      cbn [bind]. now rewrite Hr, Ht.
    + intros title -> Htitle. simpl. now rewrite Htitle.
    + destruct t as [title|]; simpl; [|reflexivity]. now intros ->.
  - intros node c rows Hrows. destruct depth as [|depth']; [discriminate|].
    destruct (extract_rows _ _ _ _ _ Hrows) as (own & subs & nested & Ho & Hs & Hn & ->).
    exists own, (List.concat nested). split; [reflexivity|]. split; [exact Ho|].
    split; [exact (own_properties_category node c own Ho)|].
    intros Hnone. rewrite Hnone in Hs. inversion Hs; subst subs.
    simpl in Hn. now inversion Hn.
Qed.

(** C3, as amended, at a titled document extracted under no category: its
    own row carries no category, the row of the reference it holds carries
    the title of the document referred to. *)
Lemma branch_category_witness :
  extractProperties 2 [] Examples.outer_doc JNull =
  Ok [Property JNull "x" (JObj []) false; Property (JStr "B") "y" (JObj []) false].
Proof.
  destruct (branch_category 1 [] Examples.outer_doc JNull
              (JObj [("$ref", JStr "#/b")]) (Some (JStr "#/b")) [] [] eq_refl eq_refl)
    as (_ & Href & _).
  destruct (Href Examples.inner_doc (Some (JStr "B")) eq_refl eq_refl eq_refl eq_refl)
    as [Hrows _].
  rewrite Hrows. reflexivity.
Defined.

(** C3 fails as stated: a document whose title is the empty string passes
    the category of the caller on, and a row of a nested titled reference
    carries the nested title, not the title of the branch it came through. *)
Lemma title_is_not_always_the_category :
  (resolveRef [] (JStr "#/d") Examples.empty_title = Ok Examples.empty_title_doc /\
   get Examples.empty_title_doc "title" = Ok (Some (JStr "")) /\
   extractProperties 2 [] Examples.empty_title (JStr "Cat") =
     Ok [Property (JStr "Cat") "x" (JObj []) false]) /\
  (resolveRef [] (JStr "#/a") Examples.nested_titles = Ok Examples.outer_doc /\
   get Examples.outer_doc "title" = Ok (Some (JStr "A")) /\
   extractProperties 3 [] Examples.nested_titles JNull =
     Ok [Property (JStr "A") "x" (JObj []) false;
         Property (JStr "B") "y" (JObj []) false]).
Proof. repeat split; reflexivity. Qed.

(** C7.  A reference of [allOf] that resolves to nothing contributes no row,
    and the node's rows are its own followed by those of the branches before
    and after it; when [items] of the main schema is such a reference,
    [getTableData] returns [null]. *)
Theorem unresolved_reference_skipped (depth : nat) (schemas : store)
    (schema category : value) :
  (forall subSchema ref r,
     get subSchema "$ref" = Ok (Some ref) -> truthy ref = true ->
     resolveRef schemas ref schema = Ok r -> truthy r = false ->
     Spec.branch depth schemas schema category subSchema = Ok []) /\
  (forall before subSchema after,
     Spec.branches schema = Ok (before ++ subSchema :: after) ->
     Spec.branch depth schemas schema category subSchema = Ok [] ->
     extractProperties (S depth) schemas schema category =
       (own <- Spec.own_properties schema category ;;
        a <- Spec.map_outcome (Spec.branch depth schemas schema category) before ;;
        b <- Spec.map_outcome (Spec.branch depth schemas schema category) after ;;
        Ok (own ++ List.concat a ++ List.concat b))) /\
  (forall stack this items ref r,
     truthy (mainSchema this) = true ->
     get (mainSchema this) "items" = Ok (Some items) ->
     get items "$ref" = Ok (Some ref) -> truthy ref = true ->
     resolveRef (SchemaProcessor.schemas this) ref (mainSchema this) = Ok r ->
     truthy r = false ->
     getTableData stack this = Ok None).
Proof.
  split; [|split].
  - intros sub ref r Href Ht Hres Hr. unfold Spec.branch.
    rewrite Href. simpl. rewrite Ht, Hres. simpl. now rewrite Hr.
  - intros before sub after Hsubs Hskip.
    rewrite extractProperties_unfold. unfold Spec.extract.
    destruct (Spec.own_properties schema category) as [own|]; simpl; [|reflexivity].
    rewrite Hsubs. simpl. rewrite map_outcome_app. simpl. rewrite Hskip. simpl.
    destruct (Spec.map_outcome _ before) as [a|]; simpl; [|reflexivity].
    destruct (Spec.map_outcome _ after) as [b|]; simpl; [|reflexivity].
    now rewrite concat_app.
  - intros stack this items ref r Hmain Hitems Href Ht Hres Hr.
    assert (Hopt : get_opt (Some items) "$ref" = Some ref).
    { unfold get_opt. destruct items; try discriminate; now rewrite Href. }
    unfold getTableData. rewrite Hmain, Hitems. cbn [negb bind].
    rewrite Hopt. cbn [truthy_slot or_else]. rewrite Ht, Hres. cbn [bind truthy_slot].
    now rewrite Hr.
Qed.

(** C7 at Scenario C: the dangling branch adds nothing, the inline one its row. *)
Lemma unresolved_reference_skipped_witness :
  extractProperties 2 [(JStr "main.json", JObj [])] Examples.dangling JNull =
  Ok [Property JNull "z" (JObj []) false].
Proof.
  destruct (unresolved_reference_skipped 1 [(JStr "main.json", JObj [])]
              Examples.dangling JNull) as (Hskip & Hrest & _).
  rewrite (Hrest [] (JObj [("$ref", JStr "other.json#/defs")])
             [JObj [("properties", JObj [("z", JObj [])])]] eq_refl).
  - reflexivity.
  - apply (Hskip _ (JStr "other.json#/defs") JNull); reflexivity.
Defined.

(** ** Loading *)

Lemma qualifiesb_spec (d : value) : qualifiesb d = true <-> qualifies d.
Proof.
  unfold qualifiesb, qualifies.
  destruct (get d "type") as [[t|]|]; destruct (get d "items") as [items|];
    try (split; [discriminate | intros [H _]; discriminate]);
    try (split; [discriminate | intros [_ [i [H _]]]; discriminate]).
  rewrite andb_true_iff, strict_eq_string. split.
  - intros [-> Hi]. split; [reflexivity|].
    destruct items as [i|]; [|discriminate]. now exists i.
  - intros [Ht [i [Hi Htr]]]. inversion Ht; inversion Hi; subst. auto.
Qed.

Lemma qualifies_truthy (d : value) : qualifies d -> truthy d = true.
Proof.
  intros [Ht _]. destruct d; try discriminate; reflexivity.
Qed.

Lemma load_spec (m : store) (main : value) (f : file) :
  document f <> JNull ->
  load (m, main) f =
  Ok (schemas_set m (identifier f) (document f),
      if qualifiesb (document f) then document f else main).
Proof.
  intros Hd. unfold load, identifier, qualifiesb.
  destruct (get_not_null (document f) "$id" Hd) as [id ->].
  destruct (get_not_null (document f) "type" Hd) as [ty ->].
  destruct (get_not_null (document f) "items" Hd) as [items ->].
  cbn [bind]. destruct ty as [t|]; [|now destruct (truthy_slot id)].
  destruct (strict_eq t (JStr "array") && truthy_slot items);
    now destruct (truthy_slot id).
Qed.

Lemma load_all_spec (files : list file) (m : store) (main : value) :
  Forall (fun f => document f <> JNull) files ->
  load_all files (m, main) = ((loaded files m, last_qualifying files main), Ok tt).
Proof.
  intros H; revert m main; induction H as [|f files Hf _ IH]; intros m main.
  - reflexivity.
  - cbn [load_all]. rewrite (load_spec m main f Hf). apply IH.
Qed.

Lemma last_qualifying_none (files : list file) (main : value) :
  Forall (fun f => ~ qualifies (document f)) files -> last_qualifying files main = main.
Proof.
  intros H; revert main; induction H as [|f files Hf _ IH]; intros main; [reflexivity|].
  unfold last_qualifying in *. simpl.
  destruct (qualifiesb (document f)) eqn:Hq; [|apply IH].
  apply qualifiesb_spec in Hq. contradiction.
Qed.

Lemma last_qualifying_last (before after : list file) (f : file) (main : value) :
  qualifies (document f) -> Forall (fun g => ~ qualifies (document g)) after ->
  last_qualifying (before ++ f :: after) main = document f.
Proof.
  intros Hf Hafter. unfold last_qualifying. rewrite fold_left_app. simpl.
  apply qualifiesb_spec in Hf. rewrite Hf.
  now apply last_qualifying_none.
Qed.

Lemma collectKeywordUsage_fields (stack : nat) (this : Processor) :
  schemas (fst (collectKeywordUsage stack this)) = schemas this /\
  mainSchema (fst (collectKeywordUsage stack this)) = mainSchema this.
Proof.
  unfold collectKeywordUsage. destruct (getTableData stack this); simpl; auto.
  destruct (count_properties _ _); simpl; auto.
Qed.

(** What [processFiles] does once every file is loaded. *)
Lemma processFiles_loaded (stack : nat) (this : Processor) (files : list file) :
  Forall (fun f => document f <> JNull) files ->
  let schemas := loaded files [] in
  let main := last_qualifying files JNull in
  let main' := if negb (truthy main) && (List.length schemas =? 1)%nat
               then first_value schemas else main in
  let chosen := {| schemas := schemas; mainSchema := main'; keywordUsage := [] |} in
  processFiles stack this files =
  if truthy main' then
    (fst (collectKeywordUsage stack chosen),
     _ <- snd (collectKeywordUsage stack chosen) ;;
     Ok (negb (strict_eq main' JNull)))
  else (chosen, Ok (negb (strict_eq main' JNull))).
Proof.
  intros H. cbv zeta. unfold processFiles.
  pose proof (load_all_spec files [] JNull H) as Hl. unfold store in *. rewrite Hl.
  cbv beta iota.
  set (main' := if negb (truthy (last_qualifying files JNull)) &&
                   (List.length (loaded files []) =? 1)%nat
                then first_value (loaded files [])
                else last_qualifying files JNull).
  destruct (truthy main') eqn:Ht; [|reflexivity].
  pose proof (collectKeywordUsage_fields stack
    {| schemas := loaded files []; mainSchema := main'; keywordUsage := [] |})
    as [_ Hm].
  destruct (collectKeywordUsage stack _) as [this' r]. simpl in *.
  now rewrite Hm.
Qed.

(** ** Keyword usage *)
Section Usage.

Lemma usage_get_set_same (m : list (string * nat)) (k : string) (n : nat) :
  usage_get (usage_set m k n) k = Some n.
Proof.
  unfold usage_get, usage_set. induction m as [|[k' n'] m IH]; simpl.
  - now rewrite String.eqb_refl.
  - destruct (k' =? k) eqn:Hk; simpl; now rewrite Hk.
Qed.

Lemma usage_get_set_other (m : list (string * nat)) (k k' : string) (n : nat) :
  k <> k' -> usage_get (usage_set m k n) k' = usage_get m k'.
Proof.
  intros Hne. unfold usage_get, usage_set. induction m as [|[j n'] m IH]; simpl.
  - apply String.eqb_neq in Hne. now rewrite Hne.
  - destruct (j =? k) eqn:Hjk; simpl.
    + apply String.eqb_eq in Hjk; subst j.
      apply String.eqb_neq in Hne. now rewrite Hne.
    + destruct (j =? k'); [reflexivity | exact IH].
Qed.

Lemma count_keyword_count (usage : list (string * nat)) (keyword k : string) :
  count (count_keyword usage keyword) k =
  count usage k + (if negb (excluded keyword) && (keyword =? k) then 1 else 0).
Proof.
  unfold count_keyword, count. destruct (excluded keyword); simpl; [lia|].
  destruct (keyword =? k) eqn:Hk.
  - apply String.eqb_eq in Hk; subst k. now rewrite usage_get_set_same.
  - apply String.eqb_neq in Hk. rewrite (usage_get_set_other _ _ _ _ Hk). lia.
Qed.

Lemma count_keyword_positive (usage : list (string * nat)) (keyword : string) :
  positive usage -> positive (count_keyword usage keyword).
Proof.
  intros Hp k n. unfold count_keyword. destruct (excluded keyword); simpl; [apply Hp|].
  destruct (String.eqb_spec keyword k) as [->|Hne].
  - rewrite usage_get_set_same. inversion 1. lia.
  - rewrite (usage_get_set_other _ _ _ _ Hne). apply Hp.
Qed.

Lemma count_keywords (ks : list string) (usage : list (string * nat)) (k : string) :
  count (fold_left count_keyword ks usage) k =
  count usage k + (if excluded k then 0 else count_occ string_dec ks k).
Proof.
  revert usage; induction ks as [|kw ks IH]; intros usage; simpl.
  - destruct (excluded k); lia.
  - rewrite IH, count_keyword_count.
    destruct (string_dec kw k) as [->|Hne].
    + rewrite String.eqb_refl. destruct (excluded k); simpl; lia.
    + apply String.eqb_neq in Hne. rewrite Hne, andb_false_r.
      destruct (excluded k); lia.
Qed.

Lemma count_keywords_positive (ks : list string) (usage : list (string * nat)) :
  positive usage -> positive (fold_left count_keyword ks usage).
Proof.
  revert usage; induction ks as [|kw ks IH]; intros usage Hp; simpl; [exact Hp|].
  apply IH. now apply count_keyword_positive.
Qed.

Lemma count_occ_distinct (ks : list string) (k : string) :
  NoDup ks -> count_occ string_dec ks k = if existsb (String.eqb k) ks then 1 else 0.
Proof.
  induction 1 as [|x ks Hx Hnd IH]; simpl; [reflexivity|].
  destruct (string_dec x k) as [->|Hne].
  - rewrite String.eqb_refl. simpl.
    apply (count_occ_not_In string_dec) in Hx. now rewrite Hx.
  - assert (Hkx : (k =? x) = false) by (apply String.eqb_neq; congruence).
    now rewrite Hkx.
Qed.

Lemma occurrences_cons (k : string) (p : ExtractedProperty)
    (props : list ExtractedProperty) :
  occurrences k (p :: props) =
  (if has_key (schema p) k then 1 else 0) + occurrences k props.
Proof.
  unfold occurrences. cbn [filter]. now destruct (has_key (schema p) k).
Qed.

Lemma count_properties_cons (p : ExtractedProperty) (props : list ExtractedProperty)
    (usage : list (string * nat)) :
  count_properties (p :: props) usage =
  match keys (schema p) with
  | Ok ks => count_properties props (fold_left count_keyword ks usage)
  | Exn e => (usage, Exn e)
  end.
Proof. reflexivity. Qed.

(** The loop over the properties, when every fragment has keys. *)
Lemma count_properties_spec (props : list ExtractedProperty)
    (usage : list (string * nat)) :
  Forall (fun p => exists ks, keys (schema p) = Ok ks /\ NoDup ks) props ->
  exists usage',
    count_properties props usage = (usage', Ok tt) /\
    (positive usage -> positive usage') /\
    forall k, count usage' k =
              count usage k + (if excluded k then 0 else occurrences k props).
Proof.
  intros H; revert usage; induction H as [|p props [ks [Hks Hnd]] _ IH]; intros usage.
  - exists usage. split; [reflexivity|]. split; [auto|].
    intros k. unfold occurrences. simpl. destruct (excluded k); lia.
  - destruct (IH (fold_left count_keyword ks usage)) as (usage' & Hrun & Hpos & Hcount).
    exists usage'. rewrite count_properties_cons, Hks. split; [exact Hrun|]. split.
    + intros Hp. apply Hpos. now apply count_keywords_positive.
    + intros k. rewrite Hcount, count_keywords, (count_occ_distinct ks k Hnd).
      rewrite occurrences_cons. unfold has_key. rewrite Hks.
      destruct (excluded k); [lia|].
      destruct (existsb (String.eqb k) ks); lia.
Qed.

Lemma excluded_spec (k : string) :
  excluded k = true <->
  In k ["$schema"; "$id"; "$ref"; "properties"; "items"; "allOf"; "anyOf"; "oneOf";
        "enumDescriptions"].
Proof.
  unfold excluded, excludedKeywords. rewrite existsb_exists. split.
  - intros [x [Hin Hx]]. apply String.eqb_eq in Hx. now subst.
  - intros Hin. exists k. split; [exact Hin | apply String.eqb_refl].
Qed.

End Usage.

(** C8.  Run on an empty usage map over fragments that have keys, pairwise
    distinct as the keys of an object are, the aggregation records nothing
    for the nine excluded keys and, for every other key, the number of
    extracted properties whose own fragment contains it; a key that no
    fragment contains is not recorded. *)
Theorem keyword_counts (stack : nat) (this : Processor) (data : option TableData) :
  getTableData stack this = Ok data ->
  keywordUsage this = [] ->
  Forall (fun p => exists ks, keys (schema p) = Ok ks /\ NoDup ks) (rows_of data) ->
  exists usage,
    collectKeywordUsage stack this =
      ({| schemas := schemas this; mainSchema := mainSchema this;
          keywordUsage := usage |}, Ok tt) /\
    forall k,
      (excluded k = true <->
       In k ["$schema"; "$id"; "$ref"; "properties"; "items"; "allOf"; "anyOf";
             "oneOf"; "enumDescriptions"]) /\
      (excluded k = true -> usage_get usage k = None) /\
      (excluded k = false ->
       usage_get usage k =
       match occurrences k (rows_of data) with
       | O => None
       | S n => Some (S n)
       end).
Proof.
  intros Hdata Hempty Hkeys.
  destruct (count_properties_spec (rows_of data) [] Hkeys) as (usage & Hrun & Hpos & Hcount).
  exists usage. split.
  - unfold collectKeywordUsage. rewrite Hdata, Hempty. fold (rows_of data).
    now rewrite Hrun.
  - assert (Hp : positive usage) by (apply Hpos; intros k n; discriminate).
    intros k. split; [apply excluded_spec|].
    specialize (Hcount k). unfold count in Hcount. simpl in Hcount. split.
    + intros He. rewrite He in Hcount.
      destruct (usage_get usage k) as [n|] eqn:Hg; [|reflexivity].
      apply Hp in Hg. lia.
    + intros He. rewrite He in Hcount.
      destruct (usage_get usage k) as [n|] eqn:Hg.
      * apply Hp in Hg. rewrite <- Hcount. destruct n; [lia | reflexivity].
      * now rewrite <- Hcount.
Qed.

(** C8 at two fragments that share the keyword [type]. *)
Lemma keyword_counts_witness :
  exists usage,
    keywordUsage (fst (collectKeywordUsage 1 Examples.counted)) = usage /\
    usage_get usage "type" = Some 2 /\
    usage_get usage "minLength" = Some 1 /\
    usage_get usage "properties" = None /\
    usage_get usage "format" = None.
Proof.
  destruct (keyword_counts 1 Examples.counted
              (Some {| title := JStr "Dataset Schema"; description := JStr "";
                       properties :=
                         [Property JNull "name"
                            (JObj [("type", JStr "string"); ("minLength", JNum 3);
                                   ("pattern", JStr "^a")]) false;
                          Property JNull "home"
                            (JObj [("type", JStr "object"); ("properties", JObj [])])
                            false] |})
              eq_refl eq_refl) as (usage & Hrun & Hk).
  - repeat constructor.
    + exists ["type"; "minLength"; "pattern"]. split; [reflexivity|].
      repeat constructor; simpl; intuition discriminate.
    + exists ["type"; "properties"]. split; [reflexivity|].
      repeat constructor; simpl; intuition discriminate.
  - exists usage. rewrite Hrun. split; [reflexivity|].
    repeat split.
    + apply (proj2 (proj2 (Hk "type"))). reflexivity.
    + apply (proj2 (proj2 (Hk "minLength"))). reflexivity.
    + apply (proj1 (proj2 (Hk "properties"))). reflexivity.
    + apply (proj2 (proj2 (Hk "format"))). reflexivity.
Defined.

(** ** Main schema selection *)

(** C1, as amended.  When every document is loaded, [processFiles] leaves as
    main schema the last document whose [type] is exactly [array] and whose
    [items] is truthy; when no document is such and the store does not end up
    with exactly one entry, it returns [false], the main schema is [null] and
    [getTableData] returns [null]. *)
Theorem processFiles_main (stack : nat) (this : Processor) (files : list file) :
  Forall (fun f => document f <> JNull) files ->
  (forall before f after,
     files = before ++ f :: after ->
     qualifies (document f) ->
     Forall (fun g => ~ qualifies (document g)) after ->
     mainSchema (fst (processFiles stack this files)) = document f) /\
  (Forall (fun f => ~ qualifies (document f)) files ->
   List.length (schemas (fst (processFiles stack this files))) <> 1 ->
   snd (processFiles stack this files) = Ok false /\
   mainSchema (fst (processFiles stack this files)) = JNull /\
   forall stack', getTableData stack' (fst (processFiles stack this files)) = Ok None).
Proof.
  intros Hloaded. rewrite (processFiles_loaded stack this files Hloaded). split.
  - intros before f after -> Hf Hafter.
    rewrite (last_qualifying_last before after f JNull Hf Hafter).
    rewrite (qualifies_truthy _ Hf). cbn [negb andb].
    rewrite (qualifies_truthy _ Hf). cbn [fst].
    apply collectKeywordUsage_fields.
  - intros Hnone. rewrite (last_qualifying_none files JNull Hnone). cbn [truthy negb andb].
    destruct (List.length (loaded files []) =? 1)%nat eqn:Hlen.
    + apply Nat.eqb_eq in Hlen.
      destruct (truthy (first_value (loaded files []))).
      * intros Hne. exfalso. apply Hne. cbn [fst].
        now rewrite (proj1 (collectKeywordUsage_fields stack _)).
      * intros Hne. exfalso. now apply Hne.
    + intros _. cbn [truthy fst snd mainSchema strict_eq negb]. repeat split.
Qed.

(** C1, as amended, at three files and at two files without array schema. *)
Lemma processFiles_main_witness :
  mainSchema (fst (processFiles 3 new Examples.three_files)) =
    JObj [("type", JStr "array"); ("items", JObj [])] /\
  snd (processFiles 3 new Examples.no_array) = Ok false.
Proof.
  split.
  - refine (proj1 (processFiles_main 3 new Examples.three_files _)
              [File "first.json" Examples.rows_doc;
               File "defs.json" (JObj [("$id", JStr "defs.json"); ("title", JStr "Defs")])]
              (File "last.json" (JObj [("type", JStr "array"); ("items", JObj [])]))
              [] eq_refl _ _).
    + repeat constructor; discriminate.
    + split; [reflexivity|]. exists (JObj []). split; reflexivity.
    + constructor.
  - refine (proj1 (proj2 (processFiles_main 3 new Examples.no_array _) _ _)).
    + repeat constructor; discriminate.
    + repeat constructor; intros [H _]; discriminate.
    + vm_compute. discriminate.
Defined.

(** C1 fails as stated: two documents that share one [$id], none of them an
    array schema, leave one entry in the store, which becomes the main schema,
    and [processFiles] returns [true]; and a later array schema whose [items]
    is present but [false] does not replace an earlier one. *)
Lemma main_schema_selection_differs :
  (Forall (fun f => ~ qualifies (document f)) Examples.same_id /\
   snd (processFiles 3 new Examples.same_id) = Ok true /\
   mainSchema (fst (processFiles 3 new Examples.same_id)) =
     JObj [("$id", JStr "x"); ("title", JStr "second")]) /\
  (get Examples.no_items_doc "type" = Ok (Some (JStr "array")) /\
   get Examples.no_items_doc "items" = Ok (Some (JBool false)) /\
   mainSchema (fst (processFiles 3 new Examples.falsy_items)) = Examples.rows_doc).
Proof.
  split; [split; [|split; reflexivity] | repeat split; reflexivity].
  repeat constructor; intros [H _]; discriminate.
Qed.

Lemma strict_eq_null (d : value) : d <> JNull -> strict_eq d JNull = false.
Proof. destruct d; intros H; try reflexivity. contradiction. Qed.

Lemma collectKeywordUsage_ok (stack : nat) (this : Processor) (data : option TableData) :
  getTableData stack this = Ok data ->
  Forall (fun p => exists ks, keys (schema p) = Ok ks /\ NoDup ks) (rows_of data) ->
  snd (collectKeywordUsage stack this) = Ok tt.
Proof.
  intros Hdata Hkeys. unfold collectKeywordUsage. rewrite Hdata. fold (rows_of data).
  destruct (count_properties_spec (rows_of data) (keywordUsage this) Hkeys)
    as (usage & Hrun & _).
  now rewrite Hrun.
Qed.

(** What [processFiles] does with a single file that is not an array schema. *)
Lemma processFiles_alone (stack : nat) (this : Processor) (f : file) :
  document f <> JNull -> ~ qualifies (document f) ->
  processFiles stack this [f] =
  if truthy (document f) then
    (fst (collectKeywordUsage stack (loaded_alone f)),
     _ <- snd (collectKeywordUsage stack (loaded_alone f)) ;; Ok true)
  else (loaded_alone f, Ok true).
Proof.
  intros Hd Hq.
  rewrite (processFiles_loaded stack this [f]) by (constructor; [exact Hd | constructor]).
  assert (Hlast : last_qualifying [f] JNull = JNull).
  { apply last_qualifying_none. constructor; [exact Hq | constructor]. }
  rewrite Hlast. change (loaded [f] []) with [(identifier f, document f)].
  cbn [truthy negb andb List.length Nat.eqb first_value].
  now rewrite (strict_eq_null _ Hd).
Qed.

(** C6, as amended.  A single document that does not satisfy the predicate
    becomes the main schema whatever its shape.  [processFiles] then returns
    [true] when the document is falsy, and otherwise whatever the keyword
    collection over it allows: [true] when the collection completes, as it
    does when the table is extracted and every fragment has keys, and the
    exception of the collection when it throws. *)
Theorem single_document_fallback (stack : nat) (this : Processor) (f : file) :
  document f <> JNull -> ~ qualifies (document f) ->
  mainSchema (fst (processFiles stack this [f])) = document f /\
  (truthy (document f) = false -> snd (processFiles stack this [f]) = Ok true) /\
  (truthy (document f) = true ->
   snd (processFiles stack this [f]) =
   (_ <- snd (collectKeywordUsage stack (loaded_alone f)) ;; Ok true)) /\
  (forall data,
     getTableData stack (loaded_alone f) = Ok data ->
     Forall (fun p => exists ks, keys (schema p) = Ok ks /\ NoDup ks) (rows_of data) ->
     snd (processFiles stack this [f]) = Ok true).
Proof.
  intros Hd Hq. rewrite (processFiles_alone stack this f Hd Hq).
  split; [|split; [|split]].
  - destruct (truthy (document f)); [|reflexivity].
    cbn [fst]. apply collectKeywordUsage_fields.
  - now intros ->.
  - now intros ->.
  - intros data Hdata Hkeys. destruct (truthy (document f)); [|reflexivity].
    cbn [snd]. now rewrite (collectKeywordUsage_ok stack _ data Hdata Hkeys).
Qed.

(** C6, as amended, at a single document without [type]. *)
Lemma single_document_fallback_witness :
  mainSchema (fst (processFiles 2 new [Examples.untyped])) = document Examples.untyped /\
  snd (processFiles 2 new [Examples.untyped]) = Ok true.
Proof.
  assert (Hd : document Examples.untyped <> JNull) by discriminate.
  assert (Hq : ~ qualifies (document Examples.untyped)) by (intros [H _]; discriminate).
  destruct (single_document_fallback 2 new Examples.untyped Hd Hq) as (Hmain & _ & _ & Hok).
  split; [exact Hmain|].
  apply (Hok (Some {| title := JStr "Dataset Schema"; description := JStr "";
                      properties := [Property JNull "name"
                                        (JObj [("type", JStr "string")]) false] |})).
  - reflexivity.
  - repeat constructor. exists ["type"]. split; [reflexivity|].
    repeat constructor. intros [].
Defined.

(** When [items] is a reference that resolves, an exception of the
    extraction is the exception of [getTableData]. *)
Lemma getTableData_items_fail (stack : nat) (this : Processor)
    (items ref resolved : value) (e : error) :
  truthy (mainSchema this) = true ->
  get (mainSchema this) "items" = Ok (Some items) ->
  get items "$ref" = Ok (Some ref) -> truthy ref = true ->
  resolveRef (schemas this) ref (mainSchema this) = Ok resolved ->
  truthy resolved = true ->
  extractProperties stack (schemas this) resolved JNull = Exn e ->
  getTableData stack this = Exn e.
Proof.
  intros Hmain Hitems Href Ht Hres Hr Hex.
  assert (Hopt : get_opt (Some items) "$ref" = Some ref).
  { unfold get_opt. destruct items; try discriminate; now rewrite Href. }
  unfold getTableData. rewrite Hmain, Hitems. cbn [negb bind].
  rewrite Hopt. cbn [truthy_slot or_else]. rewrite Ht, Hres. cbn [bind truthy_slot].
  now rewrite Hr, Hex.
Qed.

(** C6 fails as stated: for a single document with a [null] fragment the
    keyword collection throws, and for a single document that refers to
    itself the extraction exhausts every stack; [processFiles] does not
    return [true]. *)
Lemma single_document_may_fail :
  ~ qualifies (document Examples.null_fragment) /\
  snd (processFiles 5 new [Examples.null_fragment]) = Exn TypeError /\
  ~ qualifies (document Examples.cyclic) /\
  ~ exists stack, snd (processFiles stack new [Examples.cyclic]) = Ok true.
Proof.
  split; [intros [H _]; discriminate|]. split; [reflexivity|].
  split; [intros [H _]; discriminate|].
  intros [stack Hrun].
  assert (Hd : document Examples.cyclic <> JNull) by discriminate.
  assert (Hq : ~ qualifies (document Examples.cyclic)) by (intros [H _]; discriminate).
  rewrite (processFiles_alone stack new Examples.cyclic Hd Hq) in Hrun.
  cbn [Examples.cyclic document Examples.cyclic_doc truthy snd] in Hrun.
  fold Examples.cyclic_doc in Hrun. fold Examples.cyclic in Hrun.
  assert (Hdata : getTableData stack (loaded_alone Examples.cyclic) = Exn RangeError).
  { apply (getTableData_items_fail stack (loaded_alone Examples.cyclic)
             (JObj [("$ref", JStr "x")]) (JStr "x") Examples.cyclic_doc);
      try reflexivity.
    apply cyclic_overflows. }
  unfold collectKeywordUsage in Hrun. rewrite Hdata in Hrun. discriminate.
Qed.

(** An induction principle that reaches the values inside arrays and objects. *)
Lemma value_nested_ind (P : value -> Prop) :
  P JNull -> (forall b, P (JBool b)) -> (forall z, P (JNum z)) -> (forall s, P (JStr s)) ->
  (forall l, Forall P l -> P (JArr l)) ->
  (forall members, Forall (fun kv => P (snd kv)) members -> P (JObj members)) ->
  forall v, P v.
Proof.
  intros Hnull Hbool Hnum Hstr Harr Hobj.
  fix IH 1. intros [| b | z | s | l | members].
  - exact Hnull.
  - apply Hbool.
  - apply Hnum.
  - apply Hstr.
  - apply Harr. induction l as [|x l IHl]; constructor; [apply IH | exact IHl].
  - apply Hobj. induction members as [|[k x] members IHm]; constructor;
      [apply IH | exact IHm].
Qed.

Lemma strict_eq_eq (a b : value) : strict_eq a b = true -> a = b.
Proof.
  revert b; induction a as [| x | x | x | l IHl | members IHm] using value_nested_ind;
    intros [| y | y | y | l' | members']; simpl; try discriminate; intros H.
  - reflexivity.
  - now rewrite (Bool.eqb_prop _ _ H).
  - apply Z.eqb_eq in H. now subst.
  - apply String.eqb_eq in H. now subst.
  - f_equal. revert l' H. induction IHl as [|x l Hx _ IH]; intros [|y l'] H;
      try discriminate; [reflexivity|].
    apply andb_true_iff in H. destruct H as [Hxy Hrest].
    f_equal; [now apply Hx | now apply IH].
  - f_equal. revert members' H.
    induction IHm as [|[k x] members Hx _ IH]; intros [|[k' y] members'] H;
      try discriminate; [reflexivity|].
    apply andb_true_iff in H. destruct H as [H Hrest].
    apply andb_true_iff in H. destruct H as [Hk Hxy].
    apply String.eqb_eq in Hk. subst k'.
    f_equal; [f_equal; now apply Hx | now apply IH].
Qed.

(** ** The CSV export *)

Lemma for_each_snoc_map {X Y Z : Type} (f : X -> outcome Y) (g : Y -> Z)
    (xs : list X) (acc : list Z) :
  for_each xs (fun acc x => y <- f x ;; Ok (acc ++ [g y])) acc =
  (ys <- map_outcome f xs ;; Ok (acc ++ map g ys)).
Proof.
  revert acc; induction xs as [|x xs IH]; intros acc; simpl.
  - now rewrite app_nil_r.
  - destruct (f x) as [y|e]; simpl; [|reflexivity].
    rewrite IH. destruct (map_outcome f xs); simpl; [|reflexivity].
    now rewrite <- app_assoc.
Qed.

Lemma map_array_outcome {X Y : Type} (f : X -> outcome Y) (xs : list X) :
  map_array f xs = map_outcome f xs.
Proof. induction xs as [|x xs IH]; simpl; [reflexivity | now rewrite IH]. Qed.

Lemma headers_fold (columns : list string) (acc : list slot) :
  fold_left (fun headers col => headers ++ [ColumnManager.display col]) columns acc =
  acc ++ map ColumnManager.display columns.
Proof.
  revert acc; induction columns as [|c columns IH]; intros acc; simpl.
  - now rewrite app_nil_r.
  - rewrite IH. now rewrite <- app_assoc.
Qed.

Lemma shown_category_snoc (so_far : list ExtractedProperty) (p : ExtractedProperty) :
  shown_category (so_far ++ [p]) =
  if truthy (category p) then category p else shown_category so_far.
Proof.
  unfold shown_category. rewrite rev_app_distr. simpl.
  now destruct (truthy (category p)).
Qed.

Lemma shown_category_shape (so_far : list ExtractedProperty) :
  shown_category so_far = JStr "" \/ truthy (shown_category so_far) = true.
Proof.
  unfold shown_category.
  destruct (find _ (rev so_far)) as [p|] eqn:Hf; [|now left].
  right. now apply find_some in Hf.
Qed.

(** One turn of the loop keeps [currentCategory] equal to the shown category. *)
Lemma current_category_step (so_far : list ExtractedProperty) (p : ExtractedProperty) :
  (if truthy (category p) && negb (strict_eq (category p) (shown_category so_far))
   then category p else shown_category so_far) = shown_category (so_far ++ [p]).
Proof.
  rewrite shown_category_snoc. destruct (truthy (category p)); [|reflexivity].
  simpl. destruct (strict_eq _ _) eqn:He; [|reflexivity].
  symmetry. now apply strict_eq_eq.
Qed.

Lemma or_else_shown (so_far : list ExtractedProperty) :
  or_else (Some (shown_category so_far)) (JStr "") = shown_category so_far.
Proof.
  destruct (shown_category_shape so_far) as [H|H]; simpl; rewrite H; [reflexivity|].
  reflexivity.
Qed.

Lemma push_row_spec (displayed columns : list string)
    (seen : list ExtractedProperty) (rows : list (list slot)) (p : ExtractedProperty) :
  push_row displayed columns (shown_category seen, rows) p =
  (cells <- map_outcome (cell displayed p) columns ;;
   Ok (shown_category (seen ++ [p]),
       rows ++ [Some (shown_category (seen ++ [p])) :: map Some cells])).
Proof.
  unfold push_row. rewrite current_category_step, or_else_shown.
  rewrite (for_each_snoc_map (cell displayed p) Some columns
             [Some (shown_category (seen ++ [p]))]).
  now destruct (map_outcome _ columns).
Qed.

Lemma rows_loop (displayed columns : list string) (props seen : list ExtractedProperty)
    (rows : list (list slot)) :
  for_each props (push_row displayed columns) (shown_category seen, rows) =
  (more <- csv_rows displayed columns seen props ;;
   Ok (shown_category (seen ++ props), rows ++ more)).
Proof.
  revert seen rows; induction props as [|p props IH]; intros seen rows.
  - simpl. now rewrite !app_nil_r.
  - cbn [for_each csv_rows]. rewrite push_row_spec.
    destruct (map_outcome _ columns) as [cells|]; cbn [bind]; [|reflexivity].
    rewrite IH. destruct (csv_rows _ _ _ props) as [more|]; cbn [bind]; [|reflexivity].
    now rewrite <- !app_assoc.
Qed.

Lemma has_unit_spec (c : ascii) (s : string) : has_unit c s = true <-> contains c s.
Proof.
  unfold contains. induction s as [|d s IH]; simpl.
  - split; [discriminate | intros []].
  - rewrite orb_true_iff, Ascii.eqb_eq, IH. tauto.
Qed.

Lemma has_unit_double_quotes (c : ascii) (s : string) :
  has_unit c (double_quotes s) = has_unit c s.
Proof.
  induction s as [|d s IH]; [reflexivity|].
  cbn [double_quotes has_unit].
  destruct (Ascii.eqb d quote) eqn:Hd; cbn [has_unit]; rewrite IH.
  - apply Ascii.eqb_eq in Hd. subst d. now destruct (Ascii.eqb quote c).
  - reflexivity.
Qed.

Lemma double_quotes_plain (s : string) : has_unit quote s = false -> double_quotes s = s.
Proof.
  induction s as [|d s IH]; [reflexivity|].
  cbn [double_quotes has_unit].
  destruct (Ascii.eqb d quote); cbn [orb]; [discriminate|].
  intros H. now rewrite IH.
Qed.

(** The replacement the code makes writes every double quote twice. *)
Lemma double_quotes_doubled (s : string) : double_quotes s = doubled s.
Proof.
  unfold doubled. induction s as [|d s IH]; [reflexivity|].
  cbn [double_quotes list_ascii_of_string flat_map].
  destruct (Ascii.eqb d quote); cbn [app string_of_list_ascii]; now rewrite IH.
Qed.

Lemma needs_quoting_units (s : string) :
  existsb (fun c => Ascii.eqb c newline || Ascii.eqb c "," || Ascii.eqb c quote)
          (list_ascii_of_string s) =
  has_unit newline s || has_unit "," s || has_unit quote s.
Proof.
  induction s as [|d s IH]; [reflexivity|].
  cbn [list_ascii_of_string existsb has_unit]. rewrite IH.
  destruct (Ascii.eqb d newline), (Ascii.eqb d ","), (Ascii.eqb d quote),
    (has_unit newline s), (has_unit "," s), (has_unit quote s); reflexivity.
Qed.

Lemma written_spec (s : string) :
  (needs_quoting s -> written s = (str quote ++ doubled s ++ str quote)%string) /\
  (~ needs_quoting s -> written s = s).
Proof.
  unfold written, needs_quoting. rewrite needs_quoting_units, <- !has_unit_spec.
  destruct (has_unit newline s), (has_unit "," s), (has_unit quote s); cbn [orb];
    (split; [intros _; reflexivity | intros H; exfalso; apply H; tauto]) ||
    (split; [intros [H|[H|H]]; discriminate | intros _; reflexivity]).
Qed.

Lemma format_cell_spec (c : slot) :
  (forall s, text c = Ok s -> format_cell c = Ok (written s)) /\
  (forall e, text c = Exn e -> format_cell c = Exn e).
Proof.
  unfold format_cell. split.
  - intros s ->. cbn [bind]. unfold written.
    rewrite !has_unit_double_quotes, needs_quoting_units.
    destruct (has_unit newline s || has_unit "," s || has_unit quote s) eqn:Hq.
    + now rewrite double_quotes_doubled.
    + apply orb_false_iff in Hq. now rewrite (double_quotes_plain s (proj2 Hq)).
  - now intros e ->.
Qed.

Lemma exportToCSV_rows (displayed : list string) (data : TableData)
    (selected : option (list string)) :
  exportToCSV displayed (Some data) selected =
  (rows <- csv_rows displayed (columns_of displayed selected) [] (properties data) ;;
   format_rows (header (columns_of displayed selected) :: rows)).
Proof.
  unfold exportToCSV. fold (columns_of displayed selected).
  rewrite headers_fold. change (JStr "") with (shown_category []).
  rewrite rows_loop. unfold header.
  now destruct (csv_rows _ _ _ _).
Qed.

(** C9, as amended.  The export is the header row and one row per
    property, each row its cells joined by commas, the rows joined by
    newlines; it throws when a cell cannot be turned into text.  The first
    cell of the header is [Category]; the first cell of a row is the
    category of the last row so far that has one, and the empty string only
    when no row so far has one.  A cell whose text contains a newline, a
    comma or a double quote is written between double quotes with each of
    its double quotes written twice; any other cell is written as it is. *)
Theorem exportToCSV_format (displayed : list string) (data : TableData)
    (selected : option (list string)) :
  exportToCSV displayed (Some data) selected =
    (rows <- csv_rows displayed (columns_of displayed selected) [] (properties data) ;;
     lines <- map_outcome
                (fun row => cells <- map_outcome format_cell row ;;
                            Ok (String.concat "," cells))
                (header (columns_of displayed selected) :: rows) ;;
     Ok (String.concat (str newline) lines)) /\
  hd_error (header (columns_of displayed selected)) = Some (Some (JStr "Category")) /\
  format_cell (Some (JStr "Category")) = Ok "Category" /\
  (forall c,
     (forall s, text c = Ok s -> format_cell c = Ok (written s)) /\
     (forall e, text c = Exn e -> format_cell c = Exn e)) /\
  (forall s,
     (needs_quoting s -> written s = (str quote ++ doubled s ++ str quote)%string) /\
     (~ needs_quoting s -> written s = s)) /\
  doubled (str quote) = (str quote ++ str quote)%string /\
  (forall s t, doubled (s ++ t) = (doubled s ++ doubled t)%string) /\
  (forall c, c <> quote -> doubled (str c) = str c) /\
  shown_category [] = JStr "" /\
  (forall so_far p,
     (truthy (category p) = true -> shown_category (so_far ++ [p]) = category p) /\
     (truthy (category p) = false ->
      shown_category (so_far ++ [p]) = shown_category so_far)).
Proof.
  split; [|split; [reflexivity | split; [reflexivity |
    split; [apply format_cell_spec | split; [apply written_spec |
    split; [reflexivity | split; [|split; [|split; [reflexivity|]]]]]]]]].
  - rewrite exportToCSV_rows. unfold format_rows.
    destruct (csv_rows _ _ _ _) as [rows|]; cbn [bind]; [|reflexivity].
    rewrite map_array_outcome. f_equal.
  - intros s t. unfold doubled. induction s as [|c s IH]; [reflexivity|].
    cbn [append list_ascii_of_string flat_map].
    destruct (Ascii.eqb c quote); cbn [app string_of_list_ascii append];
      now rewrite IH.
  - intros c Hc. unfold doubled. cbn [str list_ascii_of_string flat_map].
    apply Ascii.eqb_neq in Hc. now rewrite Hc.
  - intros so_far p. rewrite shown_category_snoc. split; now intros ->.
Qed.

(** C9 fails as stated: the row of [z], a property without category, shows
    the category [A] of the row above it, not the empty string; and a
    description that is an object with a member [toString] is a cell that
    cannot be written: the export throws. *)
Lemma category_is_sticky :
  exportToCSV ["name"]
    (Some {| title := JStr "T"; description := JStr "";
             properties := [Property (JStr "A") "x" (JObj []) false;
                            Property JNull "z" (JObj []) false] |})
    (Some ["name"]) =
  Ok (String.concat (str newline) ["Category,Variable Name"; "A,x"; "A,z"]) /\
  exportToCSV ["description"]
    (Some {| title := JStr "T"; description := JStr "";
             properties :=
               [Property JNull "x"
                  (JObj [("description", JObj [("toString", JNum 1)])]) false] |})
    (Some ["description"]) =
  Exn TypeError.
Proof. split; reflexivity. Qed.

(** C9, as amended, at a row whose description contains a comma and two
    double quotes. *)
Lemma exportToCSV_format_witness :
  exportToCSV ["name"; "description"]
    (Some {| title := JStr "T"; description := JStr "";
             properties :=
               [Property JNull "x"
                  (JObj [("description",
                          JStr ("a, " ++ str quote ++ "b" ++ str quote)%string)])
                  false] |})
    None =
  Ok (String.concat (str newline)
        ["Category,Variable Name,Description";
         (",x," ++ str quote ++ "a, " ++ str quote ++ str quote ++ "b"
            ++ str quote ++ str quote ++ str quote)%string]).
Proof.
  rewrite (proj1 (exportToCSV_format ["name"; "description"]
                    {| title := JStr "T"; description := JStr "";
                       properties :=
                         [Property JNull "x"
                            (JObj [("description",
                                    JStr ("a, " ++ str quote ++ "b" ++ str quote)%string)])
                            false] |}
                    None)).
  reflexivity.
Defined.

(** * Further properties of the code *)

Import ColumnManager Examples.

(** ** Keyword statistics *)
Section Stats.

Lemma insert_sorted_perm (x : string * nat) (l : list (string * nat)) :
  Permutation (x :: l) (insert_sorted by_count x l).
Proof.
  induction l as [|y l IH]; simpl; [reflexivity|].
  destruct (0 <? by_count y x)%Z; [reflexivity|].
  rewrite perm_swap. now constructor.
Qed.

Lemma insert_sorted_descending (x : string * nat) (l : list (string * nat)) :
  Sorted descending l -> Sorted descending (insert_sorted by_count x l).
Proof.
  induction l as [|y l IH]; intros Hs; simpl.
  - repeat constructor.
  - unfold by_count at 1. destruct (0 <? _)%Z eqn:Hc.
    + constructor; [exact Hs|]. constructor. unfold descending.
      apply Z.ltb_lt in Hc. lia.
    + apply Z.ltb_ge in Hc. inversion Hs as [|? ? Hl Hhd]; subst.
      constructor; [now apply IH|].
      destruct l as [|z l]; simpl.
      * constructor. unfold descending. lia.
      * unfold by_count at 1. destruct (0 <? _)%Z; constructor.
        -- unfold descending. lia.
        -- now inversion Hhd.
Qed.

(** Among entries of one count, an insertion puts the new one last. *)
Lemma insert_sorted_stable (n : nat) (x : string * nat) (l : list (string * nat)) :
  Sorted descending l ->
  filter (fun e => snd e =? n)%nat (insert_sorted by_count x l) =
  filter (fun e => snd e =? n)%nat l ++ filter (fun e => snd e =? n)%nat [x].
Proof.
  induction l as [|y l IH]; intros Hs; [reflexivity|].
  cbn [insert_sorted]. unfold by_count at 1.
  destruct (0 <? _)%Z eqn:Hc.
  - (* x goes first: everything in [y :: l] has a smaller count than x *)
    apply Z.ltb_lt in Hc.
    apply Sorted_StronglySorted in Hs; [|intros a b c; unfold descending; lia].
    inversion Hs as [|? ? Hl Hall]; subst.
    cbn [filter]. destruct (snd x =? n)%nat eqn:Hx; [|now rewrite app_nil_r].
    apply Nat.eqb_eq in Hx.
    assert (Hnone : filter (fun e => snd e =? n)%nat (y :: l) = []).
    { cbn [filter].
      assert (Hy : (snd y =? n)%nat = false) by (apply Nat.eqb_neq; lia).
      rewrite Hy. clear IH Hs Hl Hy.
      induction Hall as [|z l Hz Hrest IHl]; [reflexivity|].
      cbn [filter].
      assert (Hzn : (snd z =? n)%nat = false).
      { apply Nat.eqb_neq. unfold descending in Hz. lia. }
      rewrite Hzn. exact IHl. }
    cbn [filter] in Hnone. now rewrite Hnone.
  - inversion Hs; subst. cbn [filter].
    destruct (snd y =? n)%nat; rewrite IH by assumption; reflexivity.
Qed.

Lemma sort_from (usage acc : list (string * nat)) :
  Sorted descending acc ->
  let r := fold_left (fun sorted x => insert_sorted by_count x sorted) usage acc in
  Sorted descending r /\ Permutation r (acc ++ usage) /\
  forall n, filter (fun e => snd e =? n)%nat r =
            filter (fun e => snd e =? n)%nat acc ++ filter (fun e => snd e =? n)%nat usage.
Proof.
  revert acc; induction usage as [|x usage IH]; intros acc Hacc; cbn [fold_left].
  - split; [exact Hacc|]. split; [now rewrite app_nil_r|].
    intros n. now rewrite app_nil_r.
  - destruct (IH (insert_sorted by_count x acc) (insert_sorted_descending x acc Hacc))
      as (Hs & Hp & Hst).
    split; [exact Hs|]. split.
    + etransitivity; [exact Hp|].
      etransitivity; [apply Permutation_app_tail; symmetry; apply insert_sorted_perm|].
      simpl. apply Permutation_middle.
    + intros n. rewrite Hst, (insert_sorted_stable n x acc Hacc), <- app_assoc.
      f_equal. cbn [filter]. now destruct (snd x =? n)%nat.
Qed.

End Stats.

(** X1.  [getKeywordUsageStats] lists the entries of the keyword counts, each
    once, in descending order of count; entries of equal count keep the
    order in which the counts hold them. *)
Theorem getKeywordUsageStats_sorted (this : Processor) :
  Permutation (getKeywordUsageStats this) (keywordUsage this) /\
  Sorted descending (getKeywordUsageStats this) /\
  forall n, filter (fun e => snd e =? n)%nat (getKeywordUsageStats this) =
            filter (fun e => snd e =? n)%nat (keywordUsage this).
Proof.
  destruct (sort_from (keywordUsage this) [] (Sorted_nil _)) as (Hs & Hp & Hst).
  unfold getKeywordUsageStats, sort. fold by_count.
  change (fun a b : string * nat => by_count a b) with by_count.
  split; [exact Hp|]. split; [exact Hs|]. exact Hst.
Qed.

(** ** The store of documents *)
Section Store.

Lemma same_value_zero_eq (a b : value) : same_value_zero a b = true -> a = b.
Proof.
  destruct a, b; simpl; try discriminate; intros H.
  - reflexivity.
  - now apply Bool.eqb_prop in H; subst.
  - now apply Z.eqb_eq in H; subst.
  - now apply String.eqb_eq in H; subst.
Qed.

Lemma schemas_get_set (m : store) (k v k' : value) :
  schemas_get (schemas_set m k v) k' =
  if same_value_zero k k' then Some v else schemas_get m k'.
Proof.
  unfold schemas_get, schemas_set.
  induction m as [|[k0 v0] m IH]; cbn [map_set map_get].
  - reflexivity.
  - destruct (same_value_zero k0 k) eqn:H0; cbn [map_get].
    + apply same_value_zero_eq in H0; subst k0.
      now destruct (same_value_zero k k').
    + rewrite IH. destruct (same_value_zero k0 k') eqn:H1; [|reflexivity].
      destruct (same_value_zero k k') eqn:H2; [|reflexivity].
      pose proof (same_value_zero_eq _ _ H1). pose proof (same_value_zero_eq _ _ H2).
      subst. congruence.
Qed.

Lemma schemas_set_keys (m : store) (k v : value) :
  map fst (schemas_set m k v) =
  if existsb (fun k' => same_value_zero k' k) (map fst m) then map fst m
  else map fst m ++ [k].
Proof.
  unfold schemas_set.
  induction m as [|[k0 v0] m IH]; cbn [map_set map existsb fst app]; [reflexivity|].
  destruct (same_value_zero k0 k); cbn [map fst orb]; [reflexivity|].
  rewrite IH. now destruct (existsb _ (map fst m)).
Qed.

Lemma schemas_set_values (m : store) (k v : value) (e : value * value) :
  In e (schemas_set m k v) -> In e m \/ e = (k, v).
Proof.
  unfold schemas_set.
  induction m as [|[k0 v0] m IH]; cbn [map_set].
  - intros [<-|[]]. now right.
  - destruct (same_value_zero k0 k) eqn:H0.
    + apply same_value_zero_eq in H0; subst k0.
      intros [<-|H]; [now right | left; now right].
    + intros [<-|H]; [left; now left|].
      destruct (IH H) as [H'|H']; [left; now right | now right].
Qed.

Lemma loaded_get (files : list file) (m : store) (k : value) :
  schemas_get (loaded files m) k =
  match last_loaded files k with
  | Some f => Some (document f)
  | None => schemas_get m k
  end.
Proof.
  unfold last_loaded, loaded. revert m; induction files as [|f files IH]; intros m.
  - reflexivity.
  - cbn [fold_left rev]. rewrite IH, schemas_get_set.
    assert (Hfind : forall l,
      find (fun f0 => same_value_zero (identifier f0) k) (l ++ [f]) =
      match find (fun f0 => same_value_zero (identifier f0) k) l with
      | Some x => Some x
      | None => if same_value_zero (identifier f) k then Some f else None
      end).
    { induction l as [|x l IHl]; cbn [app find]; [reflexivity|].
      now destruct (same_value_zero (identifier x) k). }
    rewrite Hfind. destruct (find _ (rev files)); [reflexivity|].
    now destruct (same_value_zero (identifier f) k).
Qed.

Lemma loaded_keys (files : list file) (m : store) :
  map fst (loaded files m) =
  fold_left
    (fun acc k => if existsb (fun k' => same_value_zero k' k) acc then acc else acc ++ [k])
    (map identifier files) (map fst m).
Proof.
  unfold loaded. revert m; induction files as [|f files IH]; intros m; [reflexivity|].
  cbn [fold_left map]. now rewrite IH, schemas_set_keys.
Qed.

Lemma loaded_values (files : list file) (m : store) (e : value * value) :
  In e (loaded files m) ->
  In e m \/ exists f, In f files /\ e = (identifier f, document f).
Proof.
  unfold loaded. revert m; induction files as [|f files IH]; intros m; cbn [fold_left].
  - now left.
  - intros H. destruct (IH _ H) as [H'|(g & Hg & ->)].
    + destruct (schemas_set_values _ _ _ _ H') as [Hm| ->]; [now left|].
      right. exists f. split; [now left | reflexivity].
    + right. exists g. split; [now right | reflexivity].
Qed.

Lemma load_ok (state state' : store * value) (f : file) :
  load state f = Ok state' -> document f <> JNull.
Proof.
  destruct state as [m main]. unfold load. intros H Hd. rewrite Hd in H. discriminate.
Qed.

Lemma load_all_ok (files : list file) (state : store * value) :
  snd (load_all files state) = Ok tt -> Forall (fun f => document f <> JNull) files.
Proof.
  revert state; induction files as [|f files IH]; intros state H; [constructor|].
  cbn [load_all] in H. destruct (load state f) as [state'|e] eqn:Hl; [|discriminate].
  constructor; [exact (load_ok _ _ _ Hl) | exact (IH _ H)].
Qed.

Lemma processFiles_ok (stack : nat) (this : Processor) (files : list file) (b : bool) :
  snd (processFiles stack this files) = Ok b ->
  Forall (fun f => document f <> JNull) files.
Proof.
  intros H. apply (load_all_ok files ([], JNull)).
  unfold processFiles in H. unfold store in *.
  destruct (load_all files ([], JNull)) as [[m main] [[]|e]]; [reflexivity|].
  discriminate.
Qed.

Lemma processFiles_schemas (stack : nat) (this : Processor) (files : list file) :
  Forall (fun f => document f <> JNull) files ->
  schemas (fst (processFiles stack this files)) = loaded files [].
Proof.
  intros H. rewrite (processFiles_loaded stack this files H).
  match goal with |- context [if truthy ?m then _ else _] => destruct (truthy m) end;
    [|reflexivity].
  cbn [fst]. now rewrite (proj1 (collectKeywordUsage_fields _ _)).
Qed.

End Store.

(** X2.  When no document is [null], the store that [processFiles] leaves
    holds under a key the document of the last file loaded under it. *)
Theorem store_last_wins (stack : nat) (this : Processor) (files : list file) (k : value) :
  Forall (fun f => document f <> JNull) files ->
  schemas_get (schemas (fst (processFiles stack this files))) k =
  option_map document (last_loaded files k).
Proof.
  intros H. rewrite (processFiles_schemas stack this files H), loaded_get.
  now destruct (last_loaded files k).
Qed.

Lemma store_last_wins_witness :
  schemas_get (schemas (fst (processFiles 5 new reloaded))) (JStr "s") =
  Some (JObj [("$id", JStr "s"); ("title", JStr "second")]).
Proof.
  rewrite (store_last_wins 5 new reloaded (JStr "s")); [reflexivity|].
  repeat constructor; discriminate.
Defined.

(** X3.  When no document is [null], the keys of the store are the
    identifiers of the files, each where it was first loaded, and every
    entry is the identifier and the document of one file. *)
Theorem store_keys (stack : nat) (this : Processor) (files : list file) :
  Forall (fun f => document f <> JNull) files ->
  map fst (schemas (fst (processFiles stack this files))) =
    first_occurrences (map identifier files) /\
  (forall k d, In (k, d) (schemas (fst (processFiles stack this files))) ->
     exists f, In f files /\ k = identifier f /\ d = document f).
Proof.
  intros H. rewrite (processFiles_schemas stack this files H). split.
  - apply (loaded_keys files []).
  - intros k d Hin. destruct (loaded_values files [] _ Hin) as [[]|(f & Hf & E)].
    exists f. inversion E. auto.
Qed.

Lemma store_keys_witness :
  map fst (schemas (fst (processFiles 5 new reloaded))) = [JStr "s"; JStr "b.json"].
Proof.
  rewrite (proj1 (store_keys 5 new reloaded
                    ltac:(repeat constructor; discriminate))).
  reflexivity.
Defined.

(** ** The outcome of [processFiles] *)
Section Outcome.

Lemma last_qualifying_cases (files : list file) (main : value) :
  (existsb (fun f => qualifiesb (document f)) files = false /\
   last_qualifying files main = main) \/
  (existsb (fun f => qualifiesb (document f)) files = true /\
   qualifiesb (last_qualifying files main) = true).
Proof.
  unfold last_qualifying.
  revert main; induction files as [|f files IH]; intros main; cbn [fold_left existsb].
  - now left.
  - destruct (qualifiesb (document f)) eqn:Hq; cbn [orb].
    + right. split; [reflexivity|].
      destruct (IH (document f)) as [[_ ->]|[_ H]]; [exact Hq | exact H].
    + destruct (IH main) as [[H1 H2]|[H1 H2]]; [left | right]; now split.
Qed.

Lemma count_properties_ok (props : list ExtractedProperty) (usage : list (string * nat)) :
  snd (count_properties props usage) = Ok tt ->
  Forall (fun p => schema p <> JNull) props.
Proof.
  revert usage; induction props as [|p props IH]; intros usage H; [constructor|].
  rewrite count_properties_cons in H.
  destruct (keys (schema p)) as [ks|e] eqn:Hk; [|discriminate].
  constructor; [|exact (IH _ H)].
  intros Hn. rewrite Hn in Hk. discriminate.
Qed.

(** What a successful [processFiles] leaves. *)
Lemma processFiles_success (stack : nat) (this : Processor) (files : list file) (b : bool) :
  snd (processFiles stack this files) = Ok b ->
  let this' := fst (processFiles stack this files) in
  exists data,
    getTableData stack this' = Ok data /\
    count_properties (rows_of data) [] = (keywordUsage this', Ok tt).
Proof.
  intros Hok. pose proof (processFiles_ok stack this files b Hok) as Hd.
  cbv zeta. rewrite (processFiles_loaded stack this files Hd) in *. cbv zeta in *.
  set (main' := if negb (truthy (last_qualifying files JNull)) &&
                   (List.length (loaded files []) =? 1)%nat
                then first_value (loaded files [])
                else last_qualifying files JNull) in *.
  destruct (truthy main') eqn:Ht.
  - cbn [fst snd] in *. unfold collectKeywordUsage in *.
    destruct (getTableData stack _) as [data|e] eqn:Hdata; [|discriminate].
    exists data. fold (rows_of data) in *. cbn [keywordUsage schemas mainSchema] in *.
    destruct (count_properties (rows_of data) []) as [usage r] eqn:Hc.
    cbn [fst snd keywordUsage] in *. split; [exact Hdata|].
    destruct r as [[]|e]; [reflexivity | discriminate].
  - exists None. cbn [fst]. split; [|reflexivity].
    unfold getTableData. cbn [mainSchema]. now rewrite Ht.
Qed.

End Outcome.

(** X4.  When [processFiles] returns, it returns [true] exactly when a
    document is an array schema with truthy [items] or the store holds one
    entry; so it returns [true] for a lone document that is [false], for
    which [getTableData] is [null]. *)
Theorem processFiles_result (stack : nat) (this : Processor) (files : list file)
    (b : bool) :
  snd (processFiles stack this files) = Ok b ->
  b = existsb (fun f => qualifiesb (document f)) files ||
      (List.length (schemas (fst (processFiles stack this files))) =? 1)%nat.
Proof.
  intros Hok. pose proof (processFiles_ok stack this files b Hok) as Hd.
  rewrite (processFiles_schemas stack this files Hd).
  rewrite (processFiles_loaded stack this files Hd) in Hok. cbv zeta in Hok.
  assert (Hb : forall main',
    snd (if truthy main'
         then (fst (collectKeywordUsage stack
                 {| schemas := loaded files []; mainSchema := main'; keywordUsage := [] |}),
               _ <- snd (collectKeywordUsage stack
                 {| schemas := loaded files []; mainSchema := main'; keywordUsage := [] |}) ;;
               Ok (negb (strict_eq main' JNull)))
         else ({| schemas := loaded files []; mainSchema := main'; keywordUsage := [] |},
               Ok (negb (strict_eq main' JNull)))) = Ok b ->
    b = negb (strict_eq main' JNull)).
  { intros main'. destruct (truthy main'); cbn [snd].
    - match goal with |- context [bind ?c _] => destruct c end; cbn [bind];
        [congruence | discriminate].
    - congruence. }
  apply Hb in Hok. subst b.
  destruct (last_qualifying_cases files JNull) as [[He Hl]|[He Hq]]; rewrite He;
    [rewrite Hl|]; cbn [orb truthy negb andb].
  - clear Hl. destruct (List.length (loaded files []) =? 1)%nat eqn:Hlen; [|reflexivity].
    destruct (loaded files []) as [|[k d] rest] eqn:Hl; [discriminate|].
    cbn [first_value]. rewrite strict_eq_null; [reflexivity|].
    destruct (loaded_values files [] (k, d)) as [[]|(f & Hf & E)].
    + rewrite Hl. now left.
    + inversion E; subst. exact (proj1 (Forall_forall _ _) Hd f Hf).
  - apply qualifiesb_spec in Hq. pose proof (qualifies_truthy _ Hq) as Ht.
    rewrite Ht. cbn [negb andb].
    now rewrite (strict_eq_null _ (truthy_not_null _ Ht)).
Qed.

Lemma processFiles_result_witness :
  true = existsb (fun f => qualifiesb (document f)) lone_false ||
         (List.length (schemas (fst (processFiles 5 new lone_false))) =? 1)%nat /\
  getTableData 5 (fst (processFiles 5 new lone_false)) = Ok None.
Proof.
  split; [|reflexivity].
  apply (processFiles_result 5 new lone_false true). reflexivity.
Defined.

(** X5.  After [processFiles] has returned, [getTableData] returns without
    an exception, the keyword counts are those of its rows, counted from
    nothing, and no row has the fragment [null]. *)
Theorem processFiles_consistent (stack : nat) (this : Processor) (files : list file)
    (b : bool) :
  snd (processFiles stack this files) = Ok b ->
  exists data,
    getTableData stack (fst (processFiles stack this files)) = Ok data /\
    count_properties (rows_of data) [] =
      (keywordUsage (fst (processFiles stack this files)), Ok tt) /\
    Forall (fun p => schema p <> JNull) (rows_of data).
Proof.
  intros Hok. destruct (processFiles_success stack this files b Hok) as (data & Hd & Hc).
  exists data. split; [exact Hd|]. split; [exact Hc|].
  apply (count_properties_ok (rows_of data) []). now rewrite Hc.
Qed.

Lemma processFiles_consistent_witness :
  exists data,
    getTableData 5 (fst (processFiles 5 new people)) = Ok data /\
    count_properties (rows_of data) [] =
      (keywordUsage (fst (processFiles 5 new people)), Ok tt) /\
    Forall (fun p => schema p <> JNull) (rows_of data).
Proof.
  apply (processFiles_consistent 5 new people true). reflexivity.
Defined.

(** ** References *)
Section Lookup.

Lemma unprobed_absent (ref : string) (schemas : store) :
  find (probed ref) schemas = None -> schemas_get schemas (JStr ref) = None.
Proof.
  unfold schemas_get.
  induction schemas as [|[k d] schemas IH]; cbn [find map_get]; [reflexivity|].
  destruct (probed ref (k, d)) eqn:Hp; [discriminate|].
  intros Hf. destruct (same_value_zero k (JStr ref)) eqn:Hs; [|exact (IH Hf)].
  destruct k; try discriminate. cbn [same_value_zero] in Hs.
  apply String.eqb_eq in Hs; subst.
  unfold probed in Hp. cbn [fst] in Hp. rewrite endsWith_refl in Hp. discriminate.
Qed.

End Lookup.

(** X6.  For an external reference into a store of string identifiers,
    [resolveRef] gives the document of the first entry whose identifier
    ends the reference or is ended by it, and [null] when there is none: the
    lookup of the reference as a key, made after the scan, finds nothing. *)
Theorem resolveRef_external_first (schemas : store) (ref : string) (base : value) :
  startsWith ref "#" = false -> Forall string_key schemas ->
  resolveRef schemas (JStr ref) base =
  Ok (match find (probed ref) schemas with
      | Some e => snd e
      | None => JNull
      end) /\
  (find (probed ref) schemas = None -> schemas_get schemas (JStr ref) = None).
Proof.
  intros Hs Hk. split; [|apply unprobed_absent].
  rewrite (resolveRef_external_eq schemas ref base Hs Hk).
  destruct (find (probed ref) schemas) eqn:Hf; [reflexivity|].
  now rewrite (unprobed_absent ref schemas Hf).
Qed.

Lemma resolveRef_external_first_witness :
  resolveRef two_schemas (JStr "address.json") (JObj []) = Ok JNull.
Proof.
  apply (proj1 (resolveRef_external_first two_schemas "address.json" (JObj [])
                  eq_refl
                  ltac:(repeat constructor; eexists; reflexivity))).
Defined.

(** X7.  For an internal reference whose walk stays in the document, and a
    base that is an array or an object: a truthy result is the value at the
    end of the path, reached through own members of the base; the path is
    not empty, so the result lies strictly inside the base and is never the
    base itself. *)
Theorem resolveRef_internal_inside (schemas : store) (ref : string) (base r : value) :
  startsWith ref "#" = true -> is_container base ->
  stays base (split "/" (substring 2 ref)) ->
  resolveRef schemas (JStr ref) base = Ok r -> truthy r = true ->
  Spec.at_path base (split "/" (substring 2 ref)) = Some r /\
  split "/" (substring 2 ref) <> [] /\
  height r < height base /\ r <> base.
Proof.
  intros Hs Hc Hplain Hr Ht.
  assert (Hbase : base <> JNull) by (intros ->; exact Hc).
  assert (Hlt : height r < height base).
  { apply (height_resolved (JStr ref) base r Hc); [|exact Ht].
    rewrite resolveRef_internal_eq in * by exact Hs. exact Hr. }
  split; [|split; [apply split_nonempty | split; [exact Hlt | intros ->; lia]]].
  rewrite (resolveRef_internal_eq schemas ref base Hs) in Hr.
  destruct (descend_walk (split "/" (substring 2 ref)) base Hbase Hplain)
    as [(r' & Hloop & Hat & _) | (Hloop & _)]; rewrite Hloop in Hr; cbn [bind] in Hr;
    inversion Hr; subst; [exact Hat | discriminate].
Qed.

Lemma resolveRef_internal_inside_witness :
  Spec.at_path with_definitions ["definitions"; "address"] =
    Some (JObj [("title", JStr "Address");
                ("properties", JObj [("street", JObj [("type", JStr "string")])])]) /\
  height (JObj [("title", JStr "Address");
                ("properties", JObj [("street", JObj [("type", JStr "string")])])])
    < height with_definitions.
Proof.
  destruct (resolveRef_internal_inside [] "#/definitions/address" with_definitions _
              eq_refl I ltac:(cbn; auto) eq_refl eq_refl)
    as (Hat & _ & Hlt & _).
  split; [exact Hat | exact Hlt].
Defined.

Lemma extractProperties_stack_witness :
  extractProperties (4 + 10) [] with_definitions JNull =
  extractProperties 4 [] with_definitions JNull.
Proof.
  apply (extractProperties_stack 4 10 [] with_definitions JNull). discriminate.
Defined.

Lemma extractProperties_terminates_witness :
  (exists rows, extractProperties 6 [] with_definitions JNull = Ok rows) \/
  extractProperties 6 [] with_definitions JNull = Exn TypeError \/
  extractProperties 6 [] with_definitions JNull = Exn Host.
Proof.
  apply (extractProperties_terminates 6 with_definitions JNull). vm_compute. lia.
Defined.

(** ** The selection of columns *)
Section Columns.

Lemma remove_at_length {A : Type} (i : nat) (l : list A) :
  i < List.length l -> List.length (remove_at i l) = List.length l - 1.
Proof.
  intros H. unfold remove_at. rewrite length_app, length_firstn, length_skipn. lia.
Qed.

Lemma removed_nth {A : Type} (i : nat) (l : list (option A)) :
  i < List.length l ->
  match firstn 1 (skipn i l) with x :: _ => x | [] => None end = nth i l None.
Proof.
  revert i; induction l as [|x l IH]; intros i Hi; [simpl in Hi; lia|].
  destruct i as [|i]; [reflexivity|].
  cbn [skipn nth]. apply IH. simpl in Hi. lia.
Qed.

Lemma moveColumn_in_range {A : Type} (i j : nat) (l : list (option A)) :
  i < List.length l -> j < List.length l -> i <> j ->
  moveColumn (Z.of_nat i) (Z.of_nat j) l =
  firstn j (remove_at i l) ++ nth i l None :: skipn j (remove_at i l).
Proof.
  intros Hi Hj Hne. unfold moveColumn, splice, splice_start.
  destruct (Z.of_nat i =? Z.of_nat j)%Z eqn:E; [apply Z.eqb_eq in E; lia|].
  assert ((Z.of_nat i <? 0)%Z = false) as -> by (apply Z.ltb_ge; lia).
  assert ((Z.of_nat j <? 0)%Z = false) as -> by (apply Z.ltb_ge; lia).
  rewrite !Nat2Z.id. rewrite (Nat.min_l i) by lia.
  rewrite (removed_nth i l Hi).
  cbn [app]. rewrite skipn_skipn. cbn [Nat.add]. fold (remove_at i l).
  rewrite (remove_at_length i l Hi), (Nat.min_l j) by lia.
  reflexivity.
Qed.

Lemma split_at {A : Type} (i : nat) (l : list (option A)) :
  i < List.length l -> l = firstn i l ++ nth i l None :: skipn (S i) l.
Proof.
  revert i; induction l as [|x l IH]; intros i Hi; [simpl in Hi; lia|].
  destruct i as [|i]; [reflexivity|].
  cbn [firstn skipn app nth]. f_equal. apply IH. simpl in Hi. lia.
Qed.

Lemma insert_remove {A : Type} (i : nat) (l : list (option A)) :
  i < List.length l ->
  firstn i (remove_at i l) ++ nth i l None :: skipn i (remove_at i l) = l.
Proof.
  revert i; induction l as [|x l IH]; intros i Hi; [simpl in Hi; lia|].
  destruct i as [|i]; [reflexivity|].
  unfold remove_at in *. cbn [firstn skipn app nth]. f_equal.
  apply IH. simpl in Hi. lia.
Qed.

Lemma remove_inserted {A : Type} (j : nat) (x : A) (l : list A) :
  j <= List.length l -> remove_at j (firstn j l ++ x :: skipn j l) = firstn j l ++ skipn j l.
Proof.
  intros Hj. unfold remove_at.
  assert (Hlen : List.length (firstn j l) = j) by (rewrite length_firstn; lia).
  rewrite firstn_app, Hlen, Nat.sub_diag, firstn_O, app_nil_r.
  rewrite firstn_all2 by lia.
  rewrite skipn_app, Hlen.
  rewrite (skipn_all2 (firstn j l)) by lia.
  replace (S j - j) with 1 by lia. reflexivity.
Qed.

Lemma nth_inserted {A : Type} (j : nat) (x : A) (l : list A) :
  j <= List.length l -> nth_error (firstn j l ++ x :: skipn j l) j = Some x.
Proof.
  intros Hj.
  assert (Hlen : List.length (firstn j l) = j) by (rewrite length_firstn; lia).
  rewrite nth_error_app2 by lia. now rewrite Hlen, Nat.sub_diag.
Qed.

End Columns.

(** X10.  [moveColumn] between two indices of the selection keeps its
    length and its elements; the column that was at [fromIndex] is at
    [toIndex], and the other columns keep their order. *)
Theorem moveColumn_moves {A : Type} (i j : nat) (l : list (option A)) :
  i < List.length l -> j < List.length l ->
  let moved := moveColumn (Z.of_nat i) (Z.of_nat j) l in
  List.length moved = List.length l /\
  nth_error moved j = nth_error l i /\
  remove_at j moved = remove_at i l /\
  Permutation moved l.
Proof.
  intros Hi Hj. cbv zeta.
  destruct (Nat.eq_dec i j) as [<-|Hne].
  - unfold moveColumn. rewrite Z.eqb_refl. repeat split; reflexivity.
  - rewrite (moveColumn_in_range i j l Hi Hj Hne).
    pose proof (remove_at_length i l Hi) as Hlen.
    assert (Hj' : j <= List.length (remove_at i l)) by lia.
    assert (Hnth : nth_error l i = Some (nth i l None)) by now apply nth_error_nth'.
    repeat split.
    + rewrite length_app. cbn [List.length]. rewrite length_firstn, length_skipn. lia.
    + rewrite Hnth. now apply nth_inserted.
    + rewrite (remove_inserted j _ _ Hj'). apply firstn_skipn.
    + etransitivity; [symmetry; apply Permutation_middle|].
      rewrite firstn_skipn. rewrite (split_at i l Hi) at 3.
      apply Permutation_middle.
Qed.

Lemma moveColumn_moves_witness :
  moveColumn 0 3 five =
  [Some "description"; Some "type"; Some "enum"; Some "name"; Some "required"] /\
  Permutation (moveColumn 0 3 five) five.
Proof.
  split; [reflexivity|].
  apply (moveColumn_moves 0 3 five); simpl; lia.
Defined.

(** X11.  Moving a column back gives the selection there was. *)
Theorem moveColumn_back {A : Type} (i j : nat) (l : list (option A)) :
  i < List.length l -> j < List.length l ->
  moveColumn (Z.of_nat j) (Z.of_nat i) (moveColumn (Z.of_nat i) (Z.of_nat j) l) = l.
Proof.
  intros Hi Hj. destruct (Nat.eq_dec i j) as [<-|Hne].
  - unfold moveColumn. now rewrite Z.eqb_refl.
  - pose proof (remove_at_length i l Hi) as Hlen.
    assert (Hj' : j <= List.length (remove_at i l)) by lia.
    rewrite (moveColumn_in_range i j l Hi Hj Hne).
    set (moved := firstn j (remove_at i l) ++ nth i l None :: skipn j (remove_at i l)).
    assert (Hm : List.length moved = List.length l).
    { unfold moved. rewrite length_app. cbn [List.length].
      rewrite length_firstn, length_skipn. lia. }
    rewrite (moveColumn_in_range j i moved) by lia.
    assert (Hr : remove_at j moved = remove_at i l).
    { unfold moved. rewrite (remove_inserted j _ _ Hj'). apply firstn_skipn. }
    assert (Hx : nth j moved None = nth i l None).
    { apply nth_error_nth. unfold moved. now apply nth_inserted. }
    rewrite Hr, Hx. now apply insert_remove.
Qed.

Lemma moveColumn_back_witness : moveColumn 3 0 (moveColumn 0 3 five) = five.
Proof. apply (moveColumn_back 0 3 five); simpl; lia. Defined.

(** X12.  [moveColumn] from an index past the end removes nothing and
    inserts [undefined]: the selection grows by one. *)
Theorem moveColumn_from_nowhere {A : Type} (fromIndex toIndex : Z)
    (l : list (option A)) :
  (Z.of_nat (List.length l) <= fromIndex)%Z -> fromIndex <> toIndex ->
  exists n, n <= List.length l /\
    moveColumn fromIndex toIndex l = firstn n l ++ None :: skipn n l.
Proof.
  intros Hfrom Hne. unfold moveColumn, splice.
  destruct (fromIndex =? toIndex)%Z eqn:E; [apply Z.eqb_eq in E; contradiction|].
  assert (Hs : splice_start (List.length l) fromIndex = List.length l).
  { unfold splice_start.
    assert ((fromIndex <? 0)%Z = false) as -> by (apply Z.ltb_ge; lia).
    apply Nat.min_r. lia. }
  rewrite Hs, skipn_all, firstn_all. cbn [firstn skipn app]. rewrite app_nil_r.
  exists (splice_start (List.length l) toIndex). split; [|reflexivity].
  unfold splice_start. destruct (toIndex <? 0)%Z eqn:Hneg; [|lia].
  apply Z.ltb_lt in Hneg. lia.
Qed.

Lemma moveColumn_from_nowhere_witness :
  exists n, n <= List.length five /\
    moveColumn 5 1 five = firstn n five ++ None :: skipn n five.
Proof. apply (moveColumn_from_nowhere 5 1 five); [simpl; lia | lia]. Defined.

(** ** The reset of the order and the checkboxes *)
Section Selection.

Lemma mem_In (x : string) (l : list string) :
  existsb (String.eqb x) l = true <-> In x l.
Proof.
  rewrite existsb_exists. split.
  - intros (y & Hy & E). apply String.eqb_eq in E. now subst.
  - intros H. exists x. split; [exact H | apply String.eqb_refl].
Qed.

Lemma set_of_from (l acc : list string) :
  NoDup acc ->
  let set := fold_left
    (fun set x => if existsb (String.eqb x) set then set else set ++ [x]) l acc in
  NoDup set /\ (forall x, In x set <-> In x acc \/ In x l) /\
  (NoDup (acc ++ l) -> set = acc ++ l).
Proof.
  cbv zeta. revert acc; induction l as [|y l IH]; intros acc Hacc; cbn [fold_left].
  - split; [exact Hacc|]. split; [intros x; cbn [In]; tauto | now rewrite app_nil_r].
  - destruct (existsb (String.eqb y) acc) eqn:Hy.
    + apply mem_In in Hy. destruct (IH acc Hacc) as (Hnd & Hin & Heq).
      split; [exact Hnd|]. split.
      * intros x. rewrite Hin. cbn [In]. split; [tauto|].
        intros [H|[<-|H]]; tauto.
      * intros Hd. exfalso. apply NoDup_remove_2 in Hd. apply Hd.
        apply in_or_app. now left.
    + assert (Hny : ~ In y acc).
      { intros H. apply mem_In in H. congruence. }
      assert (Hacc' : NoDup (acc ++ [y])).
      { apply NoDup_app; [exact Hacc | repeat constructor; intros [] |].
        intros x Hx [<-|[]]. contradiction. }
      destruct (IH (acc ++ [y]) Hacc') as (Hnd & Hin & Heq).
      split; [exact Hnd|]. split.
      * intros x. rewrite Hin, in_app_iff. cbn [In]. tauto.
      * rewrite <- app_assoc in Heq. exact Heq.
Qed.

Lemma set_of_spec (l : list string) :
  NoDup (set_of l) /\ (forall x, In x (set_of l) <-> In x l) /\
  (NoDup l -> set_of l = l).
Proof.
  destruct (set_of_from l [] (NoDup_nil _)) as (Hnd & Hin & Heq).
  split; [exact Hnd|]. split; [|exact Heq].
  intros x. rewrite (Hin x). cbn [In]. tauto.
Qed.

Lemma push_missing (l acc : list string) :
  fold_left
    (fun columns col =>
       if negb (existsb (String.eqb col) defaultColumnOrder) then columns ++ [col]
       else columns) l acc =
  acc ++ filter (fun col => negb (existsb (String.eqb col) defaultColumnOrder)) l.
Proof.
  revert acc; induction l as [|x l IH]; intros acc; cbn [fold_left filter].
  - now rewrite app_nil_r.
  - rewrite IH. destruct (negb (existsb (String.eqb x) defaultColumnOrder));
      [now rewrite <- app_assoc | reflexivity].
Qed.

Lemma resetColumnOrder_eq (l : list string) :
  resetColumnOrder l =
  filter (fun col => existsb (String.eqb col) l) defaultColumnOrder ++
  filter (fun col => negb (existsb (String.eqb col) defaultColumnOrder)) (set_of l).
Proof.
  unfold resetColumnOrder. rewrite push_missing. f_equal.
  apply filter_ext. intros c. destruct (set_of_spec l) as (_ & Hin & _).
  apply eq_true_iff_eq. now rewrite !mem_In, Hin.
Qed.

Lemma filter_none {A : Type} (f : A -> bool) (l : list A) :
  (forall x, In x l -> f x = false) -> filter f l = [].
Proof.
  induction l as [|x l IH]; intros H; [reflexivity|]. cbn [filter].
  rewrite (H x (or_introl eq_refl)). apply IH. intros y Hy. apply H. now right.
Qed.

Lemma filter_twice {A : Type} (f : A -> bool) (l : list A) :
  filter f (filter f l) = filter f l.
Proof.
  induction l as [|x l IH]; [reflexivity|]. cbn [filter].
  destruct (f x) eqn:Hx; [|exact IH]. cbn [filter]. now rewrite Hx, IH.
Qed.

Lemma defaultColumnOrder_NoDup : NoDup defaultColumnOrder.
Proof.
  unfold defaultColumnOrder.
  repeat (constructor; [cbn [In]; intuition discriminate|]).
  constructor.
Qed.

End Selection.

(** X13.  [resetColumnOrder] gives the selected default columns in the
    default order, then the other selected columns in the order of their
    first selection; it lists every selected column once and changes
    nothing when applied again. *)
Theorem resetColumnOrder_order (l : list string) :
  resetColumnOrder l =
    filter (fun col => existsb (String.eqb col) l) defaultColumnOrder ++
    filter (fun col => negb (existsb (String.eqb col) defaultColumnOrder)) (set_of l) /\
  NoDup (resetColumnOrder l) /\
  (forall col, In col (resetColumnOrder l) <-> In col l) /\
  resetColumnOrder (resetColumnOrder l) = resetColumnOrder l.
Proof.
  destruct (set_of_spec l) as (Hnd & Hin & _).
  assert (Hno : NoDup (resetColumnOrder l)).
  { rewrite resetColumnOrder_eq. apply NoDup_app.
    - apply NoDup_filter, defaultColumnOrder_NoDup.
    - apply NoDup_filter, Hnd.
    - intros c H1 H2. apply filter_In in H1, H2.
      destruct H1 as [H1 _], H2 as [_ H2]. apply mem_In in H1.
      rewrite H1 in H2. discriminate. }
  assert (Hmem : forall col, In col (resetColumnOrder l) <-> In col l).
  { intros c. rewrite resetColumnOrder_eq, in_app_iff, !filter_In, Hin, mem_In.
    destruct (existsb (String.eqb c) defaultColumnOrder) eqn:Hd; cbn [negb].
    - apply mem_In in Hd. split; [intros [[_ H]|[_ H]]; [exact H | discriminate] | tauto].
    - split; [intros [[H _]|[H _]]; [|exact H] | tauto].
      apply mem_In in H. congruence. }
  split; [apply resetColumnOrder_eq|]. split; [exact Hno|]. split; [exact Hmem|].
  rewrite (resetColumnOrder_eq (resetColumnOrder l)).
  rewrite (proj2 (proj2 (set_of_spec (resetColumnOrder l))) Hno).
  assert (H1 : filter (fun col => existsb (String.eqb col) (resetColumnOrder l))
                 defaultColumnOrder =
               filter (fun col => existsb (String.eqb col) l) defaultColumnOrder).
  { apply filter_ext. intros c. apply eq_true_iff_eq. now rewrite !mem_In, Hmem. }
  assert (H2 : filter (fun col => negb (existsb (String.eqb col) defaultColumnOrder))
                 (resetColumnOrder l) =
               filter (fun col => negb (existsb (String.eqb col) defaultColumnOrder))
                 (set_of l)).
  { rewrite (resetColumnOrder_eq l), filter_app.
    assert (Hnone :
      filter (fun col => negb (existsb (String.eqb col) defaultColumnOrder))
        (filter (fun col => existsb (String.eqb col) l) defaultColumnOrder) = []).
    { apply filter_none. intros c Hc. apply filter_In in Hc.
      destruct Hc as [Hc _]. apply mem_In in Hc. now rewrite Hc. }
    rewrite Hnone. cbn [app]. apply filter_twice. }
  rewrite H1, H2. symmetry. apply resetColumnOrder_eq.
Qed.

Lemma resetColumnOrder_order_witness :
  resetColumnOrder ["pattern"; "type"; "name"; "pattern"; "format"] =
  ["name"; "type"; "pattern"; "format"].
Proof.
  rewrite (proj1 (resetColumnOrder_order ["pattern"; "type"; "name"; "pattern"; "format"])).
  reflexivity.
Defined.

(** X14.  [handleCheckboxChange] never removes the column [name] and never
    duplicates a column; checking a box selects its keyword, unchecking one
    other than [name] removes it, and the other columns are as before. *)
Theorem handleCheckboxChange_selection (keyword : string) (checked : bool)
    (l : list string) :
  (In "name" l -> In "name" (handleCheckboxChange keyword checked l)) /\
  (NoDup l -> NoDup (handleCheckboxChange keyword checked l)) /\
  (checked = true -> In keyword (handleCheckboxChange keyword checked l)) /\
  (checked = false -> keyword <> "name" ->
   ~ In keyword (handleCheckboxChange keyword checked l)) /\
  (forall col, col <> keyword ->
     (In col (handleCheckboxChange keyword checked l) <-> In col l)).
Proof.
  unfold handleCheckboxChange.
  destruct checked.
  - destruct (existsb (String.eqb keyword) l) eqn:Hk; cbn [negb].
    + apply mem_In in Hk.
      split; [auto|]. split; [auto|]. split; [auto|]. split; [discriminate|].
      intros col _. reflexivity.
    + assert (Hn : ~ In keyword l) by (intros H; apply mem_In in H; congruence).
      split; [|split; [|split; [|split]]].
      * intros H. apply in_or_app. now left.
      * intros Hnd. apply NoDup_app; [exact Hnd | repeat constructor; intros [] |].
        intros x Hx [<-|[]]. contradiction.
      * intros _. apply in_or_app. right. now left.
      * discriminate.
      * intros col Hne. rewrite in_app_iff. cbn [In]. split; [|tauto].
        intros [H|[H|[]]]; [exact H | congruence].
  - destruct (keyword =? "name") eqn:Hname; cbn [negb].
    + apply String.eqb_eq in Hname.
      split; [auto|]. split; [auto|]. split; [discriminate|]. split; [|reflexivity].
      intros _ Hne. contradiction.
    + apply String.eqb_neq in Hname.
      split; [|split; [|split; [|split]]].
      * intros H. apply filter_In. split; [exact H|].
        apply negb_true_iff, String.eqb_neq. congruence.
      * apply NoDup_filter.
      * discriminate.
      * intros _ _ H. apply filter_In in H. destruct H as [_ H].
        apply negb_true_iff, String.eqb_neq in H. congruence.
      * intros col Hne. rewrite filter_In. split; [tauto|].
        intros H. split; [exact H|]. now apply negb_true_iff, String.eqb_neq.
Qed.

(** ** The shape of the export *)
Section CsvShape.

Lemma csv_rows_cells (displayed columns : list string)
    (props seen : list ExtractedProperty) (rows : list (list slot)) :
  csv_rows displayed columns seen props = Ok rows ->
  List.length rows = List.length props /\
  Forall (fun row => List.length row = S (List.length columns)) rows /\
  forall p col, In p props -> In col columns -> exists v, cell displayed p col = Ok v.
Proof.
  revert seen rows; induction props as [|p props IH]; intros seen rows; cbn [csv_rows].
  - inversion 1. split; [reflexivity|]. split; [constructor|]. intros p col [].
  - destruct (map_outcome (cell displayed p) columns) as [cells|] eqn:Hcells;
      cbn [bind]; [|discriminate].
    destruct (csv_rows displayed columns (seen ++ [p]) props) as [more|] eqn:Hmore;
      cbn [bind]; [|discriminate].
    inversion 1; subst. destruct (IH _ _ Hmore) as (Hlen & Hall & Hcell).
    split; [cbn [List.length]; now rewrite Hlen|]. split.
    + constructor; [|exact Hall]. cbn [List.length].
      now rewrite length_map, (map_outcome_length _ _ _ Hcells).
    + intros q col [<-|Hq] Hcol; [|now apply Hcell].
      destruct (map_outcome_In _ _ _ col Hcells Hcol) as (v & Hv & _). now exists v.
Qed.

Lemma map_outcome_total {X Y : Type} (f : X -> outcome Y) (P : Y -> Prop) (xs : list X) :
  (forall x, In x xs -> exists y, f x = Ok y /\ P y) ->
  exists ys, map_outcome f xs = Ok ys /\ Forall P ys.
Proof.
  induction xs as [|x xs IH]; intros H; [exists []; split; [reflexivity | constructor]|].
  destruct (H x (or_introl eq_refl)) as (y & Hy & Py).
  destruct IH as (ys & Hys & Pys); [intros z Hz; apply H; now right|].
  exists (y :: ys). cbn [map_outcome]. rewrite Hy, Hys. split; [reflexivity|].
  now constructor.
Qed.

Lemma map_outcome_error {X Y : Type} (f : X -> outcome Y) (xs : list X) (e : error) :
  map_outcome f xs = Exn e -> exists x, In x xs /\ f x = Exn e.
Proof.
  induction xs as [|x xs IH]; cbn [map_outcome]; [discriminate|].
  destruct (f x) as [y|e'] eqn:Hx; cbn [bind].
  - destruct (map_outcome f xs) as [ys|e'] eqn:Hxs; cbn [bind]; [discriminate|].
    intros H; inversion H; subst. destruct (IH eq_refl) as (z & Hz & Hfz).
    exists z. split; [now right | exact Hfz].
  - intros H; inversion H; subst. exists x. split; [now left | exact Hx].
Qed.

(** *** Conversion to text *)

Lemma toString_array (l : list value) : toString (JArr l) = join "," l.
Proof.
  unfold join. cbn [toString].
  assert (E : (fix each (l : list value) : outcome (list string) :=
                 match l with
                 | [] => Ok []
                 | x :: rest =>
                     s <- match x with JNull => Ok "" | _ => toString x end ;;
                     ss <- each rest ;; Ok (s :: ss)
                 end) l = map_array element_text l).
  { induction l as [|x l IH]; [reflexivity|]. cbn [map_array]. now rewrite IH. }
  now rewrite E.
Qed.

Lemma element_text_printable (x : value) :
  (exists s, element_text x = Ok s) <-> printable x.
Proof. unfold printable. destruct x; cbn [element_text toString]; split; eauto. Qed.

Lemma printable_elements (l : list value) : printable (JArr l) <-> Forall printable l.
Proof.
  unfold printable at 1. rewrite toString_array. unfold join.
  rewrite map_array_outcome. split.
  - intros [s Hs]. destruct (map_outcome element_text l) as [parts|] eqn:Hp;
      [|discriminate].
    apply Forall_forall. intros x Hx.
    destruct (map_outcome_In _ _ _ x Hp Hx) as (y & Hy & _).
    apply element_text_printable. eauto.
  - intros Hall.
    destruct (map_outcome_total element_text (fun _ => True) l) as (parts & -> & _).
    + intros x Hx. apply (proj1 (Forall_forall _ _) Hall) in Hx.
      apply element_text_printable in Hx. destruct Hx as [s Hs]. eauto.
    + cbn [bind]. eauto.
Qed.

Lemma join_total (sep : string) (l : list value) :
  Forall printable l -> exists s, join sep l = Ok s.
Proof.
  intros Hall. unfold join. rewrite map_array_outcome.
  destruct (map_outcome_total element_text (fun _ => True) l) as (parts & -> & _).
  - intros x Hx. apply (proj1 (Forall_forall _ _) Hall) in Hx.
    apply element_text_printable in Hx. destruct Hx as [s Hs]. eauto.
  - cbn [bind]. eauto.
Qed.

Lemma toString_error (v : value) (e : error) : toString v = Exn e -> e = TypeError.
Proof.
  induction v as [| b | z | s | l IHl | members _] using value_nested_ind.
  - discriminate.
  - destruct b; discriminate.
  - discriminate.
  - discriminate.
  - rewrite toString_array. unfold join. rewrite map_array_outcome.
    destruct (map_outcome element_text l) as [parts|e'] eqn:Hp; cbn [bind];
      [discriminate|].
    intros H; inversion H; subst.
    destruct (map_outcome_error _ _ _ Hp) as (x & Hx & Hex).
    apply (proj1 (Forall_forall _ _) IHl x Hx). destruct x; try discriminate; exact Hex.
  - cbn [toString]. destruct (member "toString" members); [|discriminate].
    now inversion 1.
Qed.

Lemma join_error (sep : string) (l : list value) (e : error) :
  join sep l = Exn e -> e = TypeError.
Proof.
  unfold join. rewrite map_array_outcome.
  destruct (map_outcome element_text l) as [parts|e'] eqn:Hp; cbn [bind]; [discriminate|].
  intros H; inversion H; subst.
  destruct (map_outcome_error _ _ _ Hp) as (x & Hx & Hex).
  destruct x; try discriminate; exact (toString_error _ _ Hex).
Qed.

Lemma text_error (c : slot) (e : error) : text c = Exn e -> e = TypeError.
Proof. destruct c as [v|]; [apply toString_error | discriminate]. Qed.


(** *** The cells *)

Lemma formatType_total (schema : value) :
  schema <> JNull -> printable_members schema ->
  exists v, formatType schema = Ok v /\ printable v.
Proof.
  intros Hs Hp. unfold formatType.
  destruct (get_not_null schema "type" Hs) as [type Htype]. rewrite Htype.
  destruct (get_not_null schema "format" Hs) as [format Hformat]. rewrite Hformat.
  cbn [bind].
  assert (Hany : printable (or_else type (JStr "any"))).
  { destruct type as [t|]; cbn [or_else]; [|now exists "any"].
    destruct (truthy t); [exact (Hp _ _ Htype) | now exists "any"]. }
  assert (Hrest :
    exists v,
      match format with
      | Some f =>
          if truthy f then
            t <- toString (or_else type (JStr "any")) ;;
            f <- toString f ;; Ok (JStr (t ++ " (" ++ f ++ ")")%string)
          else Ok (or_else type (JStr "any"))
      | None => Ok (or_else type (JStr "any"))
      end = Ok v /\ printable v).
  { destruct format as [f|]; [|eauto].
    destruct (truthy f); [|eauto].
    destruct Hany as [t ->]. destruct (Hp _ _ Hformat) as [f' ->]. cbn [bind].
    eexists. split; [reflexivity|]. eexists; reflexivity. }
  destruct type as [[| b | z | s | l | m]|]; try exact Hrest.
  destruct (join_total " | " l) as [s ->].
  - apply printable_elements. exact (Hp _ _ Htype).
  - cbn [bind]. eexists. split; [reflexivity|]. eexists; reflexivity.
Qed.

Lemma formatEnumForCSV_total (schema : value) :
  schema <> JNull -> enum_listed schema -> printable_members schema ->
  exists s, formatEnumForCSV schema = Ok (JStr s).
Proof.
  intros Hs He Hp. unfold formatEnumForCSV.
  destruct (get_not_null schema "enum" Hs) as [enum Henum]. rewrite Henum. cbn [bind].
  destruct enum as [e|]; [|eexists; reflexivity].
  destruct (He e Henum) as [l ->]. cbn [truthy].
  destruct (get_not_null schema "enumDescriptions" Hs) as [ds Hds]. rewrite Hds.
  cbn [bind get].
  pose proof (proj1 (printable_elements l) (Hp _ _ Henum)) as Hl.
  match goal with |- context [if ?b then _ else _] => destruct b eqn:Hb end.
  - destruct ds as [[| | | | ds |]|]; try discriminate.
    pose proof (proj1 (printable_elements ds) (Hp _ _ Hds)) as Hd.
    rewrite map_array_outcome.
    destruct (map_outcome_total
                (fun vd : value * value =>
                   v <- toString (fst vd) ;; d <- toString (snd vd) ;;
                   Ok (v ++ ": " ++ d)%string)
                (fun _ => True) (combine l ds)) as (lines & -> & _).
    + intros [v d] Hin. cbn [fst snd].
      destruct (proj1 (Forall_forall _ _) Hl v (in_combine_l _ _ _ _ Hin)) as [v' ->].
      destruct (proj1 (Forall_forall _ _) Hd d (in_combine_r _ _ _ _ Hin)) as [d' ->].
      cbn [bind]. eauto.
    + cbn [bind]. eexists; reflexivity.
  - destruct (join_total (str newline) l Hl) as [s ->]. cbn [bind]. eexists; reflexivity.
Qed.

Lemma for_each_total {X S : Type} (body : S -> X -> outcome S) (xs : list X) (s : S) :
  (forall s x, exists s', body s x = Ok s') -> exists r, for_each xs body s = Ok r.
Proof.
  intros Hb. revert s; induction xs as [|x xs IH]; intros s; [now exists s|].
  cbn [for_each]. destruct (Hb s x) as [s' ->]. cbn [bind]. apply IH.
Qed.

Lemma formatAdditionalInfoForCSV_total (displayed : list string) (schema : value) :
  schema <> JNull -> exists s, formatAdditionalInfoForCSV displayed schema = Ok (JStr s).
Proof.
  intros Hs. unfold formatAdditionalInfoForCSV.
  assert (He : exists es, entries schema = Ok es).
  { destruct schema; try contradiction; eexists; reflexivity. }
  destruct He as [es ->]. cbn [bind].
  match goal with |- context [for_each es ?body ?s] =>
    destruct (for_each_total body es s) as [r ->] end.
  - intros data [key v]. destruct (_ && _); [|eauto].
    destruct v as [| [] | z | s | l | m]; cbn [toString bind]; eauto.
  - cbn [bind]. eexists; reflexivity.
Qed.

Lemma cell_total (displayed : list string) (p : ExtractedProperty) (col : string) :
  schema p <> JNull -> enum_listed (schema p) -> printable_members (schema p) ->
  exists v, cell displayed p col = Ok v /\ printable v.
Proof.
  intros Hs He Hp. unfold cell.
  assert (Hstr : forall s, printable (JStr s)) by (intros s; now exists s).
  destruct (col =? "name"); [eauto|].
  destruct (col =? "description").
  { destruct (get_not_null (schema p) "description" Hs) as [d Hd]. rewrite Hd.
    cbn [bind]. eexists. split; [reflexivity|].
    destruct d as [v|]; cbn [or_else]; [|apply Hstr].
    destruct (truthy v); [exact (Hp _ _ Hd) | apply Hstr]. }
  destruct (col =? "type"); [now apply formatType_total|].
  destruct (col =? "enum").
  { destruct (get_not_null (schema p) "const" Hs) as [c Hc]. rewrite Hc. cbn [bind].
    destruct c as [c|].
    - destruct (Hp _ _ Hc) as [s ->]. cbn [bind]. eauto.
    - destruct (formatEnumForCSV_total (schema p) Hs He Hp) as [s ->]. eauto. }
  destruct (col =? "required"); [eauto|].
  destruct (col =? "additionalInfo").
  { destruct (formatAdditionalInfoForCSV_total displayed (schema p) Hs) as [s ->]. eauto. }
  destruct (get_not_null (schema p) col Hs) as [v ->]. cbn [bind].
  destruct v; eauto.
Qed.

Lemma shown_category_printable (seen : list ExtractedProperty) :
  Forall (fun p => printable (category p)) seen -> printable (shown_category seen).
Proof.
  intros Hall. unfold shown_category.
  destruct (find _ (rev seen)) as [p|] eqn:Hf; [|now exists ""].
  apply find_some in Hf. destruct Hf as [Hin _]. apply in_rev in Hin.
  exact (proj1 (Forall_forall _ _) Hall p Hin).
Qed.

Lemma csv_rows_total (displayed columns : list string)
    (props seen : list ExtractedProperty) :
  Forall (fun p => printable (category p)) seen ->
  Forall (fun p => schema p <> JNull /\ enum_listed (schema p) /\
                   printable (category p) /\ printable_members (schema p)) props ->
  exists rows, csv_rows displayed columns seen props = Ok rows /\
               Forall (Forall writable) rows.
Proof.
  intros Hseen Hprops; revert seen Hseen.
  induction Hprops as [|p props (Hs & He & Hc & Hp) _ IH]; intros seen Hseen.
  - exists []. split; [reflexivity | constructor].
  - destruct (map_outcome_total (cell displayed p) printable columns)
      as (cells & Hcells & Hall).
    { intros col _. now apply cell_total. }
    assert (Hseen' : Forall (fun q => printable (category q)) (seen ++ [p])).
    { apply Forall_app. split; [exact Hseen | now constructor]. }
    destruct (IH (seen ++ [p]) Hseen') as (rows & Hrows & Hw).
    eexists. cbn [csv_rows]. rewrite Hcells, Hrows. cbn [bind].
    split; [reflexivity|]. constructor; [|exact Hw].
    constructor; [exact (shown_category_printable _ Hseen')|].
    apply Forall_map. exact Hall.
Qed.

Lemma format_rows_total (rows : list (list slot)) :
  Forall (Forall writable) rows -> exists csv, format_rows rows = Ok csv.
Proof.
  intros Hall. unfold format_rows. rewrite map_array_outcome.
  destruct (map_outcome_total
              (fun row => cells <- map_array format_cell row ;;
                          Ok (String.concat "," cells))
              (fun _ => True) rows) as (lines & -> & _).
  - intros row Hrow. rewrite map_array_outcome.
    destruct (map_outcome_total format_cell (fun _ => True) row) as (cells & -> & _).
    + intros c Hc.
      destruct (proj1 (Forall_forall _ _)
                  (proj1 (Forall_forall _ _) Hall row Hrow) c Hc) as [s Hs].
      exists (written s). split; [|exact I]. now apply format_cell_spec.
    + cbn [bind]. eauto.
  - cbn [bind]. eauto.
Qed.

Lemma header_writable (columns : list string) : Forall writable (header columns).
Proof.
  unfold header. constructor; [now exists "Category"|].
  apply Forall_map, Forall_forall. intros col _. unfold display, writable.
  destruct (map_get String.eqb columnDefinitions col); [eexists; reflexivity|].
  destruct (inherits AnObject col); eexists; reflexivity.
Qed.

(** *** The exceptions *)

Lemma get_error (v : value) (k : string) (e : error) : get v k = Exn e -> e = TypeError.
Proof. destruct v; cbn [get]; try discriminate. now inversion 1. Qed.

Lemma bind_error {A B : Type} (c : outcome A) (k : A -> outcome B) (e : error) :
  (forall e', c = Exn e' -> e' = TypeError) ->
  (forall a e', k a = Exn e' -> e' = TypeError) ->
  (a <- c ;; k a) = Exn e -> e = TypeError.
Proof.
  intros Hc Hk. destruct c as [a|e']; cbn [bind]; [apply Hk|].
  intros H; inversion H; subst. now apply Hc.
Qed.

Lemma map_outcome_type_error {X Y : Type} (f : X -> outcome Y) (xs : list X) (e : error) :
  (forall x e', f x = Exn e' -> e' = TypeError) ->
  map_outcome f xs = Exn e -> e = TypeError.
Proof.
  intros Hf H. destruct (map_outcome_error _ _ _ H) as (x & _ & Hx). exact (Hf _ _ Hx).
Qed.

Lemma formatType_error (schema : value) (e : error) :
  formatType schema = Exn e -> e = TypeError.
Proof.
  unfold formatType.
  apply bind_error; [intros e'; apply get_error|]. intros type e1.
  apply bind_error; [intros e'; apply get_error|]. intros format e2.
  assert (Hrest : forall t : value,
    match format with
    | Some f =>
        if truthy f then
          t <- toString t ;; f <- toString f ;; Ok (JStr (t ++ " (" ++ f ++ ")")%string)
        else Ok t
    | None => Ok t
    end = Exn e2 -> e2 = TypeError).
  { intros t. destruct format as [f|]; [|discriminate].
    destruct (truthy f); [|discriminate].
    apply bind_error; [intros e'; apply toString_error|]. intros t' e3.
    apply bind_error; [intros e'; apply toString_error|]. discriminate. }
  destruct type as [[| b | z | s | l | m]|]; try apply Hrest.
  apply bind_error; [intros e'; apply join_error | discriminate].
Qed.

Lemma formatEnumForCSV_error (schema : value) (e : error) :
  formatEnumForCSV schema = Exn e -> e = TypeError.
Proof.
  unfold formatEnumForCSV.
  apply bind_error; [intros e'; apply get_error|]. intros [enum|] e1; [|discriminate].
  destruct (truthy enum); [|discriminate].
  apply bind_error; [intros e'; apply get_error|]. intros ds e2.
  apply bind_error; [intros e'; apply get_error|]. intros len e3.
  destruct enum; try (now inversion 1).
  match goal with |- context [if ?b then _ else _] => destruct b end.
  - apply bind_error; [|discriminate]. intros e'. rewrite map_array_outcome.
    apply map_outcome_type_error. intros vd e4.
    apply bind_error; [intros e5; apply toString_error|]. intros v e5.
    apply bind_error; [intros e6; apply toString_error|]. discriminate.
  - apply bind_error; [intros e'; apply join_error | discriminate].
Qed.

Lemma for_each_error {X S : Type} (body : S -> X -> outcome S) (xs : list X) (s : S)
    (e : error) :
  (forall s x e', body s x = Exn e' -> e' = TypeError) ->
  for_each xs body s = Exn e -> e = TypeError.
Proof.
  intros Hb. revert s e; induction xs as [|x xs IH]; intros s e; cbn [for_each];
    [discriminate|].
  apply bind_error; [intros e'; apply Hb | intros s' e'; apply IH].
Qed.

Lemma cell_error (displayed : list string) (p : ExtractedProperty) (col : string)
    (e : error) :
  cell displayed p col = Exn e -> e = TypeError.
Proof.
  unfold cell.
  destruct (col =? "name"); [discriminate|].
  destruct (col =? "description").
  { apply bind_error; [intros e'; apply get_error | discriminate]. }
  destruct (col =? "type"); [apply formatType_error|].
  destruct (col =? "enum").
  { apply bind_error; [intros e'; apply get_error|]. intros [c|] e1.
    - apply bind_error; [intros e'; apply toString_error | discriminate].
    - apply formatEnumForCSV_error. }
  destruct (col =? "required"); [discriminate|].
  destruct (col =? "additionalInfo").
  { unfold formatAdditionalInfoForCSV. apply bind_error.
    - intros e'. destruct (schema p); cbn [entries]; try discriminate. now inversion 1.
    - intros es e1. apply bind_error; [|discriminate]. intros e2.
      apply for_each_error. intros data [key v] e3.
      destruct (_ && _); [|discriminate].
      apply bind_error; [|discriminate]. intros e4.
      destruct v; try discriminate; apply toString_error. }
  apply bind_error; [intros e'; apply get_error|]. intros [v|]; discriminate.
Qed.

Lemma csv_rows_error (displayed columns : list string)
    (props seen : list ExtractedProperty) (e : error) :
  csv_rows displayed columns seen props = Exn e -> e = TypeError.
Proof.
  revert seen e; induction props as [|p props IH]; intros seen e; cbn [csv_rows];
    [discriminate|].
  apply bind_error.
  - intros e'. apply map_outcome_type_error. intros col e1. apply cell_error.
  - intros cells e1. apply bind_error; [intros e'; apply IH | discriminate].
Qed.

Lemma format_rows_error (rows : list (list slot)) (e : error) :
  format_rows rows = Exn e -> e = TypeError.
Proof.
  unfold format_rows. apply bind_error; [|discriminate].
  intros e'. rewrite map_array_outcome. apply map_outcome_type_error. intros row e1.
  apply bind_error; [|discriminate]. intros e2. rewrite map_array_outcome.
  apply map_outcome_type_error. intros c e3. unfold format_cell.
  apply bind_error; [intros e4; apply text_error|]. intros s e4.
  destruct (_ || _); discriminate.
Qed.

Lemma double_quotes_inj (a b : string) : double_quotes a = double_quotes b -> a = b.
Proof.
  revert b; induction a as [|c a IH]; intros [|d b]; cbn [double_quotes].
  - reflexivity.
  - destruct (Ascii.eqb d quote); discriminate.
  - destruct (Ascii.eqb c quote); discriminate.
  - destruct (Ascii.eqb c quote) eqn:Hc, (Ascii.eqb d quote) eqn:Hd.
    + apply Ascii.eqb_eq in Hc, Hd. subst. intros H. inversion H. f_equal. now apply IH.
    + apply Ascii.eqb_eq in Hc. subst. intros H. inversion H; subst.
      destruct b as [|d' b]; cbn [double_quotes] in *; [discriminate|].
      rewrite Ascii.eqb_refl in Hd. discriminate.
    + apply Ascii.eqb_eq in Hd. subst. intros H. inversion H; subst.
      rewrite Ascii.eqb_refl in Hc. discriminate.
    + intros H. inversion H. f_equal. now apply IH.
Qed.

End CsvShape.

(** X15.  The text [exportToCSV] returns is made of one row of headers and
    one row for each property, each row of one cell for the category and one
    for each column. *)
Theorem exportToCSV_rectangular (displayed : list string) (data : TableData)
    (selected : option (list string)) (csv : string) :
  exportToCSV displayed (Some data) selected = Ok csv ->
  exists rows,
    format_rows (header (columns_of displayed selected) :: rows) = Ok csv /\
    List.length rows = List.length (properties data) /\
    Forall (fun row => List.length row = S (List.length (columns_of displayed selected)))
           (header (columns_of displayed selected) :: rows).
Proof.
  rewrite exportToCSV_rows.
  destruct (csv_rows _ _ _ _) as [rows|] eqn:Hrows; cbn [bind]; [|discriminate].
  intros Hcsv. exists rows.
  destruct (csv_rows_cells _ _ _ _ _ Hrows) as (Hlen & Hall & _).
  split; [exact Hcsv|]. split; [exact Hlen|].
  constructor; [|exact Hall]. unfold header. cbn [List.length]. now rewrite length_map.
Qed.

Lemma exportToCSV_rectangular_witness :
  exists rows,
    format_rows (header ["name"; "enum"] :: rows) =
      Ok ("Category,Variable Name,Valid Values" ++ str newline ++
          ",name," ++ str newline ++
          "Address,city," ++ str quote ++ "Oslo" ++ str newline ++ "Rome" ++ str quote)
         %string /\
    List.length rows = 2 /\
    Forall (fun row => List.length row = 3) (header ["name"; "enum"] :: rows).
Proof.
  apply (exportToCSV_rectangular [] sheet (Some ["name"; "enum"])). reflexivity.
Defined.

(** X16.  [exportToCSV] throws nothing when no row has the fragment [null],
    every [enum] is an array, and every category and every member of a
    fragment can be turned into text. *)
Theorem exportToCSV_total (displayed : list string) (data : TableData)
    (selected : option (list string)) :
  Forall (fun p => schema p <> JNull /\ enum_listed (schema p) /\
                   printable (category p) /\ printable_members (schema p))
         (properties data) ->
  exists csv, exportToCSV displayed (Some data) selected = Ok csv.
Proof.
  intros H. rewrite exportToCSV_rows.
  destruct (csv_rows_total displayed (columns_of displayed selected) (properties data) []
              (Forall_nil _) H) as (rows & -> & Hw).
  cbn [bind]. apply format_rows_total. constructor; [apply header_writable | exact Hw].
Qed.

Lemma exportToCSV_total_witness :
  exists csv, exportToCSV [] (Some sheet) (Some ["type"; "enum"; "additionalInfo"]) = Ok csv.
Proof.
  apply (exportToCSV_total [] sheet (Some ["type"; "enum"; "additionalInfo"])).
  unfold sheet. cbn [properties].
  apply Forall_cons; [|apply Forall_cons; [|apply Forall_nil]]; cbn [schema category].
  - split; [discriminate|]. split; [intros e H; inversion H|].
    split; [now exists "null"|].
    intros k v H. cbn [get member] in H.
    destruct ("type" =? k); inversion H; subst. now exists "string".
  - split; [discriminate|]. split; [intros e H; inversion H; subst; eauto|].
    split; [now exists "Address"|].
    intros k v H. cbn [get member] in H.
    destruct ("type" =? k); [inversion H; subst; now exists "string"|].
    destruct ("enum" =? k); inversion H; subst. eexists; reflexivity.
Defined.

(** X17.  With the column [enum] selected, a row without [const] whose
    [enum] is truthy and not an array makes [exportToCSV] throw a
    [TypeError]. *)
Theorem exportToCSV_enum_not_array (displayed : list string) (data : TableData)
    (selected : option (list string)) (p : ExtractedProperty) (e : value) :
  In p (properties data) -> In "enum" (columns_of displayed selected) ->
  get (schema p) "const" = Ok None -> get (schema p) "enum" = Ok (Some e) ->
  truthy e = true -> (forall l, e <> JArr l) ->
  exportToCSV displayed (Some data) selected = Exn TypeError.
Proof.
  intros Hp Hcol Hconst Henum Ht Harr. rewrite exportToCSV_rows.
  destruct (csv_rows _ _ _ _) as [rows|err] eqn:Hrows; cbn [bind].
  - destruct (csv_rows_cells _ _ _ _ _ Hrows) as (_ & _ & Hcell).
    destruct (Hcell p "enum" Hp Hcol) as [v Hv]. exfalso. revert Hv.
    unfold cell. cbn [String.eqb Ascii.eqb Bool.eqb]. rewrite Hconst. cbn [bind].
    unfold formatEnumForCSV. rewrite Henum. cbn [bind]. rewrite Ht.
    destruct (get (schema p) "enumDescriptions"); cbn [bind]; [|discriminate].
    destruct (get e "length"); cbn [bind]; [|discriminate].
    destruct e as [| | | |vs|]; try discriminate. now destruct (Harr vs).
  - now rewrite (csv_rows_error _ _ _ _ _ Hrows).
Qed.

Lemma exportToCSV_enum_not_array_witness :
  exportToCSV [] (Some bad_sheet) (Some ["name"; "enum"]) = Exn TypeError.
Proof.
  apply (exportToCSV_enum_not_array [] bad_sheet (Some ["name"; "enum"])
           (Property JNull "city" (JObj [("enum", JStr "Oslo")]) false) (JStr "Oslo")).
  - now left.
  - right. now left.
  - reflexivity.
  - reflexivity.
  - reflexivity.
  - discriminate.
Defined.

(** X18.  The quoting of cells loses nothing: two strings give the same
    cell only when they are equal. *)
Theorem format_cell_injective (a b : string) :
  format_cell (Some (JStr a)) = format_cell (Some (JStr b)) <-> a = b.
Proof.
  split; [|now intros ->].
  assert (Hplain : forall s,
    has_unit newline (double_quotes s) || has_unit "," (double_quotes s)
      || has_unit quote (double_quotes s) = false ->
    double_quotes s = s /\ has_unit quote s = false).
  { intros s H. apply orb_false_iff in H. destruct H as [_ H].
    rewrite has_unit_double_quotes in H. split; [now apply double_quotes_plain | exact H]. }
  unfold format_cell. cbn [text toString bind].
  destruct (has_unit newline (double_quotes a) || _ || _) eqn:Ha;
    destruct (has_unit newline (double_quotes b) || _ || _) eqn:Hb.
  - cbn [str append]. intros H. inversion H as [H'].
    apply double_quotes_inj.
    clear - H'. revert H'. generalize (double_quotes a) (double_quotes b).
    induction s as [|c s IH]; intros [|d t]; cbn [append]; intros H.
    + reflexivity.
    + inversion H. destruct t; discriminate.
    + inversion H. destruct s; discriminate.
    + inversion H. f_equal. now apply IH.
  - destruct (Hplain b Hb) as [-> Hq]. cbn [str append]. intros H. inversion H; subst.
    cbn [has_unit] in Hq. rewrite Ascii.eqb_refl in Hq. discriminate.
  - destruct (Hplain a Ha) as [-> Hq]. cbn [str append]. intros H. inversion H; subst.
    cbn [has_unit] in Hq. rewrite Ascii.eqb_refl in Hq. discriminate.
  - destruct (Hplain a Ha) as [-> _]. destruct (Hplain b Hb) as [-> _].
    intros H. now inversion H.
Qed.

(** ** What the export and the table data depend on *)
Section Independence.

Lemma cell_displayed (d1 d2 : list string) (p : ExtractedProperty) (col : string) :
  col <> "additionalInfo" -> cell d1 p col = cell d2 p col.
Proof.
  intros Hne. unfold cell.
  destruct (col =? "additionalInfo") eqn:E; [apply String.eqb_eq in E; contradiction|].
  reflexivity.
Qed.

Lemma csv_rows_displayed (d1 d2 columns : list string)
    (props seen : list ExtractedProperty) :
  ~ In "additionalInfo" columns ->
  csv_rows d1 columns seen props = csv_rows d2 columns seen props.
Proof.
  intros Hno. revert seen; induction props as [|p props IH]; intros seen; [reflexivity|].
  cbn [csv_rows]. rewrite IH.
  assert (Hcells : map_outcome (cell d1 p) columns = map_outcome (cell d2 p) columns).
  { clear IH. induction columns as [|col columns IHc]; [reflexivity|].
    cbn [map_outcome]. rewrite IHc by (intros H; apply Hno; now right).
    rewrite (cell_displayed d1 d2 p col); [reflexivity|].
    intros ->. apply Hno. now left. }
  now rewrite Hcells.
Qed.

Lemma or_else_truthy (a : slot) (b : value) :
  truthy b = true -> truthy (or_else a b) = true.
Proof.
  intros Hb. destruct a as [v|]; [|exact Hb]. cbn [or_else].
  now destruct (truthy v) eqn:Hv.
Qed.

End Independence.

(** X19.  When the columns are given and [additionalInfo] is not one of
    them, the export does not depend on the selection of the column
    manager. *)
Theorem exportToCSV_displayed_unused (d1 d2 : list string) (data : option TableData)
    (columns : list string) :
  ~ In "additionalInfo" columns ->
  exportToCSV d1 data (Some columns) = exportToCSV d2 data (Some columns).
Proof.
  intros Hno. destruct data as [data|]; [|reflexivity].
  rewrite !exportToCSV_rows. cbn [columns_of].
  now rewrite (csv_rows_displayed d1 d2 columns (properties data) [] Hno).
Qed.

Lemma exportToCSV_displayed_unused_witness :
  exportToCSV ["name"] (Some sheet) (Some ["name"; "type"]) =
  exportToCSV ["enum"; "type"] (Some sheet) (Some ["name"; "type"]).
Proof.
  apply (exportToCSV_displayed_unused ["name"] ["enum"; "type"] (Some sheet)
           ["name"; "type"]).
  cbn [In]. intuition discriminate.
Defined.

(** X21.  Table data comes from a truthy main schema and the rows of a truthy
    item schema, extracted under the category [null]; its title is truthy,
    and its description is truthy or the empty string. *)
Theorem getTableData_title (stack : nat) (this : Processor) (data : TableData) :
  getTableData stack this = Ok (Some data) ->
  truthy (mainSchema this) = true /\
  truthy (title data) = true /\
  (truthy (description data) = true \/ description data = JStr "") /\
  exists itemSchema,
    truthy itemSchema = true /\
    extractProperties stack (schemas this) itemSchema JNull = Ok (properties data).
Proof.
  unfold getTableData. destruct (truthy (mainSchema this)) eqn:Hm; cbn [negb];
    [|discriminate].
  destruct (get (mainSchema this) "items") as [items|]; cbn [bind]; [|discriminate].
  match goal with
  | |- (x <- ?c ;; _) = _ -> _ => destruct c as [[itemSchema|]|]
  end; cbn [bind]; try discriminate.
  destruct (truthy itemSchema) eqn:Hi; [|discriminate].
  destruct (extractProperties stack (schemas this) itemSchema JNull) as [rows|]
    eqn:Hrows; cbn [bind]; [|discriminate].
  destruct (get (mainSchema this) "title") as [t|]; cbn [bind]; [|discriminate].
  destruct (get (mainSchema this) "description") as [d|]; cbn [bind]; [|discriminate].
  inversion 1; subst; cbn [title description properties].
  split; [reflexivity|]. split; [now apply or_else_truthy|]. split.
  - destruct d as [v|]; cbn [or_else]; [|now right].
    destruct (truthy v) eqn:Hv; [now left | now right].
  - exists itemSchema. now split.
Qed.

Lemma getTableData_title_witness :
  truthy (mainSchema counted) = true /\
  truthy (JStr "Dataset Schema") = true /\
  (truthy (JStr "") = true \/ JStr "" = JStr "") /\
  exists itemSchema,
    truthy itemSchema = true /\
    extractProperties 5 [] itemSchema JNull = Ok (properties counted_data).
Proof. apply (getTableData_title 5 counted counted_data). reflexivity. Defined.

(** ** The display of a keyword *)
Section Display.

Lemma unspaced_trimStart (s : string) : unspaced (trimStart s) = unspaced s.
Proof.
  induction s as [|c s IH]; [reflexivity|]. cbn [trimStart unspaced].
  destruct (is_space c) eqn:Hc; [exact IH|]. cbn [unspaced]. now rewrite Hc.
Qed.

Lemma unspaced_trimEnd (s : string) : unspaced (trimEnd s) = unspaced s.
Proof.
  induction s as [|c s IH]; [reflexivity|]. cbn [trimEnd unspaced].
  destruct (trimEnd s) as [|d t] eqn:Ht.
  - cbn [unspaced] in IH. rewrite <- IH.
    destruct (is_space c) eqn:Hc; [reflexivity|]. cbn [str unspaced]. now rewrite Hc.
  - cbn [unspaced] in *. now rewrite IH.
Qed.

Lemma upper_space (c : ascii) : is_space (upper c) = is_space c.
Proof.
  unfold upper. destruct (_ && _) eqn:H; [|reflexivity].
  apply andb_true_iff in H. destruct H as [H1 H2].
  apply Nat.leb_le in H1, H2. unfold is_space.
  rewrite nat_ascii_embedding by lia.
  assert (E1 : (nat_of_ascii c - 32 <=? 13)%nat = false) by (apply Nat.leb_gt; lia).
  assert (E2 : (nat_of_ascii c - 32 =? 32)%nat = false) by (apply Nat.eqb_neq; lia).
  assert (E3 : (nat_of_ascii c <=? 13)%nat = false) by (apply Nat.leb_gt; lia).
  assert (E4 : (nat_of_ascii c =? 32)%nat = false) by (apply Nat.eqb_neq; lia).
  now rewrite E1, E2, E3, E4, !andb_false_r.
Qed.

Lemma upper_capital (c : ascii) : is_upper c = true -> upper c = c.
Proof.
  unfold is_upper, upper. intros H. apply andb_true_iff in H. destruct H as [H1 H2].
  apply Nat.leb_le in H1, H2.
  assert (E : (97 <=? nat_of_ascii c)%nat = false) by (apply Nat.leb_gt; lia).
  now rewrite E.
Qed.

Lemma unspaced_space_capitals (s : string) :
  unspaced (space_capitals s) = unspaced s.
Proof.
  induction s as [|c s IH]; [reflexivity|]. cbn [space_capitals].
  destruct (is_upper c); cbn [unspaced]; rewrite IH; reflexivity.
Qed.

Lemma unspaced_plain (s : string) :
  (forall c, In c (list_ascii_of_string s) -> is_space c = false) -> unspaced s = s.
Proof.
  induction s as [|c s IH]; intros H; [reflexivity|]. cbn [unspaced].
  rewrite (H c (or_introl eq_refl)). f_equal. apply IH. intros d Hd. apply H. now right.
Qed.

End Display.

(** X20.  For a keyword without white space, [formatKeywordDisplay] only
    adds white space and puts the first code unit in upper case. *)
Theorem formatKeywordDisplay_letters (keyword : string) :
  (forall c, In c (list_ascii_of_string keyword) -> is_space c = false) ->
  unspaced (formatKeywordDisplay keyword) = capitalized keyword.
Proof.
  intros H. unfold formatKeywordDisplay, trim.
  rewrite unspaced_trimEnd, unspaced_trimStart.
  destruct keyword as [|c k]; [reflexivity|].
  assert (Hc : is_space c = false) by (apply H; now left).
  assert (Hk : unspaced k = k).
  { apply unspaced_plain. intros d Hd. apply H. now right. }
  cbn [space_capitals capitalized].
  destruct (is_upper c) eqn:Hu.
  - change (capitalize (String " " (String c (space_capitals k))))
      with (String " "%char (String c (space_capitals k))).
    change (unspaced (String " " (String c (space_capitals k))))
      with (unspaced (String c (space_capitals k))).
    cbn [unspaced]. rewrite Hc, unspaced_space_capitals, Hk.
    now rewrite (upper_capital c Hu).
  - cbn [capitalize].
    assert (Hnl : Ascii.eqb c newline || Ascii.eqb c "013" = false).
    { apply orb_false_iff. split; apply Ascii.eqb_neq; intros ->; discriminate. }
    rewrite Hnl. cbn [unspaced]. rewrite upper_space, Hc, unspaced_space_capitals, Hk.
    reflexivity.
Qed.

Lemma formatKeywordDisplay_letters_witness :
  formatKeywordDisplay "exclusiveMinimum" = "Exclusive Minimum" /\
  unspaced (formatKeywordDisplay "exclusiveMinimum") = "ExclusiveMinimum".
Proof.
  split; [reflexivity|].
  apply (formatKeywordDisplay_letters "exclusiveMinimum").
  intros c H. cbn in H. repeat (destruct H as [<-|H]; [reflexivity|]). destruct H.
Defined.
